(** * The matching engine of [matching_engine.cpp]

    A shallow embedding of the order book, the ledger, the inbound message
    queue, the engine loop, the command line and the tables it prints,
    followed by the properties of the specification that are settled
    against it and by further properties of the code.

    Conventions of the embedding.
    - A C++ [int] is a [Z].  Signed overflow is undefined behaviour in C++,
      so the embedding describes the executions in which it does not occur.
    - A C++ [double] is a primitive binary64 [float]; [<], [==], [<=], [*],
      [+] and [-] are the IEEE 754 operations (round to nearest even).
    - A [std::string] is a [string], a [std::vector] a [list] (back at the
      end), a [std::map<std::string, _>] a [gmap string _].
    - A [std::multiset<Order, OrderComparator>] is the [list] of its
      elements in iteration order, a [std::map<double, int>] the [list] of
      its entries by ascending key.
    - [std::cout] and [std::cerr] are the lists of the lines written to
      them, a line without its newline; the prompt of the commander is an
      entry of its own.
    - A call that has no defined behaviour in C++ returns [None] or
      [Undefined]. *)

From Stdlib Require Import ZArith QArith Qcanon Floats Uint63 Ascii String List Sorted.
From Stdlib Require Import DecimalString DecimalPos DecimalN DecimalZ.
From Stdlib Require Import OrderedTypeEx.
From stdpp Require Import gmap strings list fin_maps sorting.

Local Open Scope Z_scope.

(** ** Numbers *)

Abbreviation double := PrimFloat.float.

(** The implicit conversion of an [int] to [double]; exact for every
    32-bit value. *)
Definition double_of_int (z : Z) : double :=
  if z <? 0 then PrimFloat.opp (PrimFloat.of_uint63 (Uint63.of_Z (- z)))
  else PrimFloat.of_uint63 (Uint63.of_Z z).

(** The rational number a finite [double] stands for (0 for NaN and the
    infinities); used only to state exact sums. *)
Definition Q_of_double (x : double) : Q :=
  match Prim2SF x with
  | S754_finite s m e =>
      let sm := if s then Z.neg m else Z.pos m in
      match e with
      | Z0 => inject_Z sm
      | Z.pos p => inject_Z (sm * 2 ^ Z.pos p)
      | Z.neg p => Qmake sm (2 ^ p)%positive
      end
  | _ => 0%Q
  end.

(** [x] is not a NaN, which C++ writes [x == x]. *)
Definition ordered (x : double) : Prop := PrimFloat.eqb x x = true.

(** ** Data model *)

Record Transaction := {
  tx_id : Z;
  tx_quantity : Z;
  tx_price : double;
  tx_timestamp : Z;
  buyer : string;
  seller : string;
  aggressor : string
}.

Record Account_Details := {
  usd_balance : double;
  coin_balance : Z
}.

Record Order := {
  id : Z;
  account_name : string;
  is_buy : bool;
  quantity : Z;
  price : double;
  timestamp : Z
}.

(** [OrderComparator::operator()]: does [a] come strictly before [b]?
    [a.price > b.price] is [b.price < a.price]. *)
Definition OrderComparator (a b : Order) : bool :=
  if is_buy a
  then PrimFloat.ltb (price b) (price a)
       || (PrimFloat.eqb (price a) (price b) && (timestamp a <? timestamp b))
  else PrimFloat.ltb (price a) (price b)
       || (PrimFloat.eqb (price a) (price b) && (timestamp a <? timestamp b)).


(** The [multiset]'s [emplace]: the new element goes to the upper bound of
    its equivalence range, that is before the first element it strictly
    precedes.  On a side the comparator orders (see [book_ok] below) that
    element is the first one the walk from the front meets. *)
Fixpoint emplace (x : Order) (side : list Order) : list Order :=
  match side with
  | [] => [x]
  | y :: rest => if OrderComparator x y then x :: side else y :: emplace x rest
  end.

(** [std::find_if (...)] followed by [erase] of the iterator found: the
    first order with the given id goes, if there is one. *)
Fixpoint erase_first_id (order_id : Z) (side : list Order) : list Order :=
  match side with
  | [] => []
  | o :: rest =>
      if id o =? order_id then rest else o :: erase_first_id order_id rest
  end.

(** The private member [order_book].  Its only keys are ["buy"] and
    ["sell"], and a key that is absent behaves as an empty side in every
    member function, so the map is the pair of its two sides. *)
Inductive Key := Buy | Sell.

Record OrderBook := {
  buy_side : list Order;
  sell_side : list Order
}.

Definition at_key (k : Key) (book : OrderBook) : list Order :=
  match k with Buy => buy_side book | Sell => sell_side book end.

Definition set_key (k : Key) (side : list Order) (book : OrderBook) : OrderBook :=
  match k with
  | Buy => {| buy_side := side; sell_side := sell_side book |}
  | Sell => {| buy_side := buy_side book; sell_side := side |}
  end.

Definition with_quantity (o : Order) (q : Z) : Order :=
  {| id := id o; account_name := account_name o; is_buy := is_buy o;
     quantity := q; price := price o; timestamp := timestamp o |}.

(** ** The ledger *)

Abbreviation Accounts := (gmap string Account_Details).

(** What [accounts[name]] creates when [name] is not a key. *)
Definition value_initialized : Account_Details :=
  {| usd_balance := 0%float; coin_balance := 0 |}.

(** The value [accounts[name]] reads. *)
Definition subscript (name : string) (accounts : Accounts) : Account_Details :=
  default value_initialized (accounts !! name).

(** The map after [accounts[name]] has been evaluated. *)
Definition touch (name : string) (accounts : Accounts) : Accounts :=
  match accounts !! name with
  | Some _ => accounts
  | None => <[name := value_initialized]> accounts
  end.

(** [accounts[name].coin_balance += dq] *)
Definition add_coin (name : string) (dq : Z) (accounts : Accounts) : Accounts :=
  let a := subscript name accounts in
  <[name := {| usd_balance := usd_balance a;
               coin_balance := coin_balance a + dq |}]> accounts.

(** [accounts[name].coin_balance -= dq] *)
Definition sub_coin (name : string) (dq : Z) (accounts : Accounts) : Accounts :=
  let a := subscript name accounts in
  <[name := {| usd_balance := usd_balance a;
               coin_balance := coin_balance a - dq |}]> accounts.

(** [accounts[name].usd_balance += dx] *)
Definition add_usd (name : string) (dx : double) (accounts : Accounts) : Accounts :=
  let a := subscript name accounts in
  <[name := {| usd_balance := PrimFloat.add (usd_balance a) dx;
               coin_balance := coin_balance a |}]> accounts.

(** [accounts[name].usd_balance -= dx] *)
Definition sub_usd (name : string) (dx : double) (accounts : Accounts) : Accounts :=
  let a := subscript name accounts in
  <[name := {| usd_balance := PrimFloat.sub (usd_balance a) dx;
               coin_balance := coin_balance a |}]> accounts.

(** Sums over the account table: the asset units, and the USD as the exact
    rational number the balances add up to. *)
Definition total {A : Type} (add : A -> A -> A) (zero : A)
    (measure : Account_Details -> A) (accounts : Accounts) : A :=
  map_fold (fun _ a s => add (measure a) s) zero accounts.

Definition total_coin (accounts : Accounts) : Z :=
  total Z.add 0 coin_balance accounts.

Definition exact_value (x : double) : Qc := Q2Qc (Q_of_double x).

Definition usd_value (a : Account_Details) : Qc := exact_value (usd_balance a).

Definition total_usd (accounts : Accounts) : Qc :=
  total Qcplus 0%Qc usd_value accounts.

(** ** The order book *)

Definition key_of (is_buy : bool) : Key := if is_buy then Buy else Sell.

(** [OrderBook::add_order] *)
Definition add_order (order : Order) (book : OrderBook) : OrderBook :=
  let k := key_of (is_buy order) in
  set_key k (emplace order (at_key k book)) book.

(** [OrderBook::remove_order] *)
Definition remove_order (order_id : Z) (book : OrderBook) : OrderBook :=
  if order_id =? 0 then book
  else
    let k := if order_id <? 0 then Buy else Sell in
    set_key k (erase_first_id order_id (at_key k book)) book.

(** The predicate both [find_if] calls of [is_allowed_order] search with. *)
Definition same_account_and_price (order o : Order) : bool :=
  bool_decide (account_name o = account_name order)
  && PrimFloat.eqb (price o) (price order).

(** [OrderBook::is_allowed_order].  [accounts[...]] may add a key to the
    table it is handed by reference, so the table is returned as well.
    [x >= y] on doubles is [y <= x]. *)
Definition is_allowed_order (order : Order) (accounts : Accounts) (book : OrderBook)
  : bool * Accounts :=
  let balance := subscript (account_name order) accounts in
  let accounts' := touch (account_name order) accounts in
  if is_buy order then
    (PrimFloat.leb (PrimFloat.mul (double_of_int (quantity order)) (price order))
                   (usd_balance balance)
     && match find (same_account_and_price order) (at_key Sell book) with
        | Some _ => false
        | None => true
        end,
     accounts')
  else
    ((quantity order <=? coin_balance balance)
     && match find (same_account_and_price order) (at_key Buy book) with
        | Some _ => false
        | None => true
        end,
     accounts').

(** [OrderBook::get_last_order_id] *)
Definition get_last_order_id (isBuy : bool) (book : OrderBook) : Z :=
  let factor := if isBuy then 1 else -1 in
  let last_order_id :=
    fold_left (fun last order => Z.max last (Z.abs (id order)))
              (at_key (key_of isBuy) book) 0 in
  factor * (if last_order_id =? 0 then 1 else last_order_id + 1).

(** [OrderBook::construct_order] *)
Definition construct_order (book : OrderBook) (account_name side : string)
    (quantity : Z) (price : double) (timestamp : Z) : Order :=
  {| id := get_last_order_id (bool_decide (side = "buy")) book;
     account_name := account_name;
     is_buy := bool_decide (side = "buy");
     quantity := quantity;
     price := price;
     timestamp := timestamp |}.

(** ** Reading commands *)

Definition INT_MAX : Z := 2147483647.

Definition is_digit (c : ascii) : bool :=
  (48 <=? nat_of_ascii c)%nat && (nat_of_ascii c <=? 57)%nat.

(** [std::isspace] in the "C" locale. *)
Definition isspace (c : ascii) : bool :=
  (nat_of_ascii c =? 32)%nat
  || ((9 <=? nat_of_ascii c)%nat && (nat_of_ascii c <=? 13)%nat).

Fixpoint digits_value (acc : Z) (s : list ascii) : Z :=
  match s with
  | [] => acc
  | c :: s' => digits_value (10 * acc + (Z.of_nat (nat_of_ascii c) - 48)) s'
  end.

(** [convert_string_to_int]: the value, and what it writes to [std::cerr].
    [std::stoi] throws [invalid_argument] on the empty string and
    [out_of_range] above [INT_MAX]; both are caught and give 0. *)
Definition convert_string_to_int (input : string) : Z * list string :=
  let cs := list_ascii_of_string input in
  if forallb is_digit cs then
    match cs with
    | [] => (0, [])
    | _ => let v := digits_value 0 cs in
           if v <=? INT_MAX then (v, []) else (0, [])
    end
  else (0, ["Invalid input: non-numeric characters found"]).

(** The [while (ss >> token)] of [parse_input]: [cur] is the token being
    read, last character first. *)
Fixpoint tokens_of (cur : list ascii) (s : list ascii) : list string :=
  match s with
  | [] => match cur with [] => [] | _ => [string_of_list_ascii (rev cur)] end
  | c :: s' =>
      if isspace c then
        match cur with
        | [] => tokens_of [] s'
        | _ => string_of_list_ascii (rev cur) :: tokens_of [] s'
        end
      else tokens_of (c :: cur) s'
  end.

Definition parse_input (input : string) : list string :=
  tokens_of [] (list_ascii_of_string input).

(** ** The inbound channel *)

(** [std::variant<Order, std::string>]: index 0 is the order. *)
Definition MessageQueueData : Type := Order + string.

Module MessageQueue.

(** The [std::queue] inside: front first. *)
Definition t : Type := list MessageQueueData.



















End MessageQueue.

Section Engine.

(** [get_epoch_ms ()] as [settle_accounts] reads it.  The log only grows and
    every settlement reads the clock once, so the readings of a run are a
    function of the length of the log at the time of the call. *)
Variable get_epoch_ms : nat -> Z.

Definition settle_accounts (buyer seller : string) (quantity : Z) (price : double)
    (aggressor : string) (accounts : Accounts) (transactions : list Transaction)
  : Accounts * list Transaction :=
  let accounts := add_coin buyer quantity accounts in
  let accounts := sub_usd buyer (PrimFloat.mul (double_of_int quantity) price) accounts in
  let accounts := sub_coin seller quantity accounts in
  let accounts := add_usd seller (PrimFloat.mul (double_of_int quantity) price) accounts in
  let transaction :=
    {| tx_id := Z.of_nat (length transactions) + 1;
       tx_quantity := quantity;
       tx_price := price;
       tx_timestamp := get_epoch_ms (length transactions);
       buyer := buyer;
       seller := seller;
       aggressor := aggressor |} in
  (accounts, transactions ++ [transaction]).

(** ** Matching *)

(** The condition of the [while] of [match_order] once [order_it] is known
    not to be [end ()]. *)
Definition keeps_walking (order top : Order) : bool :=
  (if is_buy order then PrimFloat.leb (price top) (price order)
   else PrimFloat.leb (price order) (price top))
  && (0 <? quantity order)
  && bool_decide (account_name order <> account_name top).

Definition buyer_of (order top : Order) : string :=
  if is_buy order then account_name order else account_name top.

Definition seller_of (order top : Order) : string :=
  if is_buy order then account_name top else account_name order.

Definition side_name (order : Order) : string :=
  if is_buy order then "buy" else "sell".

(** The [while] loop of [match_order].  [order_it] starts at [begin ()], and
    an iteration that goes on has erased the element it looked at, so
    [order_it] is always the first element of what is left of the side. *)
Fixpoint match_loop (order : Order) (side : list Order) (accounts : Accounts)
    (transactions : list Transaction)
  : Order * list Order * Accounts * list Transaction :=
  match side with
  | [] => (order, [], accounts, transactions)
  | top :: rest =>
      if keeps_walking order top then
        if quantity top <=? quantity order then
          let order' := with_quantity order (quantity order - quantity top) in
          let '(accounts', transactions') :=
            settle_accounts (buyer_of order' top) (seller_of order' top)
              (quantity top) (price top) (side_name order') accounts transactions in
          match_loop order' rest accounts' transactions'
        else
          let updatedOrder := with_quantity top (quantity top - quantity order) in
          let '(accounts', transactions') :=
            settle_accounts (buyer_of order top) (seller_of order top)
              (quantity order) (price top) (side_name order) accounts transactions in
          (with_quantity order 0, emplace updatedOrder rest, accounts', transactions')
      else (order, side, accounts, transactions)
  end.

Definition opposite_key (order : Order) : Key :=
  if is_buy order then Sell else Buy.

Definition match_order (order : Order) (book : OrderBook) (accounts : Accounts)
    (transactions : list Transaction)
  : Order * OrderBook * Accounts * list Transaction :=
  let '(order', side', accounts', transactions') :=
    match_loop order (at_key (opposite_key order) book) accounts transactions in
  (order', set_key (opposite_key order) side' book, accounts', transactions').

(** A sequence of trades, each a buyer, a seller, a quantity, a price and
    the side of the aggressor, settled one after the other. *)
Definition settle_all (trades : list (string * string * Z * double * string))
    (accounts : Accounts) (transactions : list Transaction)
  : Accounts * list Transaction :=
  fold_left
    (fun settled '(buyer, seller, quantity, price, aggressor) =>
       settle_accounts buyer seller quantity price aggressor settled.1 settled.2)
    trades (accounts, transactions).

(** ** The engine loop *)

(** The process-wide state the engine works on, with what has been written
    to [std::cout] and [std::cerr]. *)
Record State := {
  accounts : Accounts;
  transactions : list Transaction;
  order_book : OrderBook;
  cout : list string;
  cerr : list string
}.

Inductive LoopStep :=
| Continue (st : State)
| Break (st : State)
| Undefined.

(** One turn of the [while (true)] of [matching_engine] on the message
    [pop ()] returned.  [message_tokens[1]] on a one-token message reads
    past the end of the vector. *)
Definition matching_engine_step (data : MessageQueueData) (st : State) : LoopStep :=
  match data with
  | inl order =>
      let '(allowed, accounts1) :=
        is_allowed_order order (accounts st) (order_book st) in
      if allowed then
        let '(order', book', accounts2, transactions') :=
          match_order order (order_book st) accounts1 (transactions st) in
        Continue {| accounts := accounts2;
                    transactions := transactions';
                    order_book := if 0 <? quantity order'
                                  then add_order order' book' else book';
                    cout := cout st;
                    cerr := cerr st |}
      else
        Continue {| accounts := accounts1;
                    transactions := transactions st;
                    order_book := order_book st;
                    cout := cout st ++ ["Order rejected"];
                    cerr := cerr st |}
  | inr message =>
      match parse_input message with
      | [] => Continue st
      | token0 :: rest =>
          if bool_decide (token0 = "exit") then Break st
          else if bool_decide (token0 = "cancel") then
            match rest with
            | [] => Undefined
            | token1 :: _ =>
                let '(order_id, said) := convert_string_to_int token1 in
                Continue {| accounts := accounts st;
                            transactions := transactions st;
                            order_book := remove_order order_id (order_book st);
                            cout := cout st;
                            cerr := cerr st ++ said |}
            end
          else Continue st
      end
  end.

(** [matching_engine] on the messages [pop ()] returns one after the other;
    when they run out the loop waits in [pop ()]. *)
Fixpoint matching_engine (messages : list MessageQueueData) (st : State) : LoopStep :=
  match messages with
  | [] => Continue st
  | data :: messages' =>
      match matching_engine_step data st with
      | Continue st' => matching_engine messages' st'
      | stop => stop
      end
  end.

End Engine.

(** The states of a run.  The program starts with an empty log; the book and
    the accounts are what [setup ()] or the account commands made them.
    Between two messages the account commands of [command_router] (create,
    delete, fund, withdraw) may change the account table, and nothing
    else. *)
Inductive reachable : State -> Prop :=
| reachable_start accounts0 book0 :
    reachable {| accounts := accounts0; transactions := [];
                 order_book := book0; cout := []; cerr := [] |}
| reachable_message clock data st st' :
    reachable st ->
    matching_engine_step clock data st = Continue st' ->
    reachable st'
| reachable_account_command st accounts' :
    reachable st ->
    reachable {| accounts := accounts'; transactions := transactions st;
                 order_book := order_book st; cout := cout st; cerr := cerr st |}.

(** ** Keys of doubles

    The comparisons of binary64 are specified by [SFcompare].  A double that
    is not a NaN has a key, a triple of integers, and the comparisons are
    the lexicographic comparisons of the keys. *)

Definition SFkey (x : spec_float) : option (Z * Z * Z) :=
  match x with
  | S754_nan => None
  | S754_infinity true => Some (-2, 0, 0)
  | S754_finite true m e => Some (-1, - e, Z.neg m)
  | S754_zero _ => Some (0, 0, 0)
  | S754_finite false m e => Some (1, e, Z.pos m)
  | S754_infinity false => Some (2, 0, 0)
  end.

Definition key_lt (a b : Z * Z * Z) : Prop :=
  a.1.1 < b.1.1
  \/ (a.1.1 = b.1.1 /\ (a.1.2 < b.1.2 \/ (a.1.2 = b.1.2 /\ a.2 < b.2))).

Definition key_eq (a b : Z * Z * Z) : Prop :=
  a.1.1 = b.1.1 /\ a.1.2 = b.1.2 /\ a.2 = b.2.

Definition key (x : double) : option (Z * Z * Z) := SFkey (Prim2SF x).

(** ** Price-time priority *)

(** [a] may stand before [b] on the side [k]: its price is strictly better
    (higher on the buy side, lower on the sell side), or the prices are
    equal and it is not younger. *)
Definition may_precede (k : Key) (a b : Order) : Prop :=
  match k with
  | Buy =>
      PrimFloat.ltb (price b) (price a) = true
      \/ (PrimFloat.eqb (price a) (price b) = true /\ timestamp a <= timestamp b)
  | Sell =>
      PrimFloat.ltb (price a) (price b) = true
      \/ (PrimFloat.eqb (price a) (price b) = true /\ timestamp a <= timestamp b)
  end.

Definition price_time_sorted (k : Key) (side : list Order) : Prop :=
  StronglySorted (may_precede k) side.

(** An order that belongs on the side [k]: its flag says so, and its price
    is a number. *)
Definition on_side (k : Key) (o : Order) : Prop :=
  key_of (is_buy o) = k /\ ordered (price o).

Definition side_ok (k : Key) (side : list Order) : Prop :=
  Forall (on_side k) side /\ price_time_sorted k side.

Definition book_ok (book : OrderBook) : Prop :=
  side_ok Buy (buy_side book) /\ side_ok Sell (sell_side book).

(** ** Notions of the specification *)

(** A transaction between two different accounts. *)
Definition no_self_trade (t : Transaction) : Prop := buyer t <> seller t.

(** The largest [abs (id)] on a side, 0 on an empty one. *)
Definition max_abs_id (side : list Order) : Z :=
  foldr (fun o m => Z.max (Z.abs (id o)) m) 0 side.

(** ** The state [setup ()] builds

    [t1] to [t4] are the four readings of the clock it makes. *)

Definition setup_accounts : Accounts :=
  <["charlie" := {| usd_balance := 1235%float; coin_balance := 1000 |}]>
  (<["bob" := {| usd_balance := 300%float; coin_balance := 2000 |}]>
  (<["alice" := {| usd_balance := 6000%float; coin_balance := 43540 |}]> ∅)).

Definition empty_book : OrderBook := {| buy_side := []; sell_side := [] |}.

Definition setup_book (t1 t2 t3 t4 : Z) : OrderBook :=
  let book := empty_book in
  let book := add_order (construct_order book "alice" "buy" 1 20.5%float t1) book in
  let book := add_order (construct_order book "bob" "buy" 10 22.5%float t2) book in
  let book := add_order (construct_order book "charlie" "sell" 8 23.5%float t3) book in
  add_order (construct_order book "charlie" "sell" 8 25.5%float t4) book.

Definition setup_state (t1 t2 t3 t4 : Z) : State :=
  {| accounts := setup_accounts; transactions := [];
     order_book := setup_book t1 t2 t3 t4; cout := []; cerr := [] |}.

(** A clock for the examples. *)
Definition example_clock (n : nat) : Z := 2000 + Z.of_nat n.

(** Two accounts for the examples of settlement: one rich in USD, one that
    holds a few units of the asset. *)
Definition rich_accounts : Accounts :=
  <["bob" := {| usd_balance := 0%float; coin_balance := 5 |}]>
  (<["alice" := {| usd_balance := 10000000000000000%float; coin_balance := 0 |}]> ∅).

(** A sell side on which an order of alice stands before an order of bob,
    and a buy order of alice that crosses both. *)
Definition own_order_first_book : OrderBook :=
  {| buy_side := [];
     sell_side :=
       [ {| id := -1; account_name := "alice"; is_buy := false;
            quantity := 5; price := 10%float; timestamp := 1 |};
         {| id := -2; account_name := "bob"; is_buy := false;
            quantity := 5; price := 11%float; timestamp := 2 |} ] |}.

Definition alice_buys : Order :=
  {| id := 1; account_name := "alice"; is_buy := true;
     quantity := 5; price := 12%float; timestamp := 3 |}.

(** Orders and messages for the examples on the book of [setup ()]. *)
Definition example_book : OrderBook := setup_book 1000 1000 1000 1001.

Definition example_state : State := setup_state 1000 1000 1000 1001.

Definition charlie_sells_8 : Order :=
  {| id := -1; account_name := "charlie"; is_buy := false;
     quantity := 8; price := 23.5%float; timestamp := 1000 |}.

Definition charlie_sells_8_more : Order :=
  {| id := -2; account_name := "charlie"; is_buy := false;
     quantity := 8; price := 25.5%float; timestamp := 1001 |}.

Definition alice_buys_5 : Order :=
  {| id := 3; account_name := "alice"; is_buy := true;
     quantity := 5; price := 23.5%float; timestamp := 1500 |}.

Definition alice_buys_12 : Order :=
  {| id := 3; account_name := "alice"; is_buy := true;
     quantity := 12; price := 23.5%float; timestamp := 1500 |}.

(** The state after the engine has processed [alice_buys_12]. *)
Definition after_alice_buys_12 : State :=
  match matching_engine_step example_clock (inl alice_buys_12) example_state with
  | Continue st => st
  | _ => example_state
  end.

(** Charlie sells 10 at 22.5, which fills the buy order of bob, the one
    with the id 2, and nothing else. *)
Definition charlie_sells_10 : Order :=
  {| id := -3; account_name := "charlie"; is_buy := false;
     quantity := 10; price := 22.5%float; timestamp := 1500 |}.

(** The two buy orders of [setup ()]. *)
Definition alice_buys_1 : Order :=
  {| id := 1; account_name := "alice"; is_buy := true;
     quantity := 1; price := 20.5%float; timestamp := 1000 |}.

Definition bob_buys_10 : Order :=
  {| id := 2; account_name := "bob"; is_buy := true;
     quantity := 10; price := 22.5%float; timestamp := 1000 |}.

(** Charlie sells 4 at 22, a part of the buy order of bob. *)
Definition charlie_sells_4 : Order :=
  {| id := -3; account_name := "charlie"; is_buy := false;
     quantity := 4; price := 22%float; timestamp := 1500 |}.

Definition after_charlie_sells_10 : State :=
  match matching_engine_step example_clock (inl charlie_sells_10) example_state with
  | Continue st => st
  | _ => example_state
  end.

(** A sell side with two orders of equal price and timestamp, charlie's
    before bob's. *)
Definition twin_sell_book : OrderBook :=
  {| buy_side := [];
     sell_side :=
       [ {| id := -1; account_name := "charlie"; is_buy := false;
            quantity := 8; price := 23.5%float; timestamp := 1000 |};
         {| id := -2; account_name := "bob"; is_buy := false;
            quantity := 8; price := 23.5%float; timestamp := 1000 |} ] |}.

(** Orders at the limits of the balances of [setup ()]: bob has 300 USD,
    charlie 1000 units. *)
Definition bob_buys_13 : Order :=
  {| id := 3; account_name := "bob"; is_buy := true;
     quantity := 13; price := 22.5%float; timestamp := 1500 |}.

Definition bob_buys_14 : Order :=
  {| id := 3; account_name := "bob"; is_buy := true;
     quantity := 14; price := 22.5%float; timestamp := 1500 |}.

Definition charlie_sells_1000 : Order :=
  {| id := -3; account_name := "charlie"; is_buy := false;
     quantity := 1000; price := 30%float; timestamp := 1500 |}.

Definition charlie_sells_1001 : Order :=
  {| id := -3; account_name := "charlie"; is_buy := false;
     quantity := 1001; price := 30%float; timestamp := 1500 |}.

(** Dave has 1 USD and sends a buy order of 10 at 0.1, that is at the
    double next to one tenth, which is a little more than one tenth. *)
Definition dave_accounts : Accounts :=
  <["dave" := {| usd_balance := 1%float; coin_balance := 0 |}]> ∅.

Definition dave_buys_10 : Order :=
  {| id := 1; account_name := "dave"; is_buy := true;
     quantity := 10; price := 0x1.999999999999ap-4%float; timestamp := 1500 |}.

Definition dave_state : State :=
  {| accounts := dave_accounts; transactions := [];
     order_book := empty_book; cout := []; cerr := [] |}.

(** Alice rests a sell order at 30 and then sends a buy order at 30. *)
Definition alice_sells_at_30 : Order :=
  {| id := -3; account_name := "alice"; is_buy := false;
     quantity := 1; price := 30%float; timestamp := 1500 |}.

Definition alice_buys_at_30 : Order :=
  {| id := 3; account_name := "alice"; is_buy := true;
     quantity := 1; price := 30%float; timestamp := 1600 |}.

Definition alice_rests_at_30 : State :=
  {| accounts := setup_accounts; transactions := [];
     order_book := add_order alice_sells_at_30 example_book;
     cout := []; cerr := [] |}.



(** ** Quantities *)

(** What rests on a side, and what a stretch of the log has traded. *)
Definition resting_quantity (side : list Order) : Z :=
  foldr (fun o total => quantity o + total) 0 side.

Definition traded_quantity (log : list Transaction) : Z :=
  foldr (fun t total => tx_quantity t + total) 0 log.

(** A trade in which the order [order] is the aggressor: it is on its side
    of the trade, under its account, and the price is within its limit. *)
Definition trade_of (order : Order) (t : Transaction) : Prop :=
  (if is_buy order
   then buyer t = account_name order /\ aggressor t = "buy"
        /\ PrimFloat.leb (tx_price t) (price order) = true
   else seller t = account_name order /\ aggressor t = "sell"
        /\ PrimFloat.leb (price order) (tx_price t) = true)
  /\ buyer t <> seller t.

(** ** What the engine keeps *)

(** Every resting order has a quantity above 0. *)
Definition book_positive (book : OrderBook) : Prop :=
  Forall (fun o => 0 < quantity o) (buy_side book)
  /\ Forall (fun o => 0 < quantity o) (sell_side book).

(** The ids of a log count from 1. *)
Definition numbered (log : list Transaction) : Prop :=
  tx_id <$> log = Z.of_nat <$> seq 1 (length log).

(** The sign of an id tells the side: positive for buy, negative for sell. *)
Definition well_signed (o : Order) : Prop :=
  if is_buy o then 0 < id o else id o < 0.

Definition book_signed (book : OrderBook) : Prop :=
  Forall (fun o => 0 < id o) (buy_side book)
  /\ Forall (fun o => id o < 0) (sell_side book).

(** No two orders of a side have the same id. *)
Definition ids_distinct (book : OrderBook) : Prop :=
  NoDup (id <$> buy_side book) /\ NoDup (id <$> sell_side book).

(** The orders among some messages. *)
Definition orders_of (messages : list MessageQueueData) : list Order :=
  omap (fun data => match data with inl order => Some order | inr _ => None end)
       messages.

(** An order command that the engine processes before anything else
    happens: [construct_order] on the book as it is, then one turn of the
    engine on the order. *)
Definition submit (clock : nat -> Z) (account side : string) (quantity : Z)
    (price : double) (timestamp : Z) (st : State) : LoopStep :=
  matching_engine_step clock
    (inl (construct_order (order_book st) account side quantity price timestamp))
    st.

(** ** Writing text *)

(** [convert_int_to_string]: what [operator<<] writes for an [int], the
    decimal digits with a minus sign before those of a negative number. *)
Definition convert_int_to_string (input : Z) : string :=
  NilZero.string_of_int (Z.to_int input).

(** The number of values of [size_t], which has 64 bits. *)
Definition SIZE_RANGE : Z := 2 ^ 64.

(** [count] spaces, as the loop of [pretty_print] collects them. *)
Definition white_space (count : nat) : string :=
  string_of_list_ascii (replicate count " "%char).

(** [pretty_print].  [width - input.length ()] is computed in [size_t] and
    wraps around when the input is longer than the width; the loop counts
    with an [int] up to half of it, which overflows, and is undefined, when
    that is more than [INT_MAX]. *)
Definition pretty_print (input : string) (width : Z) : option string :=
  let extra_spaces := (width - Z.of_nat (String.length input)) mod SIZE_RANGE in
  if extra_spaces / 2 <=? INT_MAX then
    let white_space := white_space (Z.to_nat (extra_spaces / 2)) in
    Some ((if extra_spaces mod 2 =? 0 then "" else " ")
          +:+ white_space +:+ input +:+ white_space)
  else None.

(** The text between two tokens that [command_router] puts into a cancel
    message. *)
Definition cancel_message (token1 token2 : string) : string :=
  token1 +:+ " " +:+ token2.

(** A token: not empty, and without white space. *)
Definition is_token (t : string) : Prop :=
  t <> "" /\ forallb (fun c => negb (isspace c)) (list_ascii_of_string t) = true.

(** ** The command line

    The commander thread reads lines, splits them and hands the tokens to
    [command_router], which works on the process-wide state and pushes
    messages for the engine.  What the standard library does with a
    [double] as text is not part of the program: [std::stod] ([None] when it
    throws [invalid_argument] or [out_of_range]) and the [operator<<] of an
    output stream are left open. *)

Definition ACCOUNT_TABLE_WIDTH : Z := 16.
Definition ORDER_TABLE_WIDTH : Z := 24.

(** [input.find_first_not_of (chars) == npos] *)
Definition only_of (chars input : string) : bool :=
  forallb (fun c => bool_decide (c ∈ list_ascii_of_string chars))
          (list_ascii_of_string input).

(** The keys of [accounts] in the order of [std::less<std::string>]. *)
Definition name_le (a b : string * Account_Details) : Prop :=
  String.leb a.1 b.1 = true.

#[global] Instance name_le_dec : RelDecision name_le.
Proof. intros a b. unfold name_le. apply _. Defined.

(** [for (auto account : accounts)] *)
Definition in_key_order (accounts : Accounts) : list (string * Account_Details) :=
  merge_sort name_le (map_to_list accounts).

(** [std::map<double, int>]: the entries by ascending key.  Two keys
    neither of which is less than the other are the same key. *)
Abbreviation Levels := (list (double * Z)).

(** [levels[price] += quantity]: [operator[]] adds the key with the value
    0 when it is not there. *)
Fixpoint level_add (at_price : double) (units : Z) (levels : Levels) : Levels :=
  match levels with
  | [] => [(at_price, 0 + units)]
  | (p, q) :: rest =>
      if PrimFloat.ltb at_price p then (at_price, 0 + units) :: levels
      else if PrimFloat.ltb p at_price then (p, q) :: level_add at_price units rest
      else (p, q + units) :: rest
  end.

(** The first loop of [print_order_book]: the two iterators advance
    together until both sides are exhausted. *)
Fixpoint orders_by_price (buy_it sell_it : list Order)
    (buy_orders_by_price sell_orders_by_price : Levels) : Levels * Levels :=
  match buy_it with
  | buy :: buy_it' =>
      let buy_orders_by_price' :=
        level_add (price buy) (quantity buy) buy_orders_by_price in
      match sell_it with
      | sell :: sell_it' =>
          orders_by_price buy_it' sell_it' buy_orders_by_price'
            (level_add (price sell) (quantity sell) sell_orders_by_price)
      | [] => orders_by_price buy_it' [] buy_orders_by_price' sell_orders_by_price
      end
  | [] =>
      (buy_orders_by_price,
       fold_left (fun levels sell => level_add (price sell) (quantity sell) levels)
                 sell_it sell_orders_by_price)
  end.

Definition say (lines : list string) (st : State) : State :=
  {| accounts := accounts st; transactions := transactions st;
     order_book := order_book st; cout := cout st ++ lines; cerr := cerr st |}.

Definition complain (lines : list string) (st : State) : State :=
  {| accounts := accounts st; transactions := transactions st;
     order_book := order_book st; cout := cout st; cerr := cerr st ++ lines |}.

Definition with_accounts (accounts' : Accounts) (st : State) : State :=
  {| accounts := accounts'; transactions := transactions st;
     order_book := order_book st; cout := cout st; cerr := cerr st |}.

Section Commands.

Variable stod : string -> option double.
Variable insert_double : double -> string.

(** [convert_dbl_to_string] *)
Definition convert_dbl_to_string (input : double) : string := insert_double input.

(** [convert_string_to_double]: the value, and what it writes to
    [std::cerr]. *)
Definition convert_string_to_double (input : string) : double * list string :=
  if only_of "0123456789.-" input then
    match stod input with
    | Some value => (value, [])
    | None => (0%float, [])
    end
  else (0%float, ["Invalid input: non-numeric characters found"]).

(** A line of a table: [pretty_print (...) << " | " << pretty_print (...)].
    It has no defined text when one of the calls has none. *)
Definition cells (width : Z) (texts : list string) : option string :=
  String.concat " | " <$> mapM (fun text => pretty_print text width) texts.

Definition account_row (account : string * Account_Details) : option string :=
  cells ACCOUNT_TABLE_WIDTH
    [account.1; convert_dbl_to_string (usd_balance account.2);
     convert_int_to_string (coin_balance account.2)].

(** [print_accounts]: the lines it writes. *)
Definition print_accounts (accounts : Accounts) : option (list string) :=
  header ← cells ACCOUNT_TABLE_WIDTH ["Account"; "$USD"; "Coin (C)"];
  rows ← mapM account_row (in_key_order accounts);
  Some (["-------------------- ACCOUNTS ------------------";
         "Total Accounts: " +:+ convert_int_to_string (Z.of_nat (size accounts));
         header] ++ rows).

Definition transaction_row (t : Transaction) : option string :=
  cells ACCOUNT_TABLE_WIDTH
    [convert_int_to_string (tx_timestamp t); aggressor t; buyer t; seller t;
     convert_int_to_string (tx_quantity t); convert_dbl_to_string (tx_price t)].

(** The [while] of [print_transactions]: [transaction_iter] walks the log
    from its end, [i] counts the rows written. *)
Fixpoint transaction_rows (account : string) (num_transactions i : Z)
    (transaction_iter : list Transaction) : option (list string) :=
  match transaction_iter with
  | [] => Some []
  | t :: transaction_iter' =>
      if i <? num_transactions then
        if negb (bool_decide (account = ""))
           && (bool_decide (buyer t = account) || bool_decide (seller t = account))
        then
          row ← transaction_row t;
          rows ← transaction_rows account num_transactions (i + 1) transaction_iter';
          Some (row :: rows)
        else if bool_decide (account = "") then
          row ← transaction_row t;
          rows ← transaction_rows account num_transactions (i + 1) transaction_iter';
          Some (row :: rows)
        else transaction_rows account num_transactions i transaction_iter'
      else Some []
  end.

(** [print_transactions]: the lines it writes. *)
Definition print_transactions (account : string) (num_transactions : Z)
    (transactions : list Transaction) : option (list string) :=
  header ← cells ACCOUNT_TABLE_WIDTH
             ["Timestamp"; "Aggressor"; "Buyer"; "Seller"; "Quantity"; "Price"];
  rows ← transaction_rows account num_transactions 0 (rev transactions);
  Some (["-------------------- TRANSACTIONS ------------------";
         if bool_decide (account = "") then "All Transactions"
         else "Account: " +:+ account;
         header] ++ rows).

Definition level_row (mark : string) (level : double * Z) : option string :=
  row ← cells (ORDER_TABLE_WIDTH / 2)
          [convert_int_to_string level.2; convert_dbl_to_string level.1];
  Some (mark +:+ row).

(** [OrderBook::print_order_book]: the lines it writes.  Both maps are
    walked from [rbegin ()], the highest price first. *)
Definition print_order_book (book : OrderBook) : option (list string) :=
  header ← cells (ORDER_TABLE_WIDTH / 2) ["Qty"; "$"];
  let '(buy_orders_by_price, sell_orders_by_price) :=
    orders_by_price (buy_side book) (sell_side book) [] [] in
  sell_rows ← mapM (level_row "⌄") (rev sell_orders_by_price);
  buy_rows ← mapM (level_row "⌃") (rev buy_orders_by_price);
  Some (["------------------ ORDER BOOK ----------------"; " " +:+ header]
        ++ sell_rows ++ [""] ++ buy_rows).

(** [command_router], called at the time [now] on the state [st]: the
    state it leaves and the messages it has pushed.  [None] where the call
    has no defined behaviour: [input_tokens[0]] on no token at all, or a
    table cell [pretty_print] cannot pad.  The call is described on the
    state it finds, as when the engine does not move between its critical
    sections; what it pushes and what it writes to the account table comes
    from one critical section in every branch. *)
Definition command_router (now : Z) (input_tokens : list string) (st : State)
  : option (State * list MessageQueueData) :=
  match input_tokens with
  | [] => None
  | token0 :: tokens1 =>
      if bool_decide (token0 = "account") then
        match tokens1 with
        | token1 :: token2 :: tokens3 =>
            if bool_decide (token2 = "create") then
              let st' := with_accounts (touch token1 (accounts st)) st in
              lines ← print_accounts (accounts st');
              Some (say lines st', [])
            else if bool_decide (token2 = "delete") then
              let st' := with_accounts (delete token1 (accounts st)) st in
              lines ← print_accounts (accounts st');
              Some (say lines st', [])
            else
              match accounts st !! token1 with
              | None => Some (say ["Account does not exist"] st, [])
              | Some details =>
                  if bool_decide (token2 = "query") then
                    Some (say ["Account Name: " +:+ token1;
                               "USD Balance: " +:+ insert_double (usd_balance details);
                               "Coin Balance: "
                               +:+ convert_int_to_string (coin_balance details)] st,
                          [])
                  else if bool_decide (token2 = "fund") then
                    match tokens3 with
                    | [] => Some (say ["Invalid arguments"] st, [])
                    | token3 :: _ =>
                        let '(funding_amount, said) := convert_string_to_double token3 in
                        Some (complain said
                                (with_accounts
                                   (add_usd token1 funding_amount (accounts st)) st),
                              [])
                    end
                  else if bool_decide (token2 = "withdraw") then
                    match tokens3 with
                    | [] => Some (say ["Invalid arguments"] st, [])
                    | token3 :: _ =>
                        let '(withdraw_amount, said) := convert_string_to_double token3 in
                        let st1 := complain said st in
                        if PrimFloat.ltb (usd_balance details) withdraw_amount then
                          Some (say ["Insufficient funds"] st1, [])
                        else
                          Some (say ["Sending " +:+ insert_double withdraw_amount
                                     +:+ " to " +:+ token1
                                     +:+ "'s linked bank account."]
                                  (with_accounts
                                     (sub_usd token1 withdraw_amount (accounts st)) st1),
                                [])
                    end
                  else if bool_decide (token2 = "transactions") then
                    match tokens3 with
                    | [] => Some (say ["Invalid arguments"] st, [])
                    | token3 :: _ =>
                        let '(num_transactions, said) := convert_string_to_int token3 in
                        lines ← print_transactions token1 num_transactions
                                  (transactions st);
                        Some (say lines (complain said st), [])
                    end
                  else Some (say ["Invalid subcommand"] st, [])
              end
        | _ => Some (say ["Invalid arguments"] st, [])
        end
      else if bool_decide (token0 = "order") then
        match tokens1 with
        | [] => Some (say ["Invalid arguments"] st, [])
        | token1 :: tokens2 =>
            if bool_decide (token1 = "cancel") then
              match tokens2 with
              | [] => Some (say ["Invalid arguments"] st, [])
              | token2 :: _ =>
                  let '(order_id, said) := convert_string_to_int token2 in
                  if order_id =? 0 then Some (complain said st, [])
                  else Some (complain said st, [inr (cancel_message token1 token2)])
              end
            else if bool_decide (token1 = "create") then
              match tokens2 with
              | account_name :: side :: token4 :: token5 :: _ =>
                  let '(units, said) := convert_string_to_int token4 in
                  let '(at_price, said') := convert_string_to_double token5 in
                  Some (complain (said ++ said') st,
                        [inl (construct_order (order_book st) account_name side
                                units at_price now)])
              | _ => Some (say ["Invalid arguments"] st, [])
              end
            else Some (say ["Invalid subcommand"] st, [])
        end
      else if bool_decide (token0 = "state") then
        lines ← print_accounts (accounts st);
        lines' ← print_order_book (order_book st);
        Some (say (lines ++ lines') st, [])
      else if bool_decide (token0 = "transactions") then
        match tokens1 with
        | [] => Some (say ["Invalid arguments"] st, [])
        | token1 :: _ =>
            let '(num_transactions, said) := convert_string_to_int token1 in
            lines ← print_transactions "" num_transactions (transactions st);
            Some (say lines (complain said st), [])
        end
      else Some (say ["Invalid command"] st, [])
  end.

(** ** The two threads of [main] *)

(** The process: the state both threads share, the queue between them, the
    lines still to come on [std::cin], and which of the two loops are still
    running.  The threads take turns; a turn is one pass through the
    [while (true)] of either. *)
Record Process := {
  shared : State;
  message_queue : list MessageQueueData;
  cin : list string;
  commander_running : bool;
  engine_running : bool
}.

(** One turn of the [while (true)] of [commander]: [getline] fails when the
    input has ended. *)
Definition commander_turn (now : Z) (p : Process) : option Process :=
  if commander_running p then
    let st := say ["Enter Command: "] (shared p) in
    match cin p with
    | [] =>
        Some {| shared := st; message_queue := message_queue p; cin := [];
                commander_running := false; engine_running := engine_running p |}
    | input :: cin' =>
        match parse_input input with
        | [] =>
            Some {| shared := st; message_queue := message_queue p; cin := cin';
                    commander_running := true; engine_running := engine_running p |}
        | (token0 :: _) as input_tokens =>
            if bool_decide (token0 = "exit") then
              Some {| shared := st; message_queue := message_queue p; cin := cin';
                      commander_running := false;
                      engine_running := engine_running p |}
            else
              '(st', pushed) ← command_router now input_tokens st;
              Some {| shared := st'; message_queue := message_queue p ++ pushed;
                      cin := cin'; commander_running := true;
                      engine_running := engine_running p |}
        end
    end
  else None.

(** One turn of the [while (true)] of [matching_engine], which waits in
    [pop ()] while the queue is empty. *)
Definition engine_turn (clock : nat -> Z) (p : Process) : option Process :=
  if engine_running p then
    match message_queue p with
    | [] => None
    | data :: queue' =>
        match matching_engine_step clock data (shared p) with
        | Continue st' =>
            Some {| shared := st'; message_queue := queue'; cin := cin p;
                    commander_running := commander_running p;
                    engine_running := true |}
        | Break st' =>
            Some {| shared := st'; message_queue := queue'; cin := cin p;
                    commander_running := commander_running p;
                    engine_running := false |}
        | Undefined => None
        end
    end
  else None.

Inductive turn :=
| CommanderTurn (now : Z)
| EngineTurn (clock : nat -> Z).

Definition take_turn (t : turn) (p : Process) : option Process :=
  match t with
  | CommanderTurn now => commander_turn now p
  | EngineTurn clock => engine_turn clock p
  end.

Fixpoint run_threads (turns : list turn) (p : Process) : option Process :=
  match turns with
  | [] => Some p
  | t :: turns' => p' ← take_turn t p; run_threads turns' p'
  end.

(** [main] after [setup ()], with both threads started. *)
Definition main_start (st : State) (input : list string) : Process :=
  {| shared := st; message_queue := []; cin := input;
     commander_running := true; engine_running := true |}.

(** Both [join]s of [main] have returned. *)
Definition main_returns (p : Process) : bool :=
  negb (commander_running p) && negb (engine_running p).

End Commands.

(** A message the engine takes without leaving its loop. *)
Definition goes_on (data : MessageQueueData) : Prop :=
  forall clock st, exists st', matching_engine_step clock data st = Continue st'.

(** What [command_router] pushes: an order made by [construct_order] from
    the book of that moment, or a cancel message with an id from 1 to
    [INT_MAX]. *)
Definition routed_message (book : OrderBook) (now : Z) (data : MessageQueueData)
  : Prop :=
  match data with
  | inl order =>
      exists account side units at_price,
        order = construct_order book account side units at_price now
        /\ 0 <= units <= INT_MAX
  | inr message =>
      exists token2 order_id,
        message = cancel_message "cancel" token2
        /\ convert_string_to_int token2 = (order_id, [])
        /\ 1 <= order_id <= INT_MAX
  end.

(** The transactions [print_transactions] writes for [account]: all of them
    when it is empty, else those it has bought or sold in. *)
Definition involves (account : string) (t : Transaction) : Prop :=
  account = "" \/ buyer t = account \/ seller t = account.

#[global] Instance involves_dec account t : Decision (involves account t).
Proof. unfold involves. apply _. Defined.

(** ** Price levels *)

(** The levels one side of the book gives in [print_order_book]. *)
Definition levels_of (side : list Order) : Levels :=
  fold_left (fun levels o => level_add (price o) (quantity o) levels) side [].

Definition price_lt (a b : double * Z) : Prop := PrimFloat.ltb a.1 b.1 = true.

(** The quantity resting on a side at a price. *)
Definition level_quantity (at_price : double) (side : list Order) : Z :=
  foldr (fun o total =>
           if PrimFloat.eqb (price o) at_price then quantity o + total else total)
        0 side.

(** The quantity a table of levels shows at a price, and in all. *)
Definition level_at (at_price : double) (levels : Levels) : Z :=
  foldr (fun level total =>
           if PrimFloat.eqb level.1 at_price then level.2 + total else total)
        0 levels.

Definition levels_quantity (levels : Levels) : Z :=
  foldr (fun level total => level.2 + total) 0 levels.

(** No price of the side is a NaN. *)
Definition priced (side : list Order) : Prop :=
  Forall (fun o => ordered (price o)) side.

(** A table of levels shows a side: the prices ascend strictly, every level
    is the price of a resting order and carries the quantity resting at that
    price, every resting order has its level, and the quantities add up to
    what rests on the side. *)
Definition shows (side : list Order) (levels : Levels) : Prop :=
  StronglySorted price_lt levels
  /\ (forall p q, (p, q) ∈ levels ->
        q = level_quantity p side /\ exists o, o ∈ side /\ price o = p)
  /\ (forall o, o ∈ side ->
        exists p q, (p, q) ∈ levels /\ PrimFloat.eqb p (price o) = true)
  /\ levels_quantity levels = resting_quantity side.

(** What the engine keeps of the book and the log, taken together. *)
Definition state_ok (st : State) : Prop :=
  book_ok (order_book st)
  /\ book_signed (order_book st)
  /\ book_positive (order_book st)
  /\ numbered (transactions st)
  /\ Forall no_self_trade (transactions st)
  /\ Forall (fun t => 0 < tx_quantity t) (transactions st).

(** An order in the queue with an id of the sign of its side and a price
    that is a number. *)
Definition queued_ok (data : MessageQueueData) : Prop :=
  forall order, data = inl order -> well_signed order /\ ordered (price order).

(** ** Commands for the examples *)

(** A [std::stod] that knows the two prices the examples type, and a stream
    that writes a double rounded down to an integer. *)
Definition example_stod (text : string) : option double :=
  if bool_decide (text = "24") then Some 24%float
  else if bool_decide (text = "26") then Some 26%float
  else None.

Definition example_insert_double (x : double) : string :=
  let q := Q_of_double x in
  convert_int_to_string (Qnum q / Z.pos (Qden q)).

(** Alice types the same sell order twice before the engine has taken the
    first, asks for the state, tries to cancel and leaves. *)
Definition example_input : list string :=
  [ "order create alice sell 5 26"; "order create alice sell 5 26";
    ""; "state"; "order cancel 1"; "exit"; "order create bob buy 1 24" ].

Definition example_turns : list turn :=
  [ CommanderTurn 3000; CommanderTurn 3001;
    EngineTurn example_clock; CommanderTurn 3002; EngineTurn example_clock;
    CommanderTurn 3003; CommanderTurn 3004; EngineTurn example_clock;
    CommanderTurn 3005 ].

Definition example_process : Process :=
  match run_threads example_stod example_insert_double example_turns
          (main_start example_state example_input) with
  | Some p => p
  | None => main_start example_state example_input
  end.

Definition alice_sells_5 (now : Z) : Order :=
  construct_order example_book "alice" "sell" 5 26%float now.

(** The state after the engine has taken the first order, and after it has
    taken both. *)
Definition alice_sells_once : State :=
  match matching_engine_step example_clock (inl (alice_sells_5 3000))
          example_state with
  | Continue st => st
  | _ => example_state
  end.

Definition alice_sells_twice : State :=
  match matching_engine example_clock
          [inl (alice_sells_5 3000); inl (alice_sells_5 3001)] example_state with
  | Continue st => st
  | _ => example_state
  end.

(** The transaction [t] records [units] that the aggressor [order] has
    traded with the resting order [top], at the price of [top]. *)
Definition filled_by (order top : Order) (units : Z) (t : Transaction) : Prop :=
  tx_quantity t = units
  /\ tx_price t = price top
  /\ buyer t = (if is_buy order then account_name order else account_name top)
  /\ seller t = (if is_buy order then account_name top else account_name order)
  /\ aggressor t = (if is_buy order then "buy" else "sell").

(** ** Waking the consumer *)






(** * Properties *)

(** ** The order of doubles *)

Lemma SFcompare_keys x y :
  match SFcompare x y with
  | Some Lt => exists a b, SFkey x = Some a /\ SFkey y = Some b /\ key_lt a b
  | Some Eq => exists a b, SFkey x = Some a /\ SFkey y = Some b /\ key_eq a b
  | Some Gt => exists a b, SFkey x = Some a /\ SFkey y = Some b /\ key_lt b a
  | None => SFkey x = None \/ SFkey y = None
  end.
Proof.
  unfold key_lt, key_eq.
  destruct x as [sx | sx | | sx mx ex], y as [sy | sy | | sy my ey];
    try destruct sx; try destruct sy; cbn [SFcompare SFkey];
    try (left; reflexivity); try (right; reflexivity);
    try (eexists _, _; split; [reflexivity | split; [reflexivity | cbn; lia]]).
  - destruct (Z.compare_spec ex ey) as [He | He | He];
      [ change (Pos.compare_cont Eq mx my) with (Pos.compare mx my);
        destruct (Pos.compare_spec mx my) as [Hm | Hm | Hm]; cbn [CompOpp] | | ];
      eexists _, _; (split; [reflexivity | split; [reflexivity | cbn; lia]]).
  - destruct (Z.compare_spec ex ey) as [He | He | He];
      [ change (Pos.compare_cont Eq mx my) with (Pos.compare mx my);
        destruct (Pos.compare_spec mx my) as [Hm | Hm | Hm] | | ];
      eexists _, _; (split; [reflexivity | split; [reflexivity | cbn; lia]]).
Qed.

Lemma ltb_key x y :
  PrimFloat.ltb x y = true <->
  exists a b, key x = Some a /\ key y = Some b /\ key_lt a b.
Proof.
  rewrite FloatAxioms.ltb_spec. unfold SFltb, key.
  pose proof (SFcompare_keys (Prim2SF x) (Prim2SF y)) as H.
  destruct (SFcompare (Prim2SF x) (Prim2SF y)) as [[ | | ] | ].
  - split; [discriminate |]. intros (a & b & Ha & Hb & Hlt).
    destruct H as (a' & b' & Ha' & Hb' & Heq).
    rewrite Ha in Ha'. rewrite Hb in Hb'. simplify_eq.
    unfold key_lt, key_eq in *. lia.
  - split; [intros _; exact H | reflexivity].
  - split; [discriminate |]. intros (a & b & Ha & Hb & Hlt).
    destruct H as (a' & b' & Ha' & Hb' & Hgt).
    rewrite Ha in Ha'. rewrite Hb in Hb'. simplify_eq.
    unfold key_lt in *. lia.
  - split; [discriminate |]. intros (a & b & Ha & Hb & _).
    destruct H as [H | H]; congruence.
Qed.

Lemma eqb_key x y :
  PrimFloat.eqb x y = true <->
  exists a b, key x = Some a /\ key y = Some b /\ key_eq a b.
Proof.
  rewrite FloatAxioms.eqb_spec. unfold SFeqb, key.
  pose proof (SFcompare_keys (Prim2SF x) (Prim2SF y)) as H.
  destruct (SFcompare (Prim2SF x) (Prim2SF y)) as [[ | | ] | ].
  - split; [intros _; exact H | reflexivity].
  - split; [discriminate |]. intros (a & b & Ha & Hb & Heq).
    destruct H as (a' & b' & Ha' & Hb' & Hlt).
    rewrite Ha in Ha'. rewrite Hb in Hb'. simplify_eq.
    unfold key_lt, key_eq in *. lia.
  - split; [discriminate |]. intros (a & b & Ha & Hb & Heq).
    destruct H as (a' & b' & Ha' & Hb' & Hgt).
    rewrite Ha in Ha'. rewrite Hb in Hb'. simplify_eq.
    unfold key_lt, key_eq in *. lia.
  - split; [discriminate |]. intros (a & b & Ha & Hb & _).
    destruct H as [H | H]; congruence.
Qed.

Lemma leb_key x y :
  PrimFloat.leb x y = true <->
  exists a b, key x = Some a /\ key y = Some b /\ (key_lt a b \/ key_eq a b).
Proof.
  rewrite FloatAxioms.leb_spec. unfold SFleb, key.
  pose proof (SFcompare_keys (Prim2SF x) (Prim2SF y)) as H.
  destruct (SFcompare (Prim2SF x) (Prim2SF y)) as [[ | | ] | ].
  - split; [intros _ | reflexivity].
    destruct H as (a & b & Ha & Hb & Heq). eauto 8.
  - split; [intros _ | reflexivity].
    destruct H as (a & b & Ha & Hb & Heq). eauto 8.
  - split; [discriminate |]. intros (a & b & Ha & Hb & Hle).
    destruct H as (a' & b' & Ha' & Hb' & Hgt).
    rewrite Ha in Ha'. rewrite Hb in Hb'. simplify_eq.
    unfold key_lt, key_eq in *. lia.
  - split; [discriminate |]. intros (a & b & Ha & Hb & _).
    destruct H as [H | H]; congruence.
Qed.

Lemma ordered_key x : ordered x <-> exists a, key x = Some a.
Proof.
  unfold ordered. rewrite eqb_key. split.
  - intros (a & _ & Ha & _). eauto.
  - intros (a & Ha). exists a, a. unfold key_eq. auto.
Qed.

(** Turns the comparisons among the hypotheses into facts about keys. *)
Ltac double_keys :=
  repeat match goal with
  | H : PrimFloat.ltb _ _ = true |- _ =>
      apply ltb_key in H; destruct H as (? & ? & ? & ? & H)
  | H : PrimFloat.eqb _ _ = true |- _ =>
      apply eqb_key in H; destruct H as (? & ? & ? & ? & H)
  | H : PrimFloat.leb _ _ = true |- _ =>
      apply leb_key in H; destruct H as (? & ? & ? & ? & H)
  | H : ordered _ |- _ =>
      apply ordered_key in H; destruct H as (? & H)
  | H1 : key ?x = Some ?a, H2 : key ?x = Some ?b |- _ =>
      rewrite H1 in H2; injection H2 as <-
  end.

(** Closes a comparison once both keys are among the hypotheses. *)
Ltac by_keys :=
  first [ apply ltb_key | apply eqb_key | apply leb_key ];
  eexists _, _; split; [eassumption | split; [eassumption |]];
  unfold key_lt, key_eq in *; lia.

Lemma double_lt_trans x y z :
  PrimFloat.ltb x y = true -> PrimFloat.ltb y z = true -> PrimFloat.ltb x z = true.
Proof. intros. double_keys. by_keys. Qed.

Lemma double_lt_eq_trans x y z :
  PrimFloat.ltb x y = true -> PrimFloat.eqb y z = true -> PrimFloat.ltb x z = true.
Proof. intros. double_keys. by_keys. Qed.

Lemma double_eq_lt_trans x y z :
  PrimFloat.eqb x y = true -> PrimFloat.ltb y z = true -> PrimFloat.ltb x z = true.
Proof. intros. double_keys. by_keys. Qed.

Lemma double_eq_trans x y z :
  PrimFloat.eqb x y = true -> PrimFloat.eqb y z = true -> PrimFloat.eqb x z = true.
Proof. intros. double_keys. by_keys. Qed.

Lemma double_eq_sym x y :
  PrimFloat.eqb x y = true -> PrimFloat.eqb y x = true.
Proof. intros. double_keys. by_keys. Qed.

Lemma double_lt_asym x y :
  PrimFloat.ltb x y = true -> PrimFloat.ltb y x = false.
Proof.
  intros H. apply not_true_iff_false. intros H'.
  double_keys. unfold key_lt in *. lia.
Qed.

Lemma double_lt_not_eq x y :
  PrimFloat.ltb x y = true -> PrimFloat.eqb x y = false /\ PrimFloat.eqb y x = false.
Proof.
  intros H. split; apply not_true_iff_false; intros H';
    double_keys; unfold key_lt, key_eq in *; lia.
Qed.

Lemma double_total x y :
  ordered x -> ordered y ->
  PrimFloat.ltb x y = true \/ PrimFloat.eqb x y = true \/ PrimFloat.ltb y x = true.
Proof.
  intros Hx Hy. double_keys.
  match goal with
  | Ha : key x = Some ?a, Hb : key y = Some ?b |- _ =>
      assert (key_lt a b \/ key_eq a b \/ key_lt b a) as [H | [H | H]]
        by (unfold key_lt, key_eq; lia)
  end; [left | right; left | right; right]; by_keys.
Qed.

Lemma double_le_lt_eq x y :
  PrimFloat.leb x y = true <->
  PrimFloat.ltb x y = true \/ PrimFloat.eqb x y = true.
Proof.
  split.
  - intros H. double_keys. destruct H; [left | right]; by_keys.
  - intros [H | H]; double_keys; by_keys.
Qed.

(** ** The comparator and the priority order *)

Lemma comparator_may_precede k a b :
  key_of (is_buy a) = k -> OrderComparator a b = true -> may_precede k a b.
Proof.
  unfold OrderComparator, may_precede, key_of.
  intros <-. destruct (is_buy a);
    rewrite orb_true_iff, andb_true_iff, Z.ltb_lt; intros [H | [H1 H2]];
    auto with lia.
Qed.

Lemma not_comparator_may_precede k a b :
  on_side k a -> on_side k b ->
  OrderComparator a b = false -> may_precede k b a.
Proof.
  unfold OrderComparator, may_precede, on_side, key_of.
  intros [<- Ha] [Hk Hb].
  assert (PrimFloat.eqb (price a) (price b) = true ->
          PrimFloat.eqb (price a) (price b) = false \/ timestamp b <= timestamp a ->
          PrimFloat.eqb (price b) (price a) = true /\ timestamp b <= timestamp a)
    as Htie.
  { intros Heq [H | H]; [congruence |]. split; [by apply double_eq_sym | done]. }
  destruct (double_total (price a) (price b) Ha Hb) as [Hlt | [Heq | Hgt]];
    destruct (is_buy a), (is_buy b); try discriminate Hk;
    rewrite orb_false_iff, andb_false_iff, Z.ltb_ge;
    intros [H1 H2]; try congruence; auto.
Qed.

Lemma may_precede_trans k a b c :
  may_precede k a b -> may_precede k b c -> may_precede k a c.
Proof.
  unfold may_precede. destruct k; intros [H1 | [H1 H1']] [H2 | [H2 H2']].
  - left. eapply double_lt_trans; eauto.
  - left. eapply double_eq_lt_trans; eauto using double_eq_sym.
  - left. eapply double_lt_eq_trans; eauto using double_eq_sym.
  - right. split; [eapply double_eq_trans; eauto | lia].
  - left. eapply double_lt_trans; eauto.
  - left. eapply double_lt_eq_trans; eauto.
  - left. eapply double_eq_lt_trans; eauto.
  - right. split; [eapply double_eq_trans; eauto | lia].
Qed.

Lemma Forall_emplace (P : Order -> Prop) x side :
  Forall P (emplace x side) <-> P x /\ Forall P side.
Proof.
  induction side as [| y rest IH]; simpl.
  - rewrite Forall_singleton. rewrite Forall_nil. tauto.
  - destruct (OrderComparator x y).
    + by rewrite Forall_cons.
    + rewrite !Forall_cons, IH. tauto.
Qed.

Lemma emplace_Permutation x side : emplace x side ≡ₚ x :: side.
Proof.
  induction side as [| y rest IH]; simpl; [done |].
  destruct (OrderComparator x y); [done |].
  rewrite IH. apply Permutation_swap.
Qed.

Lemma side_ok_emplace k x side :
  on_side k x -> side_ok k side -> side_ok k (emplace x side).
Proof.
  intros Hx [Hon Hsorted]. split; [by apply Forall_emplace |].
  unfold price_time_sorted in *.
  induction Hsorted as [| y rest Hrest IH Hy]; simpl.
  - repeat constructor.
  - apply Forall_cons in Hon as [Hony Hon].
    destruct (OrderComparator x y) eqn:Hcmp.
    + assert (may_precede k x y) as Hxy
        by (destruct Hx; eauto using comparator_may_precede).
      constructor; [by constructor |].
      constructor; [done |].
      eapply Forall_impl; [exact Hy |]. eauto using may_precede_trans.
    + constructor; [by apply IH |].
      apply Forall_emplace. split; [| done].
      by apply not_comparator_may_precede.
Qed.

Lemma side_ok_tail k top rest : side_ok k (top :: rest) -> side_ok k rest.
Proof.
  intros [Hon Hsorted]. split.
  - by apply Forall_cons in Hon as [_ ?].
  - by apply StronglySorted_inv in Hsorted as [? _].
Qed.

Lemma side_ok_erase_first_id k order_id side :
  side_ok k side -> side_ok k (erase_first_id order_id side).
Proof.
  induction side as [| o rest IH]; simpl; [done |].
  intros Hok. destruct (id o =? order_id); [by eapply side_ok_tail |].
  pose proof (IH (side_ok_tail _ _ _ Hok)) as [Hon' Hsorted'].
  destruct Hok as [Hon Hsorted].
  apply Forall_cons in Hon as [Ho Hon].
  apply StronglySorted_inv in Hsorted as [Hsorted Hall].
  split; [by constructor |].
  constructor; [done |].
  clear -Hall. induction rest as [| y rest IH]; simpl; [done |].
  apply Forall_cons in Hall as [? ?].
  destruct (id y =? order_id); [done |]. constructor; auto.
Qed.

(** ** The book stays in price-time priority *)

Lemma match_loop_cons clock order top rest accounts transactions :
  match_loop clock order (top :: rest) accounts transactions =
  if keeps_walking order top then
    if quantity top <=? quantity order then
      let order' := with_quantity order (quantity order - quantity top) in
      let settled :=
        settle_accounts clock (buyer_of order top) (seller_of order top)
          (quantity top) (price top) (side_name order) accounts transactions in
      match_loop clock order' rest settled.1 settled.2
    else
      let settled :=
        settle_accounts clock (buyer_of order top) (seller_of order top)
          (quantity order) (price top) (side_name order) accounts transactions in
      (with_quantity order 0,
       emplace (with_quantity top (quantity top - quantity order)) rest,
       settled.1, settled.2)
  else (order, top :: rest, accounts, transactions).
Proof. reflexivity. Qed.

Lemma side_ok_match_loop clock k order side accounts transactions :
  side_ok k side ->
  side_ok k (match_loop clock order side accounts transactions).1.1.2.
Proof.
  revert order accounts transactions.
  induction side as [| top rest IH]; intros order accounts transactions Hok;
    [done |].
  rewrite match_loop_cons.
  destruct (keeps_walking order top); [| done].
  destruct (quantity top <=? quantity order); cbv zeta.
  - apply IH. by eapply side_ok_tail.
  - cbn [fst snd]. apply side_ok_emplace; [| by eapply side_ok_tail].
    destruct Hok as [Hon _]. by apply Forall_cons in Hon as [? _].
Qed.

Lemma book_ok_set_key k side book :
  book_ok book -> side_ok k side -> book_ok (set_key k side book).
Proof. intros [Hb Hs] Hside. destruct k; split; done. Qed.

Lemma book_ok_at_key k book : book_ok book -> side_ok k (at_key k book).
Proof. intros [Hb Hs]. by destruct k. Qed.

Lemma book_ok_empty : book_ok empty_book.
Proof. repeat split; constructor. Qed.

Lemma book_ok_add_order order book :
  ordered (price order) -> book_ok book -> book_ok (add_order order book).
Proof.
  intros Hprice Hok. unfold add_order.
  apply book_ok_set_key; [done |].
  apply side_ok_emplace; [done | by apply book_ok_at_key].
Qed.

Lemma book_ok_remove_order order_id book :
  book_ok book -> book_ok (remove_order order_id book).
Proof.
  intros Hok. unfold remove_order. destruct (order_id =? 0); [done |].
  apply book_ok_set_key; [done |].
  by apply side_ok_erase_first_id, book_ok_at_key.
Qed.

Lemma book_ok_match_order clock order book accounts transactions :
  book_ok book ->
  book_ok (match_order clock order book accounts transactions).1.1.2.
Proof.
  intros Hok. unfold match_order.
  pose proof (side_ok_match_loop clock (opposite_key order) order
                (at_key (opposite_key order) book) accounts transactions
                (book_ok_at_key _ _ Hok)) as Hside.
  destruct (match_loop _ _ _ _ _) as [[[order' side'] accounts'] transactions'].
  by apply book_ok_set_key.
Qed.

(** C6.  A book whose two sides are in price-time priority (buy side: price
    descending, equal prices by ascending timestamp; sell side: price
    ascending, equal prices by ascending timestamp) is so again after an
    insertion, after a removal by id, and after a run of [match_order],
    which erases what it fills and re-inserts a partly filled order. *)
Theorem price_time_priority_preserved book :
  book_ok book ->
  (forall order, ordered (price order) -> book_ok (add_order order book))
  /\ (forall order_id, book_ok (remove_order order_id book))
  /\ (forall clock order accounts transactions,
        book_ok (match_order clock order book accounts transactions).1.1.2).
Proof.
  intros Hok. split; [| split].
  - intros order Hprice. by apply book_ok_add_order.
  - intros order_id. by apply book_ok_remove_order.
  - intros clock order accounts transactions. by apply book_ok_match_order.
Qed.

(** [match_order] changes nothing of the aggressor but its quantity. *)
Lemma match_loop_order clock order side accounts transactions :
  let order' := (match_loop clock order side accounts transactions).1.1.1 in
  order' = with_quantity order (quantity order').
Proof.
  revert order accounts transactions.
  induction side as [| top rest IH]; intros order accounts transactions;
    [by destruct order |].
  rewrite match_loop_cons.
  destruct (keeps_walking order top); [| by destruct order].
  destruct (quantity top <=? quantity order); cbv zeta; [| done].
  specialize (IH (with_quantity order (quantity order - quantity top))
                (settle_accounts clock (buyer_of order top) (seller_of order top)
                   (quantity top) (price top) (side_name order)
                   accounts transactions).1
                (settle_accounts clock (buyer_of order top) (seller_of order top)
                   (quantity top) (price top) (side_name order)
                   accounts transactions).2).
  cbv zeta in IH. rewrite IH at 1. done.
Qed.

Lemma match_order_order clock order book accounts transactions :
  let order' := (match_order clock order book accounts transactions).1.1.1 in
  order' = with_quantity order (quantity order').
Proof.
  unfold match_order.
  pose proof (match_loop_order clock order (at_key (opposite_key order) book)
                accounts transactions) as Hloop.
  by destruct (match_loop _ _ _ _ _) as [[[order' side'] accounts'] transactions'].
Qed.

(** The engine keeps the book in price-time priority, message after
    message, as long as the prices of the orders are numbers. *)
Lemma book_ok_step clock data st st' :
  (forall order, data = inl order -> ordered (price order)) ->
  matching_engine_step clock data st = Continue st' ->
  book_ok (order_book st) -> book_ok (order_book st').
Proof.
  intros Hprice Hstep Hok. destruct data as [order | message];
    cbn [matching_engine_step] in Hstep.
  - destruct (is_allowed_order order (accounts st) (order_book st))
      as [allowed accounts1].
    destruct allowed; [| by injection Hstep as <-].
    pose proof (book_ok_match_order clock order (order_book st) accounts1
                  (transactions st) Hok) as Hmatch.
    pose proof (match_order_order clock order (order_book st) accounts1
                  (transactions st)) as Hsame.
    destruct (match_order _ _ _ _ _) as [[[order' book'] accounts2] transactions'].
    cbn [fst snd] in *. injection Hstep as <-. cbn [order_book].
    destruct (0 <? quantity order'); [| done].
    apply book_ok_add_order; [| done]. rewrite Hsame.
    cbn [with_quantity price]. by apply Hprice.
  - destruct (parse_input message) as [| token0 rest]; [by injection Hstep as <- |].
    destruct (bool_decide (token0 = "exit")); [done |].
    destruct (bool_decide (token0 = "cancel")); [| by injection Hstep as <-].
    destruct rest as [| token1 rest]; [done |].
    destruct (convert_string_to_int token1) as [order_id said].
    injection Hstep as <-. by apply book_ok_remove_order.
Qed.

(** ** The walk of [match_order] *)

Lemma set_key_at_key k book : set_key k (at_key k book) book = book.
Proof. by destruct k, book. Qed.

Lemma at_key_set_key k side book : at_key k (set_key k side book) = side.
Proof. by destruct k. Qed.

Lemma set_key_set_key k side side' book :
  set_key k side (set_key k side' book) = set_key k side book.
Proof. by destruct k. Qed.

Lemma keeps_walking_true order top :
  keeps_walking order top = true <->
  (if is_buy order then PrimFloat.leb (price top) (price order)
   else PrimFloat.leb (price order) (price top)) = true
  /\ 0 < quantity order
  /\ account_name top <> account_name order.
Proof.
  unfold keeps_walking.
  rewrite !andb_true_iff, Z.ltb_lt, bool_decide_eq_true.
  split; [intros [[? ?] ?] | intros (? & ? & ?)]; repeat split; congruence.
Qed.

Lemma match_order_empty clock order book accounts transactions :
  at_key (opposite_key order) book = [] ->
  match_order clock order book accounts transactions
  = (order, book, accounts, transactions).
Proof.
  intros Hside. unfold match_order. rewrite Hside. cbn [match_loop].
  by rewrite <- Hside, set_key_at_key.
Qed.

Lemma match_order_stop clock order book accounts transactions top rest :
  at_key (opposite_key order) book = top :: rest ->
  keeps_walking order top = false ->
  match_order clock order book accounts transactions
  = (order, book, accounts, transactions).
Proof.
  intros Hside Hstop. unfold match_order.
  rewrite Hside, match_loop_cons, Hstop.
  by rewrite <- Hside, set_key_at_key.
Qed.

Lemma match_order_full_fill clock order book accounts transactions top rest :
  at_key (opposite_key order) book = top :: rest ->
  keeps_walking order top = true ->
  quantity top <= quantity order ->
  let settled :=
    settle_accounts clock (buyer_of order top) (seller_of order top)
      (quantity top) (price top) (side_name order) accounts transactions in
  match_order clock order book accounts transactions
  = match_order clock (with_quantity order (quantity order - quantity top))
      (set_key (opposite_key order) rest book) settled.1 settled.2.
Proof.
  intros Hside Hwalk Hfull settled.
  unfold match_order at 1. rewrite Hside, match_loop_cons, Hwalk.
  assert ((quantity top <=? quantity order) = true) as -> by lia.
  cbv zeta. unfold match_order.
  change (opposite_key (with_quantity order (quantity order - quantity top)))
    with (opposite_key order).
  rewrite at_key_set_key. fold settled.
  destruct (match_loop _ _ _ _ _) as [[[order' side'] accounts'] transactions'].
  by rewrite set_key_set_key.
Qed.

Lemma match_order_partial_fill clock order book accounts transactions top rest :
  at_key (opposite_key order) book = top :: rest ->
  keeps_walking order top = true ->
  quantity order < quantity top ->
  let settled :=
    settle_accounts clock (buyer_of order top) (seller_of order top)
      (quantity order) (price top) (side_name order) accounts transactions in
  match_order clock order book accounts transactions
  = (with_quantity order 0,
     set_key (opposite_key order)
       (emplace (with_quantity top (quantity top - quantity order)) rest) book,
     settled.1, settled.2).
Proof.
  intros Hside Hwalk Hpart settled.
  unfold match_order. rewrite Hside, match_loop_cons, Hwalk.
  by assert ((quantity top <=? quantity order) = false) as -> by lia.
Qed.

(** The side [match_order] walks and the book it leaves, written out. *)
Lemma at_key_opposite order book :
  at_key (opposite_key order) book
  = if is_buy order then sell_side book else buy_side book.
Proof. unfold opposite_key. by destruct (is_buy order). Qed.

Lemma set_key_opposite order side book :
  set_key (opposite_key order) side book
  = if is_buy order then {| buy_side := buy_side book; sell_side := side |}
    else {| buy_side := side; sell_side := sell_side book |}.
Proof. unfold opposite_key. by destruct (is_buy order). Qed.

Lemma at_key_own_set_key_opposite order side book :
  at_key (key_of (is_buy order)) (set_key (opposite_key order) side book)
  = at_key (key_of (is_buy order)) book.
Proof. unfold opposite_key. by destruct (is_buy order). Qed.

(** The four updates of [settle_accounts] as two writes to the table. *)
Lemma settle_accounts_explicit clock payer payee units at_price side accts log :
  settle_accounts clock payer payee units at_price side accts log
  = (let cost := PrimFloat.mul (double_of_int units) at_price in
     let balance := fun name (a : Accounts) =>
       default {| usd_balance := 0%float; coin_balance := 0 |} (a !! name) in
     let bought :=
       <[payer := {| usd_balance :=
                       PrimFloat.sub (usd_balance (balance payer accts)) cost;
                     coin_balance := coin_balance (balance payer accts) + units |}]>
         accts in
     (<[payee := {| usd_balance :=
                      PrimFloat.add (usd_balance (balance payee bought)) cost;
                    coin_balance := coin_balance (balance payee bought) - units |}]>
        bought,
      log ++ [{| tx_id := Z.of_nat (length log) + 1;
                 tx_quantity := units;
                 tx_price := at_price;
                 tx_timestamp := clock (length log);
                 buyer := payer;
                 seller := payee;
                 aggressor := side |}])).
Proof.
  unfold settle_accounts, add_coin, sub_usd, sub_coin, add_usd, subscript,
    value_initialized.
  cbv zeta. f_equal.
  rewrite !lookup_insert_eq. cbn [default usd_balance coin_balance].
  rewrite !insert_insert_eq. reflexivity.
Qed.

(** Where [emplace] puts the order that replaces [top]: behind the resting
    orders that have the price and the timestamp of [top], before all the
    others. *)
Lemma comparator_before_precede k x y z :
  key_of (is_buy x) = k -> OrderComparator x y = true -> may_precede k y z ->
  OrderComparator x z = true.
Proof.
  unfold OrderComparator, may_precede, key_of. intros <-.
  destruct (is_buy x); rewrite !orb_true_iff, !andb_true_iff, !Z.ltb_lt;
    intros [Hxy | [Hxy Hts]] [Hyz | [Hyz Hts']].
  - left. by apply double_lt_trans with (price y).
  - left. apply double_eq_lt_trans with (price y); [by apply double_eq_sym | done].
  - left. apply double_lt_eq_trans with (price y); [done | by apply double_eq_sym].
  - right. split; [by apply double_eq_trans with (price y) | lia].
  - left. by apply double_lt_trans with (price y).
  - left. by apply double_lt_eq_trans with (price y).
  - left. by apply double_eq_lt_trans with (price y).
  - right. split; [by apply double_eq_trans with (price y) | lia].
Qed.

Lemma not_comparator_equal k x y :
  key_of (is_buy x) = k -> may_precede k x y -> OrderComparator x y = false ->
  PrimFloat.eqb (price y) (price x) = true /\ timestamp y = timestamp x.
Proof.
  unfold OrderComparator, may_precede, key_of. intros <-.
  destruct (is_buy x); rewrite orb_false_iff, andb_false_iff, Z.ltb_ge;
    intros [Hlt | [Heq Hts]] [Hnlt Hneq]; try congruence;
    (destruct Hneq as [Hneq | Hneq]; [congruence |]);
    (split; [by apply double_eq_sym | lia]).
Qed.

Lemma emplace_behind_equals k top rest units :
  side_ok k (top :: rest) ->
  exists equals others,
    rest = equals ++ others
    /\ emplace (with_quantity top units) rest
       = equals ++ with_quantity top units :: others
    /\ Forall (fun o => PrimFloat.eqb (price o) (price top) = true
                        /\ timestamp o = timestamp top) equals
    /\ Forall (fun o => OrderComparator (with_quantity top units) o = true) others.
Proof.
  intros [Hon Hsorted].
  apply Forall_cons in Hon as [[Hk _] _].
  apply StronglySorted_inv in Hsorted as [Hsorted Hfirst].
  set (x := with_quantity top units).
  assert (key_of (is_buy x) = k) as Hx by done.
  assert (Forall (may_precede k x) rest) as Hx_first by done.
  assert (price x = price top /\ timestamp x = timestamp top) as [Hprice Hts]
    by done.
  clearbody x. clear Hfirst Hk.
  induction Hsorted as [| y rest Hsorted IH Hy]; cbn [emplace].
  - exists [], []. by repeat split.
  - apply Forall_cons in Hx_first as [Hxy Hx_rest].
    destruct (OrderComparator x y) eqn:Hcmp.
    + exists [], (y :: rest). split; [done |]. split; [done |].
      split; [apply Forall_nil_2 |]. apply Forall_cons_2; [done |].
      eapply Forall_impl; [exact Hy |]. intros z Hyz.
      by apply (comparator_before_precede k x y z).
    + destruct (IH Hx_rest) as (equals & others & -> & Hplace & Hequals & Hothers).
      exists (y :: equals), others. split; [done |].
      split; [cbn [app]; by rewrite Hplace |]. split; [| done].
      apply Forall_cons_2; [| done].
      rewrite <- Hprice, <- Hts. by apply (not_comparator_equal k x y).
Qed.

(** The walk as a whole: it takes a prefix of the side, order by order, and
    at most one part of the order that follows. *)
Lemma with_quantity_same order : with_quantity order (quantity order) = order.
Proof. by destruct order. Qed.

Lemma filled_by_with_quantity order units top amount t :
  filled_by (with_quantity order units) top amount t <-> filled_by order top amount t.
Proof. done. Qed.

Lemma match_loop_prefix clock order side accts log :
  let r := match_loop clock order side accts log in
  exists filled remaining new,
    let left := quantity order - resting_quantity filled in
    side = filled ++ remaining
    /\ r.2 = log ++ new
    /\ Forall (fun top => keeps_walking (with_quantity order 1) top = true) filled
    /\ ((Forall2 (fun top t => filled_by order top (quantity top) t) filled new
         /\ r.1.1.2 = remaining
         /\ r.1.1.1 = with_quantity order left
         /\ (remaining = []
             \/ exists top rest,
                  remaining = top :: rest
                  /\ keeps_walking (with_quantity order left) top = false))
        \/ exists top rest new0 t,
             remaining = top :: rest
             /\ new = new0 ++ [t]
             /\ Forall2 (fun top t => filled_by order top (quantity top) t)
                  filled new0
             /\ keeps_walking (with_quantity order left) top = true
             /\ left < quantity top
             /\ filled_by order top left t
             /\ r.1.1.2 = emplace (with_quantity top (quantity top - left)) rest
             /\ r.1.1.1 = with_quantity order 0).
Proof.
  revert order accts log.
  induction side as [| top rest IH]; intros order accts log r; subst r.
  { exists [], [], []. cbv zeta. cbn [resting_quantity foldr match_loop fst snd].
    rewrite Z.sub_0_r, with_quantity_same.
    split; [done |]. split; [by rewrite app_nil_r |].
    split; [apply Forall_nil_2 |].
    left. split; [apply Forall2_nil_2 |]. split; [done |]. split; [done |].
    by left. }
  rewrite match_loop_cons.
  destruct (keeps_walking order top) eqn:Hwalk.
  2: { exists [], (top :: rest), []. cbv zeta.
       cbn [resting_quantity foldr fst snd].
       rewrite Z.sub_0_r, with_quantity_same.
       split; [done |]. split; [by rewrite app_nil_r |].
       split; [apply Forall_nil_2 |].
       left. split; [apply Forall2_nil_2 |]. split; [done |]. split; [done |].
       right. by exists top, rest. }
  destruct (Z.leb_spec (quantity top) (quantity order)) as [Hfull | Hpart];
    cbv zeta.
  - rewrite settle_accounts_explicit. cbv zeta. cbn [fst snd].
    match goal with
    | |- context [log ++ [?t]] => set (tx := t)
    end.
    assert (filled_by order top (quantity top) tx) as Htrade by done.
    clearbody tx.
    match goal with
    | |- context [match_loop clock ?o rest ?a ?l] =>
        destruct (IH o a l) as (filled & remaining & new & Hstep)
    end.
    cbv zeta in Hstep.
    destruct Hstep as (-> & Hlog & Hfilled & Hcases).
    exists (top :: filled), remaining, (tx :: new). cbv zeta.
    change (resting_quantity (top :: filled))
      with (quantity top + resting_quantity filled).
    replace (quantity order - (quantity top + resting_quantity filled))
      with (quantity order - quantity top - resting_quantity filled) by lia.
    split; [done |].
    split; [rewrite Hlog; by rewrite <- app_assoc |].
    split.
    { apply Forall_cons_2; [| exact Hfilled].
      apply keeps_walking_true in Hwalk as (Hcross & _ & Haccount).
      apply keeps_walking_true. cbn [with_quantity quantity]. by repeat split. }
    destruct Hcases as [(Hnew & Hside & Horder & Hstop)
                       | (top' & rest' & new0 & t & -> & -> & Hnew & Hgo & Hless
                          & Ht & Hside & Horder)].
    + left. split; [by apply Forall2_cons_2 |].
      split; [exact Hside |]. split; [exact Horder | exact Hstop].
    + right. exists top', rest', (tx :: new0), t.
      split; [done |]. split; [done |].
      split; [by apply Forall2_cons_2 |].
      split; [exact Hgo |]. split; [exact Hless |]. split; [exact Ht |].
      split; [exact Hside | exact Horder].
  - rewrite settle_accounts_explicit. cbv zeta. cbn [fst snd].
    exists [], (top :: rest). eexists [_]. cbv zeta.
    cbn [resting_quantity foldr]. rewrite Z.sub_0_r, with_quantity_same.
    split; [done |]. split; [done |]. split; [apply Forall_nil_2 |].
    right. eexists top, rest, [], _.
    split; [done |]. split; [done |]. split; [apply Forall2_nil_2 |].
    by repeat split.
Qed.

(** C1.  [match_order] walks the side opposite to the aggressor, the sell
    side for a buy order and the buy side for a sell order, from its first
    order on, which is the best in priority.  At the order [top] it goes on
    only while [top] crosses the limit of the aggressor ([top.price <=
    price] for a buy, [>=] for a sell), the aggressor has quantity left and
    the two accounts differ; otherwise, or when the side is empty, nothing
    changes.  If [top.quantity] is at most what is left, [top.quantity]
    units are settled at [top.price]: the buyer gets the units and pays
    [units * top.price], the seller gives the units and gets the amount,
    and one transaction is appended; [top] leaves the book, the aggressor
    has [top.quantity] less, and the walk goes on with the rest of the
    side.  Otherwise what is left is settled at [top.price], [top] is
    replaced by an order with its id, account, side, price and timestamp and
    the quantity [top.quantity - quantity], the aggressor is left with 0
    and the walk stops.
    As a whole, the walk trades with a prefix of the side, order by order
    and each for its whole quantity, and then at most with a part of the
    order that follows; the own side of the aggressor is left alone.
    The order that replaces [top] is put in again by [emplace]: on a book in
    price-time priority it comes behind the resting orders that have the
    price and the timestamp of [top], if there are any, and before every
    other order, so it is first again when no other order shares both. *)
Theorem match_order_walk clock order book accts log :
  let walked := fun b : OrderBook =>
    if is_buy order then sell_side b else buy_side b in
  let own := fun b : OrderBook =>
    if is_buy order then buy_side b else sell_side b in
  let with_walked := fun side =>
    if is_buy order then {| buy_side := buy_side book; sell_side := side |}
    else {| buy_side := side; sell_side := sell_side book |} in
  let crosses := fun top =>
    if is_buy order then PrimFloat.leb (price top) (price order)
    else PrimFloat.leb (price order) (price top) in
  let payer := fun top =>
    if is_buy order then account_name order else account_name top in
  let payee := fun top =>
    if is_buy order then account_name top else account_name order in
  let as_double := fun z =>
    if z <? 0 then PrimFloat.opp (PrimFloat.of_uint63 (Uint63.of_Z (- z)))
    else PrimFloat.of_uint63 (Uint63.of_Z z) in
  let balance := fun name (a : Accounts) =>
    default {| usd_balance := 0%float; coin_balance := 0 |} (a !! name) in
  let settled := fun top units =>
    let cost := PrimFloat.mul (as_double units) (price top) in
    let bought :=
      <[payer top :=
          {| usd_balance :=
               PrimFloat.sub (usd_balance (balance (payer top) accts)) cost;
             coin_balance := coin_balance (balance (payer top) accts) + units |}]>
        accts in
    (<[payee top :=
         {| usd_balance :=
              PrimFloat.add (usd_balance (balance (payee top) bought)) cost;
            coin_balance := coin_balance (balance (payee top) bought) - units |}]>
       bought,
     log ++ [{| tx_id := Z.of_nat (length log) + 1;
                tx_quantity := units;
                tx_price := price top;
                tx_timestamp := clock (length log);
                buyer := payer top;
                seller := payee top;
                aggressor := if is_buy order then "buy" else "sell" |}]) in
  let reduced := fun top units =>
    {| id := id top; account_name := account_name top; is_buy := is_buy top;
       quantity := quantity top - units; price := price top;
       timestamp := timestamp top |} in
  let left_with := fun units =>
    {| id := id order; account_name := account_name order;
       is_buy := is_buy order; quantity := units; price := price order;
       timestamp := timestamp order |} in
  let result := match_order clock order book accts log in
  (walked book = [] -> result = (order, book, accts, log))
  /\ (forall top rest,
        walked book = top :: rest ->
        (~ (crosses top = true /\ 0 < quantity order
            /\ account_name top <> account_name order) ->
         result = (order, book, accts, log))
        /\ (crosses top = true -> 0 < quantity order ->
            account_name top <> account_name order ->
            quantity top <= quantity order ->
            result
            = match_order clock (left_with (quantity order - quantity top))
                (with_walked rest)
                (settled top (quantity top)).1 (settled top (quantity top)).2)
        /\ (crosses top = true -> 0 < quantity order ->
            account_name top <> account_name order ->
            quantity order < quantity top ->
            result
            = (left_with 0,
               with_walked (emplace (reduced top (quantity order)) rest),
               (settled top (quantity order)).1,
               (settled top (quantity order)).2)))
  /\ (exists filled remaining new,
        let left := quantity order - resting_quantity filled in
        walked book = filled ++ remaining
        /\ result.2 = log ++ new
        /\ own result.1.1.2 = own book
        /\ Forall (fun top => crosses top = true
                              /\ account_name top <> account_name order) filled
        /\ ((Forall2 (fun top t => filled_by order top (quantity top) t)
               filled new
             /\ walked result.1.1.2 = remaining
             /\ result.1.1.1 = left_with left
             /\ (remaining = []
                 \/ exists top rest,
                      remaining = top :: rest
                      /\ ~ (crosses top = true /\ 0 < left
                            /\ account_name top <> account_name order)))
            \/ exists top rest new0 t,
                 remaining = top :: rest
                 /\ new = new0 ++ [t]
                 /\ Forall2 (fun top t => filled_by order top (quantity top) t)
                      filled new0
                 /\ crosses top = true
                 /\ account_name top <> account_name order
                 /\ 0 < left < quantity top
                 /\ filled_by order top left t
                 /\ walked result.1.1.2 = emplace (reduced top left) rest
                 /\ result.1.1.1 = left_with 0))
  /\ (book_ok book ->
      forall top rest units,
        walked book = top :: rest ->
        exists equals others,
          rest = equals ++ others
          /\ emplace (reduced top units) rest
             = equals ++ reduced top units :: others
          /\ Forall (fun o => PrimFloat.eqb (price o) (price top) = true
                              /\ timestamp o = timestamp top) equals
          /\ Forall (fun o =>
                       (if is_buy order
                        then PrimFloat.ltb (price top) (price o)
                        else PrimFloat.ltb (price o) (price top)) = true
                       \/ (PrimFloat.eqb (price top) (price o) = true
                           /\ timestamp top < timestamp o)) others).
Proof.
  intros walked own with_walked crosses payer payee as_double balance settled
    reduced left_with result.
  assert (at_key (opposite_key order) book = walked book) as Hat
    by apply at_key_opposite.
  assert (forall side, set_key (opposite_key order) side book = with_walked side)
    as Hset by (intros side; apply set_key_opposite).
  assert (forall top units,
            settle_accounts clock (buyer_of order top) (seller_of order top)
              units (price top) (side_name order) accts log
            = settled top units) as Hsettle
    by (intros top units; apply settle_accounts_explicit).
  assert (forall top,
            keeps_walking order top = true
            <-> crosses top = true /\ 0 < quantity order
                /\ account_name top <> account_name order) as Hwalk
    by (intros top; apply keeps_walking_true).
  split; [| split; [| split]].
  - rewrite <- Hat. apply match_order_empty.
  - intros top rest Hside. rewrite <- Hat in Hside. split; [| split].
    + intros Hstop. apply (match_order_stop _ _ _ _ _ top rest Hside).
      apply not_true_iff_false. by rewrite Hwalk.
    + intros Hcross Hleft Haccount Hfull. subst result.
      rewrite (match_order_full_fill _ _ _ _ _ top rest Hside)
        by (by rewrite ?Hwalk).
      cbv zeta. by rewrite Hsettle, Hset.
    + intros Hcross Hleft Haccount Hpart. subst result.
      rewrite (match_order_partial_fill _ _ _ _ _ top rest Hside)
        by (by rewrite ?Hwalk).
      cbv zeta. by rewrite Hsettle, Hset.
  - subst result. unfold match_order.
    pose proof (match_loop_prefix clock order (at_key (opposite_key order) book)
                  accts log) as Hprefix.
    cbv zeta in Hprefix.
    destruct (match_loop _ _ _ _ _) as [[[order' side'] accts'] log'].
    cbn [fst snd] in *.
    destruct Hprefix as (filled & remaining & new & Hside & Hlog & Hfilled & Hcases).
    exists filled, remaining, new. cbv zeta.
    assert (walked (set_key (opposite_key order) side' book) = side') as Hwalked.
    { subst walked. cbv beta. rewrite <- at_key_opposite. apply at_key_set_key. }
    split; [by rewrite <- Hat |]. split; [done |].
    split.
    { subst own. cbv beta.
      pose proof (at_key_own_set_key_opposite order side' book) as Hown.
      unfold key_of in Hown. by destruct (is_buy order). }
    split.
    { eapply Forall_impl; [exact Hfilled |]. intros top Htop.
      apply keeps_walking_true in Htop as (Hcross & _ & Haccount). by split. }
    rewrite Hwalked.
    destruct Hcases as [(Hnew & -> & -> & Hstop)
                       | (top & rest & new0 & t & -> & -> & Hnew & Hgo & Hless
                          & Ht & -> & ->)].
    + left. split; [done |]. split; [done |]. split; [done |].
      destruct Hstop as [-> | (top & rest & -> & Hstop)]; [by left |].
      right. exists top, rest. split; [done |].
      intros Hgo. apply not_true_iff_false in Hstop. apply Hstop.
      by apply keeps_walking_true.
    + right. exists top, rest, new0, t.
      apply keeps_walking_true in Hgo as (Hcross & Hleft & Haccount).
      cbn [with_quantity quantity] in Hleft.
      split; [done |]. split; [done |]. split; [done |].
      split; [exact Hcross |]. split; [exact Haccount |]. split; [lia |].
      split; [exact Ht |]. split; reflexivity.
  - intros Hbook top rest units Hside. rewrite <- Hat in Hside.
    pose proof (book_ok_at_key (opposite_key order) book Hbook) as Hok.
    rewrite Hside in Hok.
    destruct (emplace_behind_equals _ top rest (quantity top - units) Hok)
      as (equals & others & Hrest & Hplace & Hequals & Hothers).
    exists equals, others. split; [done |]. split; [exact Hplace |].
    split; [done |].
    destruct Hok as [Hon _]. apply Forall_cons in Hon as [[Hk _] _].
    eapply Forall_impl; [exact Hothers |]. intros o.
    unfold OrderComparator. cbn [with_quantity is_buy price timestamp].
    unfold key_of, opposite_key in Hk.
    destruct (is_buy top), (is_buy order); try discriminate Hk;
      rewrite orb_true_iff, andb_true_iff, Z.ltb_lt; tauto.
Qed.

(** ** Settlement *)

Lemma subscript_insert_eq name a (accounts : Accounts) :
  subscript name (<[name := a]> accounts) = a.
Proof. unfold subscript. by rewrite lookup_insert_eq. Qed.

Lemma subscript_insert_ne name name' a (accounts : Accounts) :
  name <> name' -> subscript name' (<[name := a]> accounts) = subscript name' accounts.
Proof. intros Hne. unfold subscript. by rewrite lookup_insert_ne. Qed.

Section Totals.

Context {A : Type} (add : A -> A -> A) (zero : A) (measure : Account_Details -> A).
Hypothesis add_comm : forall x y, add x y = add y x.
Hypothesis add_assoc : forall x y z, add x (add y z) = add (add x y) z.
Hypothesis add_fresh : forall x, add (measure value_initialized) x = x.

Lemma total_insert_fresh name a (accounts : Accounts) :
  accounts !! name = None ->
  total add zero measure (<[name := a]> accounts)
  = add (measure a) (total add zero measure accounts).
Proof.
  intros Hfresh. unfold total.
  apply (map_fold_insert_L (fun _ a s => add (measure a) s)); [| done].
  intros j1 j2 z1 z2 y _ _ _.
  by rewrite !add_assoc, (add_comm (measure z1)).
Qed.

(** Writing [a] at [name] replaces in the sum what [accounts[name]] read. *)
Lemma total_insert name a (accounts : Accounts) :
  add (measure (subscript name accounts))
      (total add zero measure (<[name := a]> accounts))
  = add (measure a) (total add zero measure accounts).
Proof.
  unfold subscript. destruct (accounts !! name) as [a0 |] eqn:Hname; simpl.
  - rewrite <- (insert_delete_id accounts name a0 Hname) at 2.
    rewrite <- (insert_delete_eq accounts).
    rewrite !total_insert_fresh by apply lookup_delete_eq.
    by rewrite !add_assoc, (add_comm (measure a0)).
  - by rewrite total_insert_fresh, add_fresh.
Qed.

End Totals.

Lemma total_coin_insert name a (accounts : Accounts) :
  total_coin (<[name := a]> accounts)
  = total_coin accounts + coin_balance a - coin_balance (subscript name accounts).
Proof.
  unfold total_coin.
  pose proof (total_insert Z.add 0 coin_balance Z.add_comm Z.add_assoc
                Z.add_0_l name a accounts).
  lia.
Qed.

Lemma total_usd_insert name a (accounts : Accounts) :
  (total_usd (<[name := a]> accounts)
   = total_usd accounts + usd_value a - usd_value (subscript name accounts))%Qc.
Proof.
  unfold total_usd.
  pose proof (total_insert Qcplus 0%Qc usd_value Qcplus_comm Qcplus_assoc
                Qcplus_0_l name a accounts) as H.
  set (t := total Qcplus 0%Qc usd_value (<[name := a]> accounts)) in *.
  set (t0 := total Qcplus 0%Qc usd_value accounts) in *.
  transitivity (usd_value (subscript name accounts) + t
                - usd_value (subscript name accounts))%Qc; [ring |].
  rewrite H. ring.
Qed.

Lemma total_coin_settle_accounts clock buyer seller quantity price aggressor
    accounts transactions :
  total_coin (settle_accounts clock buyer seller quantity price aggressor
                accounts transactions).1
  = total_coin accounts.
Proof.
  unfold settle_accounts, add_usd, sub_coin, sub_usd, add_coin. cbn [fst].
  repeat (rewrite total_coin_insert; cbn [coin_balance]).
  destruct (decide (buyer = seller)) as [-> | Hne].
  - rewrite !subscript_insert_eq. cbn [coin_balance]. lia.
  - rewrite !subscript_insert_eq. cbn [coin_balance].
    rewrite !subscript_insert_ne by done. lia.
Qed.

Lemma total_coin_settle_all clock trades accounts transactions :
  total_coin (settle_all clock trades accounts transactions).1 = total_coin accounts.
Proof.
  unfold settle_all. revert accounts transactions.
  induction trades as [| [[[[buyer seller] quantity] price] aggressor] trades IH];
    intros accounts transactions; cbn [fold_left fst snd]; [done |].
  destruct (settle_accounts _ _ _ _ _ _ _ _) as [accounts' transactions'] eqn:Hs.
  rewrite IH. cbn [fst snd].
  change accounts' with (accounts', transactions').1. rewrite <- Hs.
  apply total_coin_settle_accounts.
Qed.

Lemma length_settle_all clock trades accounts transactions :
  length (settle_all clock trades accounts transactions).2
  = (length transactions + length trades)%nat.
Proof.
  unfold settle_all. revert accounts transactions.
  induction trades as [| [[[[buyer seller] quantity] price] aggressor] trades IH];
    intros accounts transactions; cbn [fold_left fst snd length]; [lia |].
  destruct (settle_accounts _ _ _ _ _ _ _ _) as [accounts' transactions'] eqn:Hs.
  rewrite IH. unfold settle_accounts in Hs. injection Hs as _ <-.
  rewrite length_app. simpl. lia.
Qed.

Lemma total_usd_settle_accounts clock payer payee units at_price side
    accounts transactions :
  let amount := PrimFloat.mul (double_of_int units) at_price in
  payer <> payee ->
  exact_value (PrimFloat.sub (usd_balance (subscript payer accounts)) amount)
  = (exact_value (usd_balance (subscript payer accounts)) - exact_value amount)%Qc ->
  exact_value (PrimFloat.add (usd_balance (subscript payee accounts)) amount)
  = (exact_value (usd_balance (subscript payee accounts)) + exact_value amount)%Qc ->
  total_usd (settle_accounts clock payer payee units at_price side
               accounts transactions).1
  = total_usd accounts.
Proof.
  intros amount Hne Hsub Hadd.
  unfold settle_accounts, add_usd, sub_coin, sub_usd, add_coin. cbn [fst].
  fold amount.
  repeat (rewrite total_usd_insert; unfold usd_value; cbn [usd_balance]).
  rewrite !subscript_insert_eq. cbn [usd_balance].
  rewrite !subscript_insert_ne by done.
  rewrite Hsub, Hadd. ring.
Qed.

(** C3, as the code has it.  A settlement of [units] at [at_price] adds
    [units] to the asset balance of the buyer and takes [units] from that of
    the seller; it takes the double [units * at_price] from the USD balance
    of the buyer and adds it to that of the seller, each in double
    arithmetic; no other account changes; and it appends one transaction,
    whose id is the length of the log plus one.  The sum of the asset
    balances is the same after any sequence of settlements, which makes the
    log longer by one record each; the exact sum of the USD balances is the
    same after a settlement whose subtraction and addition are exact. *)
Theorem settle_accounts_effect clock payer payee units at_price side
    accounts transactions :
  let amount := PrimFloat.mul (double_of_int units) at_price in
  let before_payer := subscript payer accounts in
  let before_payee := subscript payee accounts in
  let settled :=
    settle_accounts clock payer payee units at_price side accounts transactions in
  (payer <> payee ->
     subscript payer settled.1
     = {| usd_balance := PrimFloat.sub (usd_balance before_payer) amount;
          coin_balance := coin_balance before_payer + units |}
     /\ subscript payee settled.1
        = {| usd_balance := PrimFloat.add (usd_balance before_payee) amount;
             coin_balance := coin_balance before_payee - units |}
     /\ (forall name, name <> payer -> name <> payee ->
         settled.1 !! name = accounts !! name)
     /\ (exact_value (PrimFloat.sub (usd_balance before_payer) amount)
         = (exact_value (usd_balance before_payer) - exact_value amount)%Qc ->
         exact_value (PrimFloat.add (usd_balance before_payee) amount)
         = (exact_value (usd_balance before_payee) + exact_value amount)%Qc ->
         total_usd settled.1 = total_usd accounts))
  /\ (exists t,
        settled.2 = transactions ++ [t]
        /\ tx_id t = Z.of_nat (length transactions) + 1
        /\ tx_quantity t = units /\ tx_price t = at_price
        /\ buyer t = payer /\ seller t = payee /\ aggressor t = side)
  /\ total_coin settled.1 = total_coin accounts
  /\ (forall trades,
        total_coin (settle_all clock trades accounts transactions).1
        = total_coin accounts
        /\ length (settle_all clock trades accounts transactions).2
           = (length transactions + length trades)%nat).
Proof.
  intros amount before_payer before_payee settled.
  split; [| split; [| split]].
  - intros Hne. split; [| split; [| split]].
    + subst settled. unfold settle_accounts, add_usd, sub_coin, sub_usd, add_coin.
      cbn [fst]. rewrite !subscript_insert_ne by done.
      by rewrite !subscript_insert_eq.
    + subst settled. unfold settle_accounts, add_usd, sub_coin, sub_usd, add_coin.
      cbn [fst]. rewrite !subscript_insert_eq. cbn [usd_balance coin_balance].
      by rewrite !subscript_insert_ne by done.
    + intros name Hpayer Hpayee. subst settled.
      unfold settle_accounts, add_usd, sub_coin, sub_usd, add_coin.
      cbn [fst]. by rewrite !lookup_insert_ne by done.
    + intros Hsub Hadd. by apply total_usd_settle_accounts.
  - eexists. split; [reflexivity |]. by cbn.
  - apply total_coin_settle_accounts.
  - intros trades. split;
      [apply total_coin_settle_all | apply length_settle_all].
Qed.

(** C3 as it is written fails: with 1e16 USD, a buyer who pays 1 USD keeps
    1e16 USD, since 1e16 - 1 is not a double and rounds back to 1e16, while
    the seller receives the 1 USD; the sum of the USD balances has grown. *)
Lemma settle_accounts_usd_not_conserved :
  let settled :=
    settle_accounts example_clock "alice" "bob" 1 1%float "buy" rich_accounts [] in
  usd_balance (subscript "alice" settled.1)
  = usd_balance (subscript "alice" rich_accounts)
  /\ PrimFloat.mul (double_of_int 1) 1%float = 1%float
  /\ total_usd settled.1 <> total_usd rich_accounts.
Proof.
  cbv zeta. split; [by vm_compute | split; [by vm_compute |]].
  intros H. apply (f_equal (fun x => Qnum (this x))) in H.
  vm_compute in H. discriminate H.
Qed.

(** The engine neither makes nor loses asset units: not in [match_order],
    and not where [is_allowed_order] adds an account to the table. *)
Lemma total_coin_touch name (accts : Accounts) :
  total_coin (touch name accts) = total_coin accts.
Proof.
  unfold touch. destruct (accts !! name) eqn:Hname; [done |].
  unfold total_coin.
  rewrite (total_insert_fresh Z.add 0 coin_balance Z.add_comm Z.add_assoc) by done.
  done.
Qed.

Lemma total_coin_match_loop clock order side accounts transactions :
  total_coin (match_loop clock order side accounts transactions).1.2
  = total_coin accounts.
Proof.
  revert order accounts transactions.
  induction side as [| top rest IH]; intros order accounts transactions; [done |].
  rewrite match_loop_cons.
  destruct (keeps_walking order top); [| done].
  destruct (quantity top <=? quantity order); cbv zeta.
  - rewrite IH. apply total_coin_settle_accounts.
  - apply total_coin_settle_accounts.
Qed.

Lemma total_coin_match_order clock order book accounts transactions :
  total_coin (match_order clock order book accounts transactions).1.2
  = total_coin accounts.
Proof.
  unfold match_order.
  pose proof (total_coin_match_loop clock order
                (at_key (opposite_key order) book) accounts transactions).
  by destruct (match_loop _ _ _ _ _) as [[[order' side'] accounts'] transactions'].
Qed.

Lemma is_allowed_order_accounts order accts book :
  (is_allowed_order order accts book).2 = touch (account_name order) accts.
Proof. unfold is_allowed_order. by destruct (is_buy order). Qed.

Lemma total_coin_step clock data st st' :
  matching_engine_step clock data st = Continue st' ->
  total_coin (accounts st') = total_coin (accounts st).
Proof.
  intros Hstep. destruct data as [order | message];
    cbn [matching_engine_step] in Hstep.
  - pose proof (is_allowed_order_accounts order (accounts st) (order_book st))
      as Htouch.
    destruct (is_allowed_order order (accounts st) (order_book st))
      as [allowed accounts1].
    cbn [snd] in Htouch. subst accounts1.
    destruct allowed.
    + pose proof (total_coin_match_order clock order (order_book st)
                    (touch (account_name order) (accounts st))
                    (transactions st)) as Hmatch.
      destruct (match_order _ _ _ _ _)
        as [[[order' book'] accounts2] transactions'].
      injection Hstep as <-. cbn [accounts fst snd] in *.
      by rewrite Hmatch, total_coin_touch.
    + injection Hstep as <-. apply total_coin_touch.
  - destruct (parse_input message) as [| token0 rest]; [by injection Hstep as <- |].
    destruct (bool_decide (token0 = "exit")); [done |].
    destruct (bool_decide (token0 = "cancel")); [| by injection Hstep as <-].
    destruct rest as [| token1 rest]; [done |].
    destruct (convert_string_to_int token1) as [order_id said].
    by injection Hstep as <-.
Qed.

(** ** No trade of an account with itself *)

Lemma no_self_trade_match_loop clock order side accounts transactions :
  Forall no_self_trade transactions ->
  Forall no_self_trade (match_loop clock order side accounts transactions).2.
Proof.
  revert order accounts transactions.
  induction side as [| top rest IH]; intros order accounts transactions Hlog;
    [done |].
  rewrite match_loop_cons.
  destruct (keeps_walking order top) eqn:Hwalk; [| done].
  apply keeps_walking_true in Hwalk as (_ & _ & Hne).
  assert (buyer_of order top <> seller_of order top) as Hparties
    by (unfold buyer_of, seller_of; destruct (is_buy order); congruence).
  destruct (quantity top <=? quantity order); cbv zeta.
  - apply IH. unfold settle_accounts. cbn [snd].
    apply Forall_app. split; [done |]. by constructor.
  - unfold settle_accounts. cbn [snd].
    apply Forall_app. split; [done |]. by constructor.
Qed.

Lemma no_self_trade_match_order clock order book accounts transactions :
  Forall no_self_trade transactions ->
  Forall no_self_trade (match_order clock order book accounts transactions).2.
Proof.
  intros Hlog. unfold match_order.
  pose proof (no_self_trade_match_loop clock order
                (at_key (opposite_key order) book) accounts transactions Hlog).
  by destruct (match_loop _ _ _ _ _) as [[[order' side'] accounts'] transactions'].
Qed.

Lemma no_self_trade_step clock data st st' :
  matching_engine_step clock data st = Continue st' ->
  Forall no_self_trade (transactions st) ->
  Forall no_self_trade (transactions st').
Proof.
  intros Hstep Hlog. destruct data as [order | message]; simpl in Hstep.
  - destruct (is_allowed_order order (accounts st) (order_book st))
      as [allowed accounts1].
    destruct allowed; [| by injection Hstep as <-].
    pose proof (no_self_trade_match_order clock order (order_book st) accounts1
                  (transactions st) Hlog) as Hmatch.
    destruct (match_order _ _ _ _ _) as [[[order' book'] accounts2] transactions'].
    by injection Hstep as <-.
  - destruct (parse_input message) as [| token0 rest]; [by injection Hstep as <- |].
    destruct (bool_decide (token0 = "exit")); [done |].
    destruct (bool_decide (token0 = "cancel")); [| by injection Hstep as <-].
    destruct rest as [| token1 rest]; [done |].
    destruct (convert_string_to_int token1) as [order_id said].
    by injection Hstep as <-.
Qed.

Lemma match_order_own_order_first clock order book accounts transactions top rest :
  at_key (opposite_key order) book = top :: rest ->
  account_name top = account_name order ->
  match_order clock order book accounts transactions
  = (order, book, accounts, transactions).
Proof.
  intros Hside Hown. apply (match_order_stop _ _ _ _ _ top rest Hside).
  apply not_true_iff_false. intros Hwalk.
  by apply keeps_walking_true in Hwalk as (_ & _ & Hne).
Qed.

(** C4.  The log of a reachable state holds no transaction whose buyer is
    its seller.  And when the first order of the opposite side, the best in
    priority, is of the account of the aggressor, [match_order] changes
    nothing: it stops there, whatever stands behind that order. *)
Theorem no_self_trade_and_halt :
  (forall st, reachable st -> Forall no_self_trade (transactions st))
  /\ (forall clock order book accounts transactions top rest,
        at_key (opposite_key order) book = top :: rest ->
        account_name top = account_name order ->
        match_order clock order book accounts transactions
        = (order, book, accounts, transactions)).
Proof.
  split.
  - intros st Hreach.
    induction Hreach as [accounts0 book0 | clock data st st' _ IH Hstep | st accounts' _ IH];
      cbn [transactions]; eauto using no_self_trade_step.
  - apply match_order_own_order_first.
Qed.

(** ** The admission gate *)

Lemma find_None_Forall {A} (p : A -> bool) (l : list A) :
  find p l = None <-> Forall (fun x => p x = false) l.
Proof.
  induction l as [| x l IH]; simpl.
  - split; [constructor | done].
  - rewrite Forall_cons. destruct (p x); [| tauto].
    split; [done | intros [? _]; done].
Qed.

Lemma no_order_found order side :
  match find (same_account_and_price order) side with
  | Some _ => false
  | None => true
  end = true
  <-> Forall (fun o => ~ (account_name o = account_name order
                        /\ PrimFloat.eqb (price o) (price order) = true)) side.
Proof.
  transitivity (find (same_account_and_price order) side = None).
  - destruct (find _ side); split; done.
  - rewrite find_None_Forall. apply Forall_iff. intros o.
    unfold same_account_and_price.
    rewrite andb_false_iff, bool_decide_eq_false.
    destruct (PrimFloat.eqb (price o) (price order)); intuition congruence.
Qed.

Lemma rejected_order_step clock order st :
  (is_allowed_order order (accounts st) (order_book st)).1 = false ->
  matching_engine_step clock (inl order) st
  = Continue {| accounts := touch (account_name order) (accounts st);
                transactions := transactions st;
                order_book := order_book st;
                cout := cout st ++ ["Order rejected"];
                cerr := cerr st |}.
Proof.
  intros Hno. cbn [matching_engine_step].
  pose proof (is_allowed_order_accounts order (accounts st) (order_book st)) as Ha.
  destruct (is_allowed_order order (accounts st) (order_book st))
    as [allowed accounts1].
  cbn [fst snd] in *. by subst.
Qed.

(** C5, as the code has it.  [is_allowed_order] admits a buy order exactly
    when the product [quantity * price], computed in double arithmetic (the
    quantity converted to a double, the product rounded to the nearest
    double), is at most the USD balance of its account and no order of that
    account rests on the sell side at that very price, and a sell order
    exactly when the asset balance is at least [quantity] and no order of
    the account rests on the buy side at that price.  The balances are
    those the account table holds for the account, 0 when it holds none.
    On an order it does not admit, the engine prints the rejection and
    leaves the book and the log as they are: the order is neither matched
    nor inserted; no balance changes. *)
Theorem is_allowed_order_iff order accts book :
  let account :=
    default {| usd_balance := 0%float; coin_balance := 0 |}
            (accts !! account_name order) in
  let as_double := fun z =>
    if z <? 0 then PrimFloat.opp (PrimFloat.of_uint63 (Uint63.of_Z (- z)))
    else PrimFloat.of_uint63 (Uint63.of_Z z) in
  let cost := PrimFloat.mul (as_double (quantity order)) (price order) in
  let no_order_at_price side :=
    Forall (fun o => ~ (account_name o = account_name order
                        /\ PrimFloat.eqb (price o) (price order) = true)) side in
  ((is_allowed_order order accts book).1 = true <->
   if is_buy order
   then PrimFloat.leb cost (usd_balance account) = true
        /\ no_order_at_price (sell_side book)
   else quantity order <= coin_balance account
        /\ no_order_at_price (buy_side book))
  /\ forall clock st,
      accounts st = accts -> order_book st = book ->
      (is_allowed_order order accts book).1 = false ->
      exists st',
        matching_engine_step clock (inl order) st = Continue st'
        /\ order_book st' = book
        /\ transactions st' = transactions st
        /\ cout st' = cout st ++ ["Order rejected"]
        /\ forall name,
             default {| usd_balance := 0%float; coin_balance := 0 |}
                     (accounts st' !! name)
             = default {| usd_balance := 0%float; coin_balance := 0 |}
                       (accts !! name).
Proof.
  intros account as_double cost no_order_at_price. split.
  - unfold is_allowed_order, subscript, value_initialized.
    destruct (is_buy order); cbn [fst at_key];
      rewrite andb_true_iff, no_order_found; [done |].
    by rewrite Z.leb_le.
  - intros clock st <- <- Hno. eexists. split; [by apply rejected_order_step |].
    cbn [order_book transactions cout accounts].
    split; [done |]. split; [done |]. split; [done |].
    intros name. unfold touch.
    destruct (accounts st !! account_name order) eqn:Haccount; [done |].
    destruct (decide (name = account_name order)) as [-> | Hne].
    + by rewrite lookup_insert_eq, Haccount.
    + by rewrite lookup_insert_ne.
Qed.

(** C5 as it is written fails.  Dave has 1 USD and sends a buy order of 10
    at the price 0.1.  The double 0.1 is a little more than one tenth, so
    the cost of the order, [quantity * price], is more than 1 USD; but the
    double product rounds to 1, the gate finds [1 >= 1] and admits the
    order, and the engine puts it into the book. *)
Lemma buy_admitted_above_balance :
  dave_accounts !! "dave" = Some {| usd_balance := 1%float; coin_balance := 0 |}
  /\ (inject_Z (quantity dave_buys_10) * Q_of_double (price dave_buys_10)
      > Q_of_double 1%float)%Q
  /\ (is_allowed_order dave_buys_10 dave_accounts empty_book).1 = true
  /\ exists st',
       matching_engine_step example_clock (inl dave_buys_10) dave_state
       = Continue st'
       /\ buy_side (order_book st') = [dave_buys_10]
       /\ cout st' = [].
Proof.
  split; [by vm_compute |]. split; [by vm_compute |]. split; [by vm_compute |].
  eexists. split; [vm_compute; reflexivity |]. by split.
Qed.

(** ** Order ids *)

Lemma max_abs_id_cons o side :
  max_abs_id (o :: side) = Z.max (Z.abs (id o)) (max_abs_id side).
Proof. reflexivity. Qed.

Lemma fold_left_max_abs_id side init :
  0 <= init ->
  fold_left (fun last order => Z.max last (Z.abs (id order))) side init
  = Z.max init (max_abs_id side).
Proof.
  revert init. induction side as [| o side IH]; intros init Hinit.
  - change (max_abs_id []) with 0. cbn [fold_left]. lia.
  - cbn [fold_left]. rewrite IH, max_abs_id_cons by lia. lia.
Qed.

Lemma max_abs_id_nonneg side : 0 <= max_abs_id side.
Proof.
  induction side as [| o side IH]; [done |]. rewrite max_abs_id_cons. lia.
Qed.

Lemma max_abs_id_bound side o : o ∈ side -> Z.abs (id o) <= max_abs_id side.
Proof.
  induction 1 as [o side | o o' side _ IH]; rewrite max_abs_id_cons; lia.
Qed.

Lemma max_abs_id_attained side :
  side <> [] -> exists o, o ∈ side /\ Z.abs (id o) = max_abs_id side.
Proof.
  induction side as [| o side IH]; [done |]. intros _.
  rewrite max_abs_id_cons. destruct side as [| o' side'].
  - exists o. split; [apply list_elem_of_here |].
    change (max_abs_id []) with 0. lia.
  - destruct IH as (o1 & Hin & Hmax); [done |].
    destruct (Z.max_spec (Z.abs (id o)) (max_abs_id (o' :: side')))
      as [[_ ->] | [_ ->]].
    + exists o1. split; [by apply list_elem_of_further | done].
    + exists o. split; [apply list_elem_of_here | done].
Qed.

Lemma max_abs_id_Permutation side side' :
  side ≡ₚ side' -> max_abs_id side = max_abs_id side'.
Proof.
  induction 1; rewrite ?max_abs_id_cons; [done | lia | lia | congruence].
Qed.

Lemma get_last_order_id_formula isBuy book :
  get_last_order_id isBuy book
  = (if isBuy then 1 else -1) * (max_abs_id (at_key (key_of isBuy) book) + 1).
Proof.
  unfold get_last_order_id. rewrite fold_left_max_abs_id by done.
  pose proof (max_abs_id_nonneg (at_key (key_of isBuy) book)).
  rewrite Z.max_r by done.
  destruct (max_abs_id (at_key (key_of isBuy) book) =? 0) eqn:Hzero; [| done].
  apply Z.eqb_eq in Hzero. by rewrite Hzero.
Qed.

Lemma at_key_add_order order book :
  at_key (key_of (is_buy order)) (add_order order book)
  = emplace order (at_key (key_of (is_buy order)) book).
Proof. unfold add_order. apply at_key_set_key. Qed.

(** C7, as the code has it.  [get_last_order_id] returns [sign * (max + 1)],
    where [sign] is 1 for the buy side and -1 for the sell side and [max] is
    the largest [abs (id)] resting on that side, 0 if the side is empty, so
    that the first id of a side is 1 or -1; [construct_order] gives the
    order that id.  The id is larger in magnitude than every id resting on
    its side at that moment, and once an order with it rests there the next
    one is larger by one.  The two sides count separately: when their
    largest magnitudes agree, the next buy id and the next sell id have the
    same magnitude. *)
Theorem get_last_order_id_spec isBuy book :
  let side := at_key (key_of isBuy) book in
  let sign := if isBuy then 1 else -1 in
  get_last_order_id isBuy book = sign * (max_abs_id side + 1)
  /\ (forall o, o ∈ side -> Z.abs (id o) <= max_abs_id side)
  /\ (side <> [] -> exists o, o ∈ side /\ Z.abs (id o) = max_abs_id side)
  /\ (side = [] -> get_last_order_id isBuy book = sign)
  /\ (forall o, o ∈ side -> Z.abs (id o) < Z.abs (get_last_order_id isBuy book))
  /\ (forall order,
        is_buy order = isBuy -> id order = get_last_order_id isBuy book ->
        get_last_order_id isBuy (add_order order book)
        = get_last_order_id isBuy book + sign)
  /\ (forall account side_word quantity price timestamp,
        id (construct_order book account side_word quantity price timestamp)
        = get_last_order_id (bool_decide (side_word = "buy")) book)
  /\ (max_abs_id (buy_side book) = max_abs_id (sell_side book) ->
      get_last_order_id true book = - get_last_order_id false book).
Proof.
  intros side sign.
  pose proof (max_abs_id_nonneg side) as Hnonneg.
  repeat split.
  - apply get_last_order_id_formula.
  - apply max_abs_id_bound.
  - apply max_abs_id_attained.
  - intros Hempty. rewrite get_last_order_id_formula. fold side sign.
    rewrite Hempty. change (max_abs_id []) with 0. lia.
  - intros o Hin. rewrite get_last_order_id_formula. fold side sign.
    pose proof (max_abs_id_bound side o Hin). subst sign. destruct isBuy; lia.
  - intros order Hside Hid. rewrite !get_last_order_id_formula. fold side sign.
    rewrite get_last_order_id_formula in Hid. fold side sign in Hid.
    rewrite <- Hside, at_key_add_order, Hside. fold side.
    rewrite (max_abs_id_Permutation _ _ (emplace_Permutation order side)).
    rewrite max_abs_id_cons, Hid. subst sign. destruct isBuy; lia.
  - intros Hsame. rewrite !get_last_order_id_formula.
    cbn [key_of at_key]. rewrite Hsame. lia.
Qed.

(** C7 as it is written fails: the ids of a side do not only grow.  On the
    book of [setup ()] the next buy id is 3.  Once a sell order of charlie
    has filled the buy order of bob, which had the id 2, the next buy id is
    2: smaller than the one before, and the id of an order that has
    traded. *)
Lemma buy_id_issued_again :
  (exists o, o ∈ buy_side example_book /\ id o = 2 /\ account_name o = "bob")
  /\ get_last_order_id true example_book = 3
  /\ matching_engine_step example_clock (inl charlie_sells_10) example_state
     = Continue after_charlie_sells_10
  /\ get_last_order_id true (order_book after_charlie_sells_10) = 2
  /\ Z.abs (get_last_order_id true (order_book after_charlie_sells_10))
     < Z.abs (get_last_order_id true example_book).
Proof.
  split; [| split; [| split; [| split]]].
  - eexists. split; [apply list_elem_of_here |]. by split.
  - reflexivity.
  - vm_compute. reflexivity.
  - vm_compute. reflexivity.
  - vm_compute. reflexivity.
Qed.

(** ** Cancelling *)

Lemma erase_first_id_absent order_id side :
  Forall (fun o => id o <> order_id) side -> erase_first_id order_id side = side.
Proof.
  induction 1 as [| o side Ho _ IH]; [done |]. cbn [erase_first_id].
  assert ((id o =? order_id) = false) as -> by lia. by rewrite IH.
Qed.

Lemma remove_order_absent order_id book :
  (forall o, o ∈ buy_side book ++ sell_side book -> id o <> order_id) ->
  remove_order order_id book = book.
Proof.
  intros Habsent. unfold remove_order. destruct (order_id =? 0); [done |].
  rewrite erase_first_id_absent; [apply set_key_at_key |].
  apply Forall_forall. intros o Hin. apply Habsent, elem_of_app.
  destruct (order_id <? 0); auto.
Qed.

Lemma erase_first_id_unique order_id side :
  NoDup (id <$> side) ->
  Forall (fun o => id o <> order_id) (erase_first_id order_id side).
Proof.
  induction side as [| o side IH]; [constructor |].
  rewrite fmap_cons, NoDup_cons. intros [Hfresh Hnodup].
  cbn [erase_first_id]. destruct (id o =? order_id) eqn:Hid.
  - apply Z.eqb_eq in Hid. subst order_id.
    apply Forall_forall. intros o' Hin Heq. apply Hfresh.
    rewrite <- Heq. by apply list_elem_of_fmap_2.
  - constructor; [lia | by apply IH].
Qed.

(** C9.  Cancelling the id 0 leaves the book as it is, and so does
    cancelling an id that no resting order has, however many times it is
    done.  Where the ids of the side that is searched are distinct, a
    second cancel of an id changes nothing after the first. *)
Theorem remove_order_no_op book :
  remove_order 0 book = book
  /\ (forall order_id,
        (forall o, o ∈ buy_side book ++ sell_side book -> id o <> order_id) ->
        remove_order order_id book = book
        /\ forall n, Nat.iter n (remove_order order_id) book = book)
  /\ (forall order_id,
        NoDup (id <$> at_key (if order_id <? 0 then Buy else Sell) book) ->
        remove_order order_id (remove_order order_id book)
        = remove_order order_id book).
Proof.
  split; [done | split].
  - intros order_id Habsent.
    pose proof (remove_order_absent order_id book Habsent) as Hone.
    split; [done |]. induction n as [| n IH]; [done |].
    change (Nat.iter (S n) (remove_order order_id) book)
      with (remove_order order_id (Nat.iter n (remove_order order_id) book)).
    by rewrite IH.
  - intros order_id Hnodup. unfold remove_order.
    destruct (order_id =? 0); [done |].
    set (k := if order_id <? 0 then Buy else Sell) in *.
    rewrite at_key_set_key, set_key_set_key.
    by rewrite (erase_first_id_absent _ _ (erase_first_id_unique _ _ Hnodup)).
Qed.

Lemma remove_order_side order_id book :
  (0 < order_id ->
   remove_order order_id book
   = {| buy_side := buy_side book;
        sell_side := erase_first_id order_id (sell_side book) |})
  /\ (order_id < 0 ->
      remove_order order_id book
      = {| buy_side := erase_first_id order_id (buy_side book);
           sell_side := sell_side book |}).
Proof.
  unfold remove_order. split; intros Hsign.
  - assert ((order_id =? 0) = false) as -> by lia.
    by assert ((order_id <? 0) = false) as -> by lia.
  - assert ((order_id =? 0) = false) as -> by lia.
    by assert ((order_id <? 0) = true) as -> by lia.
Qed.

(** With the ids [get_last_order_id] gives, positive on the buy side and
    negative on the sell side, no cancel finds its order. *)
Lemma remove_order_never_finds order_id book :
  Forall (fun o => 0 < id o) (buy_side book) ->
  Forall (fun o => id o < 0) (sell_side book) ->
  remove_order order_id book = book.
Proof.
  intros Hbuy Hsell. unfold remove_order. destruct (order_id =? 0); [done |].
  destruct (Z.ltb_spec order_id 0) as [Hsign | Hsign]; cbn [at_key].
  - rewrite erase_first_id_absent; [by destruct book |].
    eapply Forall_impl; [exact Hbuy |]. intros o Ho. cbn beta in *. lia.
  - rewrite erase_first_id_absent; [by destruct book |].
    eapply Forall_impl; [exact Hsell |]. intros o Ho. cbn beta in *. lia.
Qed.

Lemma digits_value_nonneg acc cs :
  0 <= acc -> forallb is_digit cs = true -> 0 <= digits_value acc cs.
Proof.
  revert acc. induction cs as [| c cs IH]; intros acc Hacc Hdigits; [done |].
  cbn [forallb] in Hdigits. apply andb_true_iff in Hdigits as [Hc Hcs].
  cbn [digits_value]. apply IH; [| done].
  unfold is_digit in Hc. apply andb_true_iff in Hc as [Hc _].
  apply Nat.leb_le in Hc. lia.
Qed.

(** A cancel command never carries a negative id: a minus sign is not a
    digit. *)
Lemma convert_string_to_int_nonneg input : 0 <= (convert_string_to_int input).1.
Proof.
  unfold convert_string_to_int.
  destruct (forallb is_digit (list_ascii_of_string input)) eqn:Hdigits; [| done].
  destruct (list_ascii_of_string input) as [| c cs] eqn:Hcs; [done |].
  destruct (digits_value 0 (c :: cs) <=? INT_MAX) eqn:Hmax; [| done].
  cbn [fst]. by apply digits_value_nonneg.
Qed.

(** So on a book with the ids [get_last_order_id] gives, a message of the
    engine that starts with [cancel] leaves every order where it is. *)
Lemma cancel_message_removes_nothing clock message st st' :
  Forall (fun o => 0 < id o) (buy_side (order_book st)) ->
  Forall (fun o => id o < 0) (sell_side (order_book st)) ->
  matching_engine_step clock (inr message) st = Continue st' ->
  order_book st' = order_book st.
Proof.
  intros Hbuy Hsell Hstep. cbn [matching_engine_step] in Hstep.
  destruct (parse_input message) as [| token0 rest]; [by injection Hstep as <- |].
  destruct (bool_decide (token0 = "exit")); [done |].
  destruct (bool_decide (token0 = "cancel")); [| by injection Hstep as <-].
  destruct rest as [| token1 rest]; [done |].
  destruct (convert_string_to_int token1) as [order_id said].
  injection Hstep as <-. cbn [order_book].
  by apply remove_order_never_finds.
Qed.

(** C2 on the book of [setup ()]: the buy order of alice has the id 1 and the
    first sell order of charlie the id -1; [remove_order 1] searches the
    sell side and [remove_order (-1)] the buy side, and both orders stay. *)
Theorem remove_order_searches_other_side :
  let book := setup_book 1000 1000 1000 1001 in
  (exists o, o ∈ buy_side book /\ id o = 1 /\ account_name o = "alice")
  /\ remove_order 1 book = book
  /\ (exists o, o ∈ sell_side book /\ id o = -1 /\ account_name o = "charlie")
  /\ remove_order (-1) book = book.
Proof.
  cbv zeta. split; [| split; [| split]].
  - eexists. split; [| split]; [apply list_elem_of_further, list_elem_of_here | |];
      reflexivity.
  - reflexivity.
  - eexists. split; [| split]; [apply list_elem_of_here | |]; reflexivity.
  - reflexivity.
Qed.

(** ** Orders of unknown accounts *)

Lemma touch_unknown name (accts : Accounts) :
  accts !! name = None ->
  touch name accts = <[name := value_initialized]> accts
  /\ touch name accts <> accts.
Proof.
  intros Hnone. unfold touch. rewrite Hnone. split; [done |].
  intros Heq. apply (f_equal (fun m => m !! name)) in Heq.
  rewrite lookup_insert_eq, Hnone in Heq. done.
Qed.

(** C8 on the state of [setup ()]: no account is called ghost.  A buy order
    of ghost for 5 units at the price 0 is admitted, ghost enters the
    account table with empty balances, the order enters the book, and
    nothing is printed. *)
Theorem unknown_account_order_enters_book :
  let st := setup_state 1000 1000 1000 1001 in
  let order := construct_order (order_book st) "ghost" "buy" 5 0%float 1500 in
  accounts st !! "ghost" = None
  /\ matching_engine_step example_clock (inl order) st
     = Continue {| accounts := <["ghost" := value_initialized]> (accounts st);
                   transactions := [];
                   order_book := add_order order (order_book st);
                   cout := [];
                   cerr := [] |}
  /\ order ∈ buy_side (add_order order (order_book st)).
Proof.
  cbv zeta. split; [by vm_compute | split; [by vm_compute |]].
  vm_compute. do 2 apply list_elem_of_further. apply list_elem_of_here.
Qed.

(** An order of an unknown account that is rejected still adds the account
    to the table, and what is printed is the rejection of the order. *)
Lemma rejected_unknown_account_is_created clock order st :
  accounts st !! account_name order = None ->
  (is_allowed_order order (accounts st) (order_book st)).1 = false ->
  exists st',
    matching_engine_step clock (inl order) st = Continue st'
    /\ accounts st' = <[account_name order := value_initialized]> (accounts st)
    /\ accounts st' <> accounts st
    /\ cout st' = cout st ++ ["Order rejected"]
    /\ cerr st' = cerr st.
Proof.
  intros Hnone Hno. eexists. split; [by apply rejected_order_step |].
  cbn [accounts cout cerr].
  destruct (touch_unknown _ _ Hnone) as [Htouch Hne].
  rewrite <- Htouch. by repeat split.
Qed.

(** ** The threads at the inbound channel *)


























(** ** The engine on the book of [setup ()] *)

(** Alice buys 12 at 23.5: the 8 that charlie sells at 23.5 trade at that
    price, the next sell order, at 25.5, does not cross, and the remaining 4
    rest on the buy side under the id of the order. *)
Example alice_buys_12_trades_8 :
  transactions after_alice_buys_12
  = [ {| tx_id := 1; tx_quantity := 8; tx_price := 23.5%float;
         tx_timestamp := 2000; buyer := "alice"; seller := "charlie";
         aggressor := "buy" |} ]
  /\ order_book after_alice_buys_12
     = {| buy_side := with_quantity alice_buys_12 4 :: buy_side example_book;
          sell_side := [charlie_sells_8_more] |}
  /\ subscript "alice" (accounts after_alice_buys_12)
     = {| usd_balance := 5812%float; coin_balance := 43548 |}
  /\ subscript "charlie" (accounts after_alice_buys_12)
     = {| usd_balance := 1423%float; coin_balance := 992 |}.
Proof. repeat split; vm_compute; reflexivity. Qed.

(** Charlie sells 10 at 22.5: the 10 that bob bids at 22.5, the best bid,
    trade at 22.5, and the order of charlie is used up. *)
Example charlie_sells_10_to_bob :
  transactions after_charlie_sells_10
  = [ {| tx_id := 1; tx_quantity := 10; tx_price := 22.5%float;
         tx_timestamp := 2000; buyer := "bob"; seller := "charlie";
         aggressor := "sell" |} ]
  /\ (account_name <$> buy_side (order_book after_charlie_sells_10)) = ["alice"]
  /\ sell_side (order_book after_charlie_sells_10) = sell_side example_book.
Proof. repeat split; vm_compute; reflexivity. Qed.

(** A partly filled order is erased and inserted again, behind the orders
    of its price and timestamp: of two such orders the first is filled for 5
    of its 8 units and then stands second. *)
Example partly_filled_order_goes_behind_its_equals :
  (account_name <$> sell_side twin_sell_book) = ["charlie"; "bob"]
  /\ sell_side (match_order example_clock alice_buys_5 twin_sell_book
                  setup_accounts []).1.1.2
     = [ {| id := -2; account_name := "bob"; is_buy := false;
            quantity := 8; price := 23.5%float; timestamp := 1000 |};
         {| id := -1; account_name := "charlie"; is_buy := false;
            quantity := 3; price := 23.5%float; timestamp := 1000 |} ].
Proof. split; vm_compute; reflexivity. Qed.

(** ** The properties on the book of [setup ()] *)

Lemma book_ok_setup t1 t2 t3 t4 : book_ok (setup_book t1 t2 t3 t4).
Proof.
  unfold setup_book. cbv zeta.
  repeat (apply book_ok_add_order; [reflexivity |]).
  apply book_ok_empty.
Qed.

Lemma match_order_walk_witness :
  match_order example_clock alice_buys_5 example_book setup_accounts []
  = (with_quantity alice_buys_5 0,
     {| buy_side := buy_side example_book;
        sell_side := [with_quantity charlie_sells_8 3; charlie_sells_8_more] |},
     <["charlie" := {| usd_balance := 1352.5%float; coin_balance := 995 |}]>
       (<["alice" := {| usd_balance := 5882.5%float; coin_balance := 43545 |}]>
          setup_accounts),
     [{| tx_id := 1; tx_quantity := 5; tx_price := 23.5%float;
         tx_timestamp := 2000; buyer := "alice"; seller := "charlie";
         aggressor := "buy" |}])
  /\ match_order example_clock alice_buys_12 example_book setup_accounts []
     = (with_quantity alice_buys_12 4,
        {| buy_side := buy_side example_book;
           sell_side := [charlie_sells_8_more] |},
        <["charlie" := {| usd_balance := 1423%float; coin_balance := 992 |}]>
          (<["alice" := {| usd_balance := 5812%float; coin_balance := 43548 |}]>
             setup_accounts),
        [{| tx_id := 1; tx_quantity := 8; tx_price := 23.5%float;
            tx_timestamp := 2000; buyer := "alice"; seller := "charlie";
            aggressor := "buy" |}])
  /\ match_order example_clock charlie_sells_10 example_book setup_accounts []
     = (with_quantity charlie_sells_10 0,
        {| buy_side := [alice_buys_1];
           sell_side := sell_side example_book |},
        <["charlie" := {| usd_balance := 1460%float; coin_balance := 990 |}]>
          (<["bob" := {| usd_balance := 75%float; coin_balance := 2010 |}]>
             setup_accounts),
        [{| tx_id := 1; tx_quantity := 10; tx_price := 22.5%float;
            tx_timestamp := 2000; buyer := "bob"; seller := "charlie";
            aggressor := "sell" |}])
  /\ match_order example_clock charlie_sells_4 example_book setup_accounts []
     = (with_quantity charlie_sells_4 0,
        {| buy_side := [with_quantity bob_buys_10 6; alice_buys_1];
           sell_side := sell_side example_book |},
        <["charlie" := {| usd_balance := 1325%float; coin_balance := 996 |}]>
          (<["bob" := {| usd_balance := 210%float; coin_balance := 2004 |}]>
             setup_accounts),
        [{| tx_id := 1; tx_quantity := 4; tx_price := 22.5%float;
            tx_timestamp := 2000; buyer := "bob"; seller := "charlie";
            aggressor := "sell" |}]).
Proof.
  split; [| split; [| split]].
  - destruct (match_order_walk example_clock alice_buys_5 example_book
                setup_accounts []) as (_ & Hstep & _).
    destruct (Hstep charlie_sells_8 [charlie_sells_8_more] eq_refl)
      as (_ & _ & Hpartial).
    rewrite Hpartial;
      [vm_compute; reflexivity | reflexivity | reflexivity | discriminate
      | reflexivity].
  - destruct (match_order_walk example_clock alice_buys_12 example_book
                setup_accounts []) as (_ & Hstep & _).
    destruct (Hstep charlie_sells_8 [charlie_sells_8_more] eq_refl)
      as (_ & Hfull & _).
    rewrite Hfull; [| reflexivity | reflexivity | discriminate | discriminate].
    match goal with
    | |- match_order ?c ?o ?b ?a ?l = _ =>
        destruct (match_order_walk c o b a l) as (_ & Hnext & _)
    end.
    destruct (Hnext charlie_sells_8_more [] eq_refl) as (Hstop & _).
    rewrite Hstop; [vm_compute; reflexivity |].
    intros [Hcross _]. vm_compute in Hcross. discriminate Hcross.
  - destruct (match_order_walk example_clock charlie_sells_10 example_book
                setup_accounts []) as (_ & Hstep & _).
    destruct (Hstep bob_buys_10 [alice_buys_1]
                eq_refl) as (_ & Hfull & _).
    rewrite Hfull; [| reflexivity | reflexivity | discriminate | discriminate].
    match goal with
    | |- match_order ?c ?o ?b ?a ?l = _ =>
        destruct (match_order_walk c o b a l) as (_ & Hnext & _)
    end.
    destruct (Hnext alice_buys_1 [] eq_refl) as (Hstop & _).
    rewrite Hstop; [vm_compute; reflexivity |].
    intros [Hcross _]. vm_compute in Hcross. discriminate Hcross.
  - destruct (match_order_walk example_clock charlie_sells_4 example_book
                setup_accounts []) as (_ & Hstep & _).
    destruct (Hstep bob_buys_10 [alice_buys_1]
                eq_refl) as (_ & _ & Hpartial).
    rewrite Hpartial;
      [vm_compute; reflexivity | reflexivity | reflexivity | discriminate
      | reflexivity].
Defined.

Lemma settle_accounts_effect_witness :
  let settled :=
    settle_accounts example_clock "alice" "charlie" 8 23.5%float "buy"
      setup_accounts [] in
  subscript "alice" settled.1
  = {| usd_balance := 5812%float; coin_balance := 43548 |}
  /\ subscript "charlie" settled.1
     = {| usd_balance := 1423%float; coin_balance := 992 |}
  /\ settled.1 !! "bob" = setup_accounts !! "bob"
  /\ total_usd settled.1 = total_usd setup_accounts
  /\ total_coin settled.1 = total_coin setup_accounts.
Proof.
  destruct (settle_accounts_effect example_clock "alice" "charlie" 8 23.5%float
              "buy" setup_accounts []) as (Hparties & _ & Hcoin & _).
  destruct Hparties as (Hpayer & Hpayee & Hothers & Husd); [discriminate |].
  split; [exact Hpayer |]. split; [exact Hpayee |].
  split; [apply Hothers; discriminate |].
  split; [| exact Hcoin].
  apply Husd; apply Qc_is_canon; vm_compute; reflexivity.
Defined.

Lemma no_self_trade_and_halt_witness :
  Forall no_self_trade (transactions after_alice_buys_12)
  /\ match_order example_clock alice_buys own_order_first_book rich_accounts []
     = (alice_buys, own_order_first_book, rich_accounts, []).
Proof.
  destruct no_self_trade_and_halt as [Hlog Hhalt]. split.
  - apply Hlog.
    apply (reachable_message example_clock (inl alice_buys_12) example_state).
    + apply reachable_start.
    + vm_compute. reflexivity.
  - eapply Hhalt; reflexivity.
Defined.

Lemma is_allowed_order_iff_witness :
  (is_allowed_order bob_buys_13 setup_accounts example_book).1 = true
  /\ (is_allowed_order bob_buys_14 setup_accounts example_book).1 = false
  /\ (is_allowed_order charlie_sells_1000 setup_accounts example_book).1 = true
  /\ (is_allowed_order charlie_sells_1001 setup_accounts example_book).1 = false
  /\ (is_allowed_order alice_buys_at_30 setup_accounts
        (add_order alice_sells_at_30 example_book)).1 = false
  /\ exists st',
      matching_engine_step example_clock (inl alice_buys_at_30) alice_rests_at_30
      = Continue st'
      /\ order_book st' = add_order alice_sells_at_30 example_book
      /\ transactions st' = []
      /\ cout st' = ["Order rejected"].
Proof.
  split; [| split; [| split; [| split; [| split]]]].
  - destruct (is_allowed_order_iff bob_buys_13 setup_accounts example_book)
      as [Hiff _].
    apply Hiff. split; [vm_compute; reflexivity |].
    repeat (apply Forall_cons_2; [intros [Hname _]; discriminate Hname |]).
    apply Forall_nil_2.
  - destruct (is_allowed_order_iff bob_buys_14 setup_accounts example_book)
      as [Hiff _].
    apply not_true_iff_false. intros Hallowed. apply Hiff in Hallowed.
    destruct Hallowed as [Hcost _]. vm_compute in Hcost. discriminate Hcost.
  - destruct (is_allowed_order_iff charlie_sells_1000 setup_accounts example_book)
      as [Hiff _].
    apply Hiff. split; [vm_compute; discriminate |].
    repeat (apply Forall_cons_2; [intros [Hname _]; discriminate Hname |]).
    apply Forall_nil_2.
  - destruct (is_allowed_order_iff charlie_sells_1001 setup_accounts example_book)
      as [Hiff _].
    apply not_true_iff_false. intros Hallowed. apply Hiff in Hallowed.
    destruct Hallowed as [Hunits _]. vm_compute in Hunits. by apply Hunits.
  - destruct (is_allowed_order_iff alice_buys_at_30 setup_accounts
                (add_order alice_sells_at_30 example_book)) as [Hiff _].
    apply not_true_iff_false. intros Hallowed. apply Hiff in Hallowed.
    destruct Hallowed as [_ Hnone].
    assert (sell_side (add_order alice_sells_at_30 example_book)
            = [charlie_sells_8; charlie_sells_8_more; alice_sells_at_30])
      as Hside by (vm_compute; reflexivity).
    rewrite Hside in Hnone.
    apply Forall_cons in Hnone as [_ Hnone].
    apply Forall_cons in Hnone as [_ Hnone].
    apply Forall_cons in Hnone as [Hnone _].
    apply Hnone. split; reflexivity.
  - destruct (is_allowed_order_iff alice_buys_at_30 setup_accounts
                (add_order alice_sells_at_30 example_book)) as [_ Hrejected].
    destruct (Hrejected example_clock alice_rests_at_30)
      as (st' & Hstep & Hbook & Hlog & Hout & _);
      [reflexivity | reflexivity | vm_compute; reflexivity |].
    exists st'. by repeat split.
Defined.

Lemma price_time_priority_preserved_witness :
  book_ok (add_order alice_buys_5 example_book)
  /\ book_ok (remove_order (-1) example_book)
  /\ book_ok (match_order example_clock alice_buys_5 example_book
                setup_accounts []).1.1.2.
Proof.
  destruct (price_time_priority_preserved example_book
              (book_ok_setup 1000 1000 1000 1001)) as (Hadd & Hremove & Hmatch).
  split; [apply Hadd; reflexivity |].
  split; [apply Hremove | apply Hmatch].
Defined.

Lemma get_last_order_id_spec_witness :
  get_last_order_id true example_book = 3
  /\ get_last_order_id true (add_order alice_buys_5 example_book) = 4
  /\ get_last_order_id true example_book = - get_last_order_id false example_book.
Proof.
  destruct (get_last_order_id_spec true example_book)
    as (Hformula & _ & _ & _ & _ & Hnext & _ & Hsides).
  split; [exact Hformula |].
  split; [apply (Hnext alice_buys_5); reflexivity |].
  apply Hsides. reflexivity.
Defined.

Lemma remove_order_no_op_witness :
  remove_order 0 example_book = example_book
  /\ remove_order 7 example_book = example_book
  /\ Nat.iter 3 (remove_order 7) example_book = example_book
  /\ remove_order (-1) (remove_order (-1) example_book)
     = remove_order (-1) example_book.
Proof.
  destruct (remove_order_no_op example_book) as (Hzero & Habsent & Htwice).
  split; [exact Hzero |].
  destruct (Habsent 7) as [Hone Hmany].
  { apply Forall_forall. repeat constructor; discriminate. }
  split; [exact Hone |]. split; [apply Hmany |].
  apply Htwice. apply (bool_decide_unpack _). vm_compute. exact I.
Defined.


(** * Further properties of the code *)

(** ** What [match_order] trades *)

Lemma resting_quantity_cons o side :
  resting_quantity (o :: side) = quantity o + resting_quantity side.
Proof. reflexivity. Qed.

Lemma traded_quantity_cons t log :
  traded_quantity (t :: log) = tx_quantity t + traded_quantity log.
Proof. reflexivity. Qed.

Lemma resting_quantity_emplace x side :
  resting_quantity (emplace x side) = quantity x + resting_quantity side.
Proof.
  induction side as [| y rest IH]; [done |]. cbn [emplace].
  destruct (OrderComparator x y); [done |].
  rewrite !resting_quantity_cons, IH. lia.
Qed.

Lemma traded_quantity_app log log' :
  traded_quantity (log ++ log') = traded_quantity log + traded_quantity log'.
Proof.
  induction log as [| t log IH]; [done |].
  rewrite <- app_comm_cons, !traded_quantity_cons, IH. lia.
Qed.

Lemma match_loop_trades clock order side accounts transactions :
  exists new,
    (match_loop clock order side accounts transactions).2 = transactions ++ new
    /\ Forall (trade_of order) new
    /\ quantity (match_loop clock order side accounts transactions).1.1.1
       = quantity order - traded_quantity new
    /\ resting_quantity (match_loop clock order side accounts transactions).1.1.2
       = resting_quantity side - traded_quantity new
    /\ (length new <= length side)%nat.
Proof.
  revert order accounts transactions.
  induction side as [| top rest IH]; intros order accounts transactions.
  { exists []. cbn. rewrite app_nil_r. repeat split; [constructor | lia..]. }
  rewrite match_loop_cons.
  destruct (keeps_walking order top) eqn:Hwalk.
  2: { exists []. cbn. rewrite app_nil_r. repeat split; [constructor | lia..]. }
  apply keeps_walking_true in Hwalk as (Hcross & Hleft & Hne).
  assert (forall units,
            trade_of order
              {| tx_id := Z.of_nat (length transactions) + 1;
                 tx_quantity := units; tx_price := price top;
                 tx_timestamp := clock (length transactions);
                 buyer := buyer_of order top; seller := seller_of order top;
                 aggressor := side_name order |}) as Htrade.
  { intros units. unfold trade_of, buyer_of, seller_of, side_name.
    cbn [buyer seller aggressor tx_price].
    destruct (is_buy order); repeat split; congruence. }
  destruct (quantity top <=? quantity order); cbv zeta.
  - destruct (IH (with_quantity order (quantity order - quantity top))
                (settle_accounts clock (buyer_of order top) (seller_of order top)
                   (quantity top) (price top) (side_name order)
                   accounts transactions).1
                (settle_accounts clock (buyer_of order top) (seller_of order top)
                   (quantity top) (price top) (side_name order)
                   accounts transactions).2)
      as (new & Hlog & Htrades & Hleft' & Hrest & Hlen).
    eexists (_ :: new). rewrite Hlog, Hleft', Hrest.
    unfold settle_accounts at 1. cbn [snd].
    rewrite <- app_assoc. split; [reflexivity |].
    split; [constructor; [apply Htrade | exact Htrades] |].
    rewrite traded_quantity_cons, resting_quantity_cons.
    cbn [with_quantity quantity tx_quantity length]. lia.
  - eexists [_]. unfold settle_accounts. cbn [fst snd].
    split; [reflexivity |]. split; [constructor; [apply Htrade | constructor] |].
    rewrite resting_quantity_emplace, traded_quantity_cons, resting_quantity_cons.
    change (traded_quantity []) with 0.
    cbn [with_quantity quantity tx_quantity length]. lia.
Qed.

Lemma match_order_trades clock order book accounts transactions :
  exists new,
    (match_order clock order book accounts transactions).2 = transactions ++ new
    /\ Forall (trade_of order) new
    /\ quantity (match_order clock order book accounts transactions).1.1.1
       = quantity order - traded_quantity new
    /\ resting_quantity
         (at_key (opposite_key order)
            (match_order clock order book accounts transactions).1.1.2)
       = resting_quantity (at_key (opposite_key order) book) - traded_quantity new
    /\ at_key (key_of (is_buy order))
         (match_order clock order book accounts transactions).1.1.2
       = at_key (key_of (is_buy order)) book
    /\ (length new <= length (at_key (opposite_key order) book))%nat.
Proof.
  unfold match_order.
  destruct (match_loop_trades clock order (at_key (opposite_key order) book)
              accounts transactions) as (new & Hlog & Htrades & Hleft & Hrest & Hlen).
  destruct (match_loop _ _ _ _ _) as [[[order' side'] accounts'] transactions'].
  cbn [fst snd] in *. exists new. rewrite at_key_set_key.
  repeat split; try done.
  unfold opposite_key, key_of. by destruct (is_buy order), book.
Qed.

(** X1.  What [match_order] takes from the aggressor is what it takes from
    the opposite side and what the new transactions record: the log grows
    by some transactions, the aggressor is left with its quantity less their
    quantities, the opposite side rests that much less, the side of the
    aggressor is untouched, and no resting order trades twice. *)
Theorem match_order_conserves_quantity clock order book accounts transactions :
  let result := match_order clock order book accounts transactions in
  exists new,
    result.2 = transactions ++ new
    /\ quantity result.1.1.1 = quantity order - traded_quantity new
    /\ resting_quantity (at_key (opposite_key order) result.1.1.2)
       = resting_quantity (at_key (opposite_key order) book) - traded_quantity new
    /\ at_key (key_of (is_buy order)) result.1.1.2
       = at_key (key_of (is_buy order)) book
    /\ (length new <= length (at_key (opposite_key order) book))%nat.
Proof.
  cbv zeta.
  destruct (match_order_trades clock order book accounts transactions)
    as (new & Hlog & _ & Hleft & Hrest & Hown & Hlen).
  by exists new.
Qed.

(** X2.  Every transaction [match_order] appends has the aggressor on its
    own side (buyer of a buy order, seller of a sell order) and names that
    side, is with another account, and is at a price within the limit of the
    aggressor: not above it for a buy, not below it for a sell. *)
Theorem match_order_trades_within_limit clock order book accounts transactions :
  exists new,
    (match_order clock order book accounts transactions).2 = transactions ++ new
    /\ Forall
         (fun t =>
            (if is_buy order
             then buyer t = account_name order /\ aggressor t = "buy"
                  /\ PrimFloat.leb (tx_price t) (price order) = true
             else seller t = account_name order /\ aggressor t = "sell"
                  /\ PrimFloat.leb (price order) (tx_price t) = true)
            /\ buyer t <> seller t) new.
Proof.
  destruct (match_order_trades clock order book accounts transactions)
    as (new & Hlog & Htrades & _).
  by exists new.
Qed.

Lemma match_loop_stops clock order side accounts transactions :
  forall top,
    head (match_loop clock order side accounts transactions).1.1.2 = Some top ->
    keeps_walking (match_loop clock order side accounts transactions).1.1.1 top
    = false.
Proof.
  revert order accounts transactions.
  induction side as [| top0 rest IH]; intros order accounts transactions top;
    [done |].
  rewrite match_loop_cons.
  destruct (keeps_walking order top0) eqn:Hwalk.
  - destruct (quantity top0 <=? quantity order); cbv zeta; [apply IH |].
    intros _. cbn [fst snd]. unfold keeps_walking.
    cbn [with_quantity quantity]. by rewrite andb_false_r.
  - cbn [fst snd head]. by intros [= <-].
Qed.

(** X3.  [match_order] stops only when it is done: on return the aggressor
    has no quantity left, or the opposite side is empty, or the first order
    of the opposite side is of the aggressor's account or does not cross its
    limit. *)
Theorem match_order_stops_when_done clock order book accounts transactions :
  let result := match_order clock order book accounts transactions in
  quantity result.1.1.1 <= 0
  \/ at_key (opposite_key order) result.1.1.2 = []
  \/ exists top rest,
       at_key (opposite_key order) result.1.1.2 = top :: rest
       /\ (account_name top = account_name order
           \/ (if is_buy order then PrimFloat.leb (price top) (price order)
               else PrimFloat.leb (price order) (price top)) = false).
Proof.
  cbv zeta. unfold match_order.
  pose proof (match_loop_stops clock order (at_key (opposite_key order) book)
                accounts transactions) as Hstop.
  pose proof (match_loop_order clock order (at_key (opposite_key order) book)
                accounts transactions) as Hsame.
  destruct (match_loop _ _ _ _ _) as [[[order' side'] accounts'] transactions'].
  cbn [fst snd] in *. rewrite at_key_set_key.
  destruct side' as [| top rest]; [by right; left |].
  specialize (Hstop top eq_refl). unfold keeps_walking in Hstop.
  rewrite Hsame in Hstop. cbn [with_quantity is_buy price account_name] in Hstop.
  rewrite !andb_false_iff, Z.ltb_ge, bool_decide_eq_false in Hstop.
  destruct Hstop as [[Hcross | Hleft] | Hown].
  - right; right. exists top, rest. split; [done |]. by right.
  - left. cbn [with_quantity quantity] in Hleft. lia.
  - right; right. exists top, rest. split; [done |]. left.
    destruct (decide (account_name top = account_name order)); [done |].
    exfalso. apply Hown. congruence.
Qed.

(** ** What the engine keeps, message after message *)

Lemma step_break clock data st st' :
  matching_engine_step clock data st = Break st' -> st' = st.
Proof.
  destruct data as [order | message]; cbn [matching_engine_step].
  - destruct (is_allowed_order _ _ _) as [[] accounts1]; [| done].
    by destruct (match_order _ _ _ _ _) as [[[? ?] ?] ?].
  - destruct (parse_input message) as [| token0 rest]; [done |].
    destruct (bool_decide (token0 = "exit")); [by intros [= <-] |].
    destruct (bool_decide (token0 = "cancel")); [| done].
    destruct rest; [done |]. by destruct (convert_string_to_int _).
Qed.

(** What every turn of the loop keeps, the loop keeps. *)
Lemma matching_engine_keeps (P : State -> Prop) (Q : MessageQueueData -> Prop)
    clock :
  (forall data st st',
     Q data -> P st -> matching_engine_step clock data st = Continue st' -> P st') ->
  forall messages st st',
    Forall Q messages -> P st ->
    matching_engine clock messages st = Continue st'
    \/ matching_engine clock messages st = Break st' ->
    P st'.
Proof.
  intros Hstep messages. induction messages as [| data messages IH];
    intros st st' Hall HP Hrun; cbn [matching_engine] in Hrun.
  - destruct Hrun as [[= <-] | [=]]. done.
  - apply Forall_cons in Hall as [Hdata Hall].
    destruct (matching_engine_step clock data st) as [st1 | st1 |] eqn:Hone.
    + eauto.
    + destruct Hrun as [[=] | [= <-]]. by rewrite (step_break _ _ _ _ Hone).
    + by destruct Hrun.
Qed.

Lemma match_loop_positive clock order side accounts transactions :
  Forall (fun o => 0 < quantity o) side ->
  Forall (fun t => 0 < tx_quantity t) transactions ->
  Forall (fun o => 0 < quantity o)
    (match_loop clock order side accounts transactions).1.1.2
  /\ Forall (fun t => 0 < tx_quantity t)
       (match_loop clock order side accounts transactions).2.
Proof.
  revert order accounts transactions.
  induction side as [| top rest IH]; intros order accounts transactions Hside Hlog;
    [done |].
  rewrite match_loop_cons. apply Forall_cons in Hside as [Htop Hrest].
  destruct (keeps_walking order top) eqn:Hwalk; [| by split; [constructor |]].
  apply keeps_walking_true in Hwalk as (_ & Hleft & _).
  destruct (Z.leb_spec (quantity top) (quantity order)); cbv zeta.
  - apply IH; [done |]. unfold settle_accounts. cbn [snd].
    apply Forall_app. split; [done |]. by repeat constructor.
  - cbn [fst snd]. split.
    + apply Forall_emplace. split; [| done]. cbn [with_quantity quantity]. lia.
    + unfold settle_accounts. cbn [snd].
      apply Forall_app. split; [done |]. by repeat constructor.
Qed.

Lemma positive_step clock data st st' :
  book_positive (order_book st)
  /\ Forall (fun t => 0 < tx_quantity t) (transactions st) ->
  matching_engine_step clock data st = Continue st' ->
  book_positive (order_book st')
  /\ Forall (fun t => 0 < tx_quantity t) (transactions st').
Proof.
  intros [[Hbuy Hsell] Hlog] Hstep. destruct data as [order | message];
    cbn [matching_engine_step] in Hstep.
  - destruct (is_allowed_order order (accounts st) (order_book st))
      as [allowed accounts1].
    destruct allowed; [| by injection Hstep as <-].
    unfold match_order in Hstep.
    pose proof (match_loop_positive clock order
                  (at_key (opposite_key order) (order_book st)) accounts1
                  (transactions st)) as Hloop.
    destruct (match_loop _ _ _ _ _) as [[[order' side'] accounts2] transactions'].
    cbn [fst snd] in Hloop. injection Hstep as <-.
    cbn [order_book transactions].
    destruct Hloop as [Hside' Hlog'];
      [unfold opposite_key; by destruct (is_buy order) | done |].
    split; [| done].
    assert (book_positive (set_key (opposite_key order) side' (order_book st)))
      as [Hbuy' Hsell'].
    { unfold opposite_key. by destruct (is_buy order). }
    destruct (Z.ltb_spec 0 (quantity order')); [| done].
    unfold add_order, key_of.
    destruct (is_buy order'); split; cbn [set_key at_key buy_side sell_side];
      try done; by apply Forall_emplace.
  - destruct (parse_input message) as [| token0 rest]; [by injection Hstep as <- |].
    destruct (bool_decide (token0 = "exit")); [done |].
    destruct (bool_decide (token0 = "cancel")); [| by injection Hstep as <-].
    destruct rest as [| token1 rest]; [done |].
    destruct (convert_string_to_int token1) as [order_id said].
    injection Hstep as <-. cbn [order_book transactions]. split; [| done].
    unfold remove_order. destruct (order_id =? 0); [done |].
    assert (forall side, Forall (fun o => 0 < quantity o) side ->
                         Forall (fun o => 0 < quantity o)
                           (erase_first_id order_id side)) as Herase.
    { intros side Hside. induction Hside as [| o side Ho Hside IH]; [done |].
      cbn [erase_first_id]. destruct (id o =? order_id); [done |].
      by constructor. }
    destruct (order_id <? 0); split; cbn [set_key at_key buy_side sell_side];
      auto.
Qed.

(** X4.  Once every resting order and every transaction has a quantity above
    0, that stays so whatever messages the engine processes: no order is
    left resting at 0 or less and no trade of 0 or less is recorded. *)
Theorem quantities_stay_positive clock messages st st' :
  book_positive (order_book st) ->
  Forall (fun t => 0 < tx_quantity t) (transactions st) ->
  matching_engine clock messages st = Continue st'
  \/ matching_engine clock messages st = Break st' ->
  book_positive (order_book st')
  /\ Forall (fun t => 0 < tx_quantity t) (transactions st').
Proof.
  intros Hbook Hlog Hrun.
  apply (matching_engine_keeps
           (fun st => book_positive (order_book st)
                      /\ Forall (fun t => 0 < tx_quantity t) (transactions st))
           (fun _ => True) clock) with (messages := messages) (st := st);
    [| by apply Forall_true | done | done].
  intros data st0 st1 _. apply positive_step.
Qed.

Lemma numbered_snoc log t :
  numbered log -> tx_id t = Z.of_nat (length log) + 1 -> numbered (log ++ [t]).
Proof.
  unfold numbered. intros Hlog Ht.
  rewrite fmap_app, length_app, Hlog. cbn [length fmap list_fmap].
  rewrite Nat.add_1_r, seq_S, fmap_app. cbn [fmap list_fmap]. rewrite Ht.
  do 2 f_equal. lia.
Qed.

Lemma numbered_match_loop clock order side accounts transactions :
  numbered transactions ->
  numbered (match_loop clock order side accounts transactions).2.
Proof.
  revert order accounts transactions.
  induction side as [| top rest IH]; intros order accounts transactions Hlog;
    [done |].
  rewrite match_loop_cons.
  destruct (keeps_walking order top); [| done].
  destruct (quantity top <=? quantity order); cbv zeta.
  - apply IH. unfold settle_accounts. cbn [snd]. by apply numbered_snoc.
  - unfold settle_accounts. cbn [snd]. by apply numbered_snoc.
Qed.

Lemma numbered_step clock data st st' :
  matching_engine_step clock data st = Continue st' ->
  numbered (transactions st) -> numbered (transactions st').
Proof.
  intros Hstep Hlog. destruct data as [order | message];
    cbn [matching_engine_step] in Hstep.
  - destruct (is_allowed_order order (accounts st) (order_book st))
      as [allowed accounts1].
    destruct allowed; [| by injection Hstep as <-].
    unfold match_order in Hstep.
    pose proof (numbered_match_loop clock order
                  (at_key (opposite_key order) (order_book st)) accounts1
                  (transactions st) Hlog) as Hloop.
    destruct (match_loop _ _ _ _ _) as [[[order' side'] accounts2] transactions'].
    by injection Hstep as <-.
  - destruct (parse_input message) as [| token0 rest]; [by injection Hstep as <- |].
    destruct (bool_decide (token0 = "exit")); [done |].
    destruct (bool_decide (token0 = "cancel")); [| by injection Hstep as <-].
    destruct rest as [| token1 rest]; [done |].
    destruct (convert_string_to_int token1) as [order_id said].
    by injection Hstep as <-.
Qed.

(** X5.  In every reachable state the ids of the transaction log are 1, 2,
    ..., n in this order: no id is missing and none occurs twice. *)
Theorem log_ids_count_from_one st :
  reachable st -> tx_id <$> transactions st
                  = Z.of_nat <$> seq 1 (length (transactions st)).
Proof.
  induction 1 as [accounts0 book0 | clock data st st' _ IH Hstep | st accounts' _ IH];
    cbn [transactions]; [done | | done].
  by apply (numbered_step clock data st st').
Qed.

(** ** Ids *)

Lemma get_last_order_id_sign book :
  0 < get_last_order_id true book /\ get_last_order_id false book < 0.
Proof.
  rewrite !get_last_order_id_formula.
  pose proof (max_abs_id_nonneg (at_key (key_of true) book)).
  pose proof (max_abs_id_nonneg (at_key (key_of false) book)).
  lia.
Qed.

Lemma construct_order_well_signed book account side quantity price timestamp :
  well_signed (construct_order book account side quantity price timestamp).
Proof.
  unfold well_signed, construct_order. cbn [is_buy id].
  destruct (get_last_order_id_sign book).
  by destruct (bool_decide (side = "buy")).
Qed.

(** [match_order] keeps on the opposite side what holds of its orders
    whatever their quantity is. *)
Lemma match_loop_side_Forall (P : Order -> Prop) clock order side accounts
    transactions :
  (forall o q, P o -> P (with_quantity o q)) ->
  Forall P side ->
  Forall P (match_loop clock order side accounts transactions).1.1.2.
Proof.
  intros HP. revert order accounts transactions.
  induction side as [| top rest IH]; intros order accounts transactions Hside;
    [done |].
  rewrite match_loop_cons. apply Forall_cons in Hside as [Htop Hrest].
  destruct (keeps_walking order top); [| by constructor].
  destruct (quantity top <=? quantity order); cbv zeta; [by apply IH |].
  cbn [fst snd]. apply Forall_emplace. auto.
Qed.

Lemma erase_first_id_Forall (P : Order -> Prop) order_id side :
  Forall P side -> Forall P (erase_first_id order_id side).
Proof.
  induction 1 as [| o side Ho Hside IH]; [done |]. cbn [erase_first_id].
  destruct (id o =? order_id); [done |]. by constructor.
Qed.

Lemma signed_step clock data st st' :
  (forall order, data = inl order -> well_signed order) ->
  book_signed (order_book st) ->
  matching_engine_step clock data st = Continue st' ->
  book_signed (order_book st').
Proof.
  intros Hsigned [Hbuy Hsell] Hstep. destruct data as [order | message];
    cbn [matching_engine_step] in Hstep.
  - specialize (Hsigned order eq_refl).
    destruct (is_allowed_order order (accounts st) (order_book st))
      as [allowed accounts1].
    destruct allowed; [| by injection Hstep as <-].
    unfold match_order in Hstep.
    pose proof (match_loop_order clock order
                  (at_key (opposite_key order) (order_book st)) accounts1
                  (transactions st)) as Hsame.
    pose proof (match_loop_side_Forall (fun o => 0 < id o) clock order
                  (at_key (opposite_key order) (order_book st)) accounts1
                  (transactions st) ltac:(intros o q H; exact H)) as Hpos.
    pose proof (match_loop_side_Forall (fun o => id o < 0) clock order
                  (at_key (opposite_key order) (order_book st)) accounts1
                  (transactions st) ltac:(intros o q H; exact H)) as Hneg.
    destruct (match_loop _ _ _ _ _) as [[[order' side'] accounts2] transactions'].
    cbn [fst snd] in *. injection Hstep as <-. cbn [order_book].
    assert (book_signed (set_key (opposite_key order) side' (order_book st)))
      as [Hbuy' Hsell'].
    { unfold opposite_key in *. destruct (is_buy order); split;
        cbn [set_key at_key buy_side sell_side] in *; auto. }
    destruct (0 <? quantity order'); [| done].
    unfold well_signed in Hsigned. rewrite Hsame.
    unfold add_order, key_of. cbn [with_quantity is_buy].
    destruct (is_buy order); split; cbn [set_key at_key buy_side sell_side];
      try done; by apply Forall_emplace.
  - destruct (parse_input message) as [| token0 rest]; [by injection Hstep as <- |].
    destruct (bool_decide (token0 = "exit")); [done |].
    destruct (bool_decide (token0 = "cancel")); [| by injection Hstep as <-].
    destruct rest as [| token1 rest]; [done |].
    destruct (convert_string_to_int token1) as [order_id said].
    injection Hstep as <-. cbn [order_book].
    unfold remove_order. destruct (order_id =? 0); [done |].
    destruct (order_id <? 0); split; cbn [set_key at_key buy_side sell_side];
      auto using erase_first_id_Forall.
Qed.

(** X6.  As long as the orders the engine receives carry ids of the sign of
    their side, as those of [construct_order] do, the resting buy orders
    have positive ids and the resting sell orders negative ones; and then no
    cancel message removes anything: the engine searches the sell side for
    an id that is never negative. *)
Theorem signed_ids_and_cancel clock messages st st' :
  book_signed (order_book st) ->
  Forall well_signed (orders_of messages) ->
  matching_engine clock messages st = Continue st'
  \/ matching_engine clock messages st = Break st' ->
  book_signed (order_book st')
  /\ (forall message st'',
        matching_engine_step clock (inr message) st' = Continue st'' ->
        order_book st'' = order_book st')
  /\ (forall account side quantity price timestamp,
        well_signed
          (construct_order (order_book st') account side quantity price timestamp)).
Proof.
  intros Hbook Horders Hrun.
  assert (book_signed (order_book st')) as Hsigned.
  { apply (matching_engine_keeps (fun st => book_signed (order_book st))
             (fun data => forall order, data = inl order -> well_signed order)
             clock) with (messages := messages) (st := st); [| | done | done].
    - intros data st0 st1 Hdata Hst0 Hstep. by eapply signed_step.
    - clear -Horders. induction messages as [| [order | message] messages IH];
        [constructor | |].
      + cbn in Horders. apply Forall_cons in Horders as [Ho Horders].
        constructor; [by intros ? [= <-] | by apply IH].
      + constructor; [done | by apply IH]. }
  split; [done |]. split.
  - intros message st'' Hstep. destruct Hsigned as [Hbuy Hsell].
    by eapply cancel_message_removes_nothing.
  - intros. apply construct_order_well_signed.
Qed.

Lemma NoDup_of_submseteq {A} (l k : list A) : l ⊆+ k -> NoDup k -> NoDup l.
Proof.
  induction 1 as [| x l k Hsub IH | x y l | x l k Hsub IH | l k m _ IH1 _ IH2];
    intros Hk.
  - done.
  - apply NoDup_cons in Hk as [Hx Hk]. apply NoDup_cons. split; [| auto].
    intros Hin. apply Hx. by eapply elem_of_submseteq.
  - by rewrite (Permutation_swap x y l).
  - apply NoDup_cons in Hk as [_ Hk]. auto.
  - auto.
Qed.

Lemma match_loop_ids clock order side accounts transactions :
  (id <$> (match_loop clock order side accounts transactions).1.1.2)
  ⊆+ (id <$> side).
Proof.
  revert order accounts transactions.
  induction side as [| top rest IH]; intros order accounts transactions;
    [done |].
  rewrite match_loop_cons.
  destruct (keeps_walking order top); [| done].
  destruct (quantity top <=? quantity order); cbv zeta.
  - rewrite fmap_cons. apply submseteq_cons, IH.
  - cbn [fst snd]. rewrite emplace_Permutation. done.
Qed.

Lemma erase_first_id_ids order_id side :
  (id <$> erase_first_id order_id side) ⊆+ (id <$> side).
Proof.
  induction side as [| o side IH]; [done |]. cbn [erase_first_id].
  destruct (id o =? order_id); rewrite !fmap_cons.
  - by apply submseteq_cons.
  - by apply submseteq_skip.
Qed.

Lemma minted_id_is_new isBuy book :
  get_last_order_id isBuy book ∉ (id <$> at_key (key_of isBuy) book).
Proof.
  intros (o & Hid & Hin)%list_elem_of_fmap.
  pose proof (max_abs_id_bound _ _ Hin) as Hbound.
  rewrite get_last_order_id_formula in Hid.
  pose proof (max_abs_id_nonneg (at_key (key_of isBuy) book)).
  destruct isBuy; lia.
Qed.

Lemma ids_distinct_submit clock account side units limit created st st' :
  ids_distinct (order_book st) ->
  submit clock account side units limit created st = Continue st' ->
  ids_distinct (order_book st').
Proof.
  intros Hdistinct Hstep. unfold submit in Hstep.
  set (order := construct_order (order_book st) account side units limit
                  created) in *.
  cbn [matching_engine_step] in Hstep.
  destruct (is_allowed_order order (accounts st) (order_book st))
    as [allowed accounts1].
  destruct allowed; [| by injection Hstep as <-].
  unfold match_order in Hstep.
  pose proof (match_loop_order clock order
                (at_key (opposite_key order) (order_book st)) accounts1
                (transactions st)) as Hsame.
  pose proof (match_loop_ids clock order
                (at_key (opposite_key order) (order_book st)) accounts1
                (transactions st)) as Hids.
  destruct (match_loop _ _ _ _ _) as [[[order' side'] accounts2] transactions'].
  cbn [fst snd] in *. injection Hstep as <-. cbn [order_book].
  pose proof (minted_id_is_new (is_buy order) (order_book st)) as Hnew.
  assert (id order' = get_last_order_id (is_buy order) (order_book st)
          /\ is_buy order' = is_buy order) as [Hid Hside]
    by (by rewrite Hsame).
  destruct Hdistinct as [Hbuy Hsell].
  assert (ids_distinct (set_key (opposite_key order) side' (order_book st)))
    as Hmatched.
  { unfold opposite_key in *. destruct (is_buy order); split;
      cbn [set_key at_key buy_side sell_side] in *; try done;
      by eapply NoDup_of_submseteq. }
  destruct (0 <? quantity order'); [| done].
  destruct Hmatched as [Hbuy' Hsell'].
  unfold add_order. rewrite Hside. unfold opposite_key, key_of in *.
  destruct (is_buy order); split; cbn [set_key at_key buy_side sell_side] in *;
    try done;
    rewrite emplace_Permutation, fmap_cons; apply NoDup_cons; split;
    try done; by rewrite Hid.
Qed.

Lemma ids_distinct_remove_order order_id book :
  ids_distinct book -> ids_distinct (remove_order order_id book).
Proof.
  intros [Hbuy Hsell]. unfold remove_order. destruct (order_id =? 0); [done |].
  destruct (order_id <? 0); split; cbn [set_key at_key buy_side sell_side];
    try done; eapply NoDup_of_submseteq; eauto using erase_first_id_ids.
Qed.

(** X7.  When every order is processed by the engine before the next one
    is constructed, no two resting orders of a side have the same id: the
    id [construct_order] gives is not on its side, the order keeps it when it
    rests, and matching and cancelling only take orders away or leave them
    their id. *)
Theorem ids_stay_distinct clock st st' :
  ids_distinct (order_book st) ->
  (exists account side quantity price timestamp,
     submit clock account side quantity price timestamp st = Continue st')
  \/ (exists message, matching_engine_step clock (inr message) st = Continue st') ->
  ids_distinct (order_book st')
  /\ forall isBuy,
       get_last_order_id isBuy (order_book st')
       ∉ (id <$> at_key (key_of isBuy) (order_book st')).
Proof.
  intros Hdistinct Hstep. split; [| intros; apply minted_id_is_new].
  destruct Hstep as [(account & side & quantity & price & timestamp & Hstep)
                    | (message & Hstep)].
  - by eapply ids_distinct_submit.
  - cbn [matching_engine_step] in Hstep.
    destruct (parse_input message) as [| token0 rest]; [by injection Hstep as <- |].
    destruct (bool_decide (token0 = "exit")); [done |].
    destruct (bool_decide (token0 = "cancel")); [| by injection Hstep as <-].
    destruct rest as [| token1 rest]; [done |].
    destruct (convert_string_to_int token1) as [order_id said].
    injection Hstep as <-. by apply ids_distinct_remove_order.
Qed.

(** ** Reading and writing numbers *)

(** Evaluates the value of the digit that is being read. *)
Ltac digit_value :=
  match goal with
  | |- context [Z.of_nat (nat_of_ascii ?c) - 48] =>
      let v := eval vm_compute in (Z.of_nat (nat_of_ascii c) - 48) in
      change (Z.of_nat (nat_of_ascii c) - 48) with v
  end.

Lemma digits_value_of_uint_acc d (p : positive) :
  digits_value (Z.pos p) (list_ascii_of_string (NilEmpty.string_of_uint d))
  = Z.pos (Pos.of_uint_acc d p).
Proof.
  revert p. induction d as [| d IH | d IH | d IH | d IH | d IH | d IH | d IH
                            | d IH | d IH | d IH]; intros p;
    cbn [NilEmpty.string_of_uint list_ascii_of_string digits_value
         Pos.of_uint_acc]; [done | ..];
    digit_value;
    match goal with
    | |- digits_value ?z _ = Z.pos (Pos.of_uint_acc _ ?q) =>
        replace z with (Z.pos q) by lia
    end; apply IH.
Qed.

Lemma digits_value_of_uint d :
  digits_value 0 (list_ascii_of_string (NilEmpty.string_of_uint d))
  = Z.of_N (Pos.of_uint d).
Proof.
  induction d as [| d IH | d IH | d IH | d IH | d IH | d IH | d IH
                  | d IH | d IH | d IH];
    cbn [NilEmpty.string_of_uint list_ascii_of_string digits_value Pos.of_uint];
    [done | ..]; digit_value; [exact IH | ..];
    match goal with
    | |- digits_value ?z _ = Z.of_N (N.pos (Pos.of_uint_acc _ ?q)) =>
        change z with (Z.pos q)
    end; apply digits_value_of_uint_acc.
Qed.

Lemma digits_of_uint d :
  forallb is_digit (list_ascii_of_string (NilEmpty.string_of_uint d)) = true.
Proof.
  induction d; cbn [NilEmpty.string_of_uint list_ascii_of_string forallb];
    [done | ..]; rewrite IHd; reflexivity.
Qed.

Lemma string_of_to_uint (p : positive) :
  NilZero.string_of_uint (Pos.to_uint p) = NilEmpty.string_of_uint (Pos.to_uint p)
  /\ list_ascii_of_string (NilEmpty.string_of_uint (Pos.to_uint p)) <> [].
Proof.
  pose proof (DecimalPos.Unsigned.to_uint_nonnil p) as Hnonnil.
  destruct (Pos.to_uint p); [done | ..]; split; done.
Qed.

(** X8.  What [convert_int_to_string] writes for an [int] from 0 to
    [INT_MAX], [convert_string_to_int] reads back as that number, without a
    message.  What it writes for a negative number starts with a minus
    sign, which [convert_string_to_int] refuses: it returns 0 and writes its
    message. *)
Theorem convert_int_round_trip n :
  (0 <= n <= INT_MAX ->
   convert_string_to_int (convert_int_to_string n) = (n, []))
  /\ (n < 0 ->
      convert_string_to_int (convert_int_to_string n)
      = (0, ["Invalid input: non-numeric characters found"])).
Proof.
  unfold convert_int_to_string, convert_string_to_int. split; intros Hn.
  - destruct n as [| p | p]; [reflexivity | | lia].
    cbn [Z.to_int NilZero.string_of_int].
    destruct (string_of_to_uint p) as [-> Hnonempty].
    rewrite digits_of_uint, digits_value_of_uint, DecimalPos.Unsigned.of_to.
    destruct (list_ascii_of_string _); [done |].
    cbn [Z.of_N]. by destruct (Z.leb_spec (Z.pos p) INT_MAX); [| lia].
  - destruct n as [| p | p]; [lia | lia |].
    cbn [Z.to_int NilZero.string_of_int]. reflexivity.
Qed.

(** X9.  [convert_string_to_int] returns a number from 0 to [INT_MAX], never
    a negative one.  It writes its message exactly when the input has a
    character that is not a digit, and then returns 0; the empty input and
    a number above [INT_MAX] give 0 without a message. *)
Theorem convert_string_to_int_range input :
  0 <= (convert_string_to_int input).1 <= INT_MAX
  /\ ((convert_string_to_int input).2 = []
      <-> forallb is_digit (list_ascii_of_string input) = true)
  /\ ((convert_string_to_int input).2 <> [] ->
      convert_string_to_int input
      = (0, ["Invalid input: non-numeric characters found"]))
  /\ (input = "" -> convert_string_to_int input = (0, []))
  /\ (forallb is_digit (list_ascii_of_string input) = true ->
      INT_MAX < digits_value 0 (list_ascii_of_string input) ->
      convert_string_to_int input = (0, [])).
Proof.
  unfold convert_string_to_int.
  destruct (forallb is_digit (list_ascii_of_string input)) eqn:Hdigits.
  - destruct (list_ascii_of_string input) as [| c cs] eqn:Hcs.
    + repeat split; done.
    + pose proof (digits_value_nonneg 0 (c :: cs) (Z.le_refl 0) Hdigits).
      destruct (Z.leb_spec (digits_value 0 (c :: cs)) INT_MAX);
        repeat split; cbn [fst snd]; try done; try lia;
        try (unfold INT_MAX; lia);
        by intros ->.
  - repeat split; cbn [fst snd]; try done; try (unfold INT_MAX; lia).
    by intros ->.
Qed.

(** ** Splitting a line into tokens *)

Lemma list_ascii_of_string_app s1 s2 :
  list_ascii_of_string (s1 +:+ s2)
  = list_ascii_of_string s1 ++ list_ascii_of_string s2.
Proof. induction s1 as [| c s1 IH]; [done |]. simpl. f_equal. exact IH. Qed.

Lemma forallb_rev {A} (p : A -> bool) (l : list A) :
  forallb p (rev l) = forallb p l.
Proof.
  induction l as [| x l IH]; [done |]. cbn [rev forallb].
  rewrite forallb_app, IH. cbn [forallb]. rewrite andb_true_r. apply andb_comm.
Qed.

Lemma mjoin_cons {A} (l : list A) (ls : list (list A)) :
  mjoin (l :: ls) = l ++ mjoin ls.
Proof. reflexivity. Qed.

Lemma string_of_list_ascii_nonempty c cs : string_of_list_ascii (c :: cs) <> "".
Proof. done. Qed.

Lemma is_token_of_list cs :
  cs <> [] -> forallb (fun c => negb (isspace c)) cs = true ->
  is_token (string_of_list_ascii cs).
Proof.
  intros Hne Hclean. split.
  - by destruct cs.
  - by rewrite list_ascii_of_string_of_list_ascii.
Qed.

Lemma tokens_of_spec cur s :
  forallb (fun c => negb (isspace c)) cur = true ->
  Forall is_token (tokens_of cur s)
  /\ mjoin (list_ascii_of_string <$> tokens_of cur s)
     = rev cur ++ filter (fun c => isspace c = false) s.
Proof.
  revert cur. induction s as [| c s IH]; intros cur Hcur.
  - cbn [tokens_of]. destruct cur as [| c0 cur]; [done |]. split.
    + constructor; [| constructor]. apply is_token_of_list.
      * intros Hnil. apply (f_equal (@length ascii)) in Hnil.
        rewrite length_rev in Hnil. done.
      * by rewrite forallb_rev.
    + cbn. by rewrite list_ascii_of_string_of_list_ascii, !app_nil_r.
  - cbn [tokens_of]. rewrite filter_cons.
    destruct (isspace c) eqn:Hspace.
    + rewrite decide_False by done.
      destruct cur as [| c0 cur]; [by apply (IH []) |].
      destruct (IH [] eq_refl) as [Htokens Hjoin]. split.
      * constructor; [| done]. apply is_token_of_list.
        -- intros Hnil. apply (f_equal (@length ascii)) in Hnil.
           rewrite length_rev in Hnil. done.
        -- by rewrite forallb_rev.
      * by rewrite fmap_cons, mjoin_cons, Hjoin,
             list_ascii_of_string_of_list_ascii.
    + rewrite decide_True by done.
      destruct (IH (c :: cur)) as [Htokens Hjoin].
      { cbn [forallb]. by rewrite Hspace. }
      split; [done |]. rewrite Hjoin. cbn [rev]. by rewrite <- app_assoc.
Qed.

(** X10.  [parse_input] cuts a line at its white space and loses nothing
    else: every token is non-empty and free of white space, and the tokens
    put end to end are the characters of the line that are not white space,
    in their order.  A line of white space only has no tokens. *)
Theorem parse_input_tokens input :
  Forall (fun t => t <> ""
                   /\ forallb (fun c => negb (isspace c))
                        (list_ascii_of_string t) = true)
         (parse_input input)
  /\ mjoin (list_ascii_of_string <$> parse_input input)
     = filter (fun c => isspace c = false) (list_ascii_of_string input)
  /\ (parse_input input = []
      <-> forallb isspace (list_ascii_of_string input) = true).
Proof.
  destruct (tokens_of_spec [] (list_ascii_of_string input) eq_refl)
    as [Htokens Hjoin].
  split; [exact Htokens | split; [exact Hjoin |]].
  unfold parse_input in *. split.
  - intros Hnone. rewrite Hnone in Hjoin. cbn in Hjoin.
    symmetry in Hjoin. clear -Hjoin.
    induction (list_ascii_of_string input) as [| c cs IH]; [done |].
    rewrite filter_cons in Hjoin. cbn [forallb].
    destruct (isspace c); [| by rewrite decide_True in Hjoin].
    rewrite decide_False in Hjoin by done. by apply IH.
  - intros Hspaces.
    assert (filter (fun c => isspace c = false) (list_ascii_of_string input) = [])
      as Hempty.
    { clear -Hspaces.
      induction (list_ascii_of_string input) as [| c cs IH]; [done |].
      cbn [forallb] in Hspaces. apply andb_true_iff in Hspaces as [Hc Hcs].
      rewrite filter_cons, decide_False by (by rewrite Hc). by apply IH. }
    rewrite Hempty in Hjoin.
    destruct (tokens_of [] (list_ascii_of_string input)) as [| t ts]; [done |].
    apply Forall_cons in Htokens as [[Hne _] _].
    rewrite fmap_cons, mjoin_cons in Hjoin.
    apply app_eq_nil in Hjoin as [Ht _]. exfalso. apply Hne.
    by rewrite <- (string_of_list_ascii_of_string t), Ht.
Qed.

Lemma tokens_of_word w cur rest :
  forallb (fun c => negb (isspace c)) w = true ->
  tokens_of cur (w ++ rest) = tokens_of (rev w ++ cur) rest.
Proof.
  revert cur. induction w as [| c w IH]; intros cur Hw; [done |].
  cbn [forallb] in Hw. apply andb_true_iff in Hw as [Hc Hw].
  cbn [app tokens_of rev]. apply negb_true_iff in Hc. rewrite Hc.
  rewrite IH by done. by rewrite <- app_assoc.
Qed.

Lemma parse_input_concat tokens :
  Forall is_token tokens -> parse_input (String.concat " " tokens) = tokens.
Proof.
  unfold parse_input.
  induction 1 as [| t tokens [Hne Hclean] Htokens IH]; [done |].
  assert (exists c cs, list_ascii_of_string t = c :: cs) as (c & cs & Ht).
  { destruct t; [done | cbn; eauto]. }
  destruct tokens as [| t' tokens].
  - cbn [String.concat].
    rewrite <- (app_nil_r (list_ascii_of_string t)), tokens_of_word by done.
    cbn [tokens_of]. rewrite app_nil_r, Ht.
    destruct (rev (c :: cs)) eqn:Hrev.
    + apply (f_equal (@length ascii)) in Hrev. by rewrite length_rev in Hrev.
    + by rewrite <- Hrev, rev_involutive, <- Ht, string_of_list_ascii_of_string.
  - change (String.concat " " (t :: t' :: tokens))
      with (t +:+ " " +:+ String.concat " " (t' :: tokens)).
    rewrite !list_ascii_of_string_app, tokens_of_word by done.
    change (list_ascii_of_string " ") with [" "%char].
    cbn [app tokens_of]. change (isspace " ") with true. cbn iota.
    rewrite app_nil_r, Ht.
    destruct (rev (c :: cs)) eqn:Hrev.
    + apply (f_equal (@length ascii)) in Hrev. by rewrite length_rev in Hrev.
    + rewrite <- Hrev, rev_involutive, <- Ht, string_of_list_ascii_of_string.
      f_equal. exact IH.
Qed.

(** X11.  [parse_input] undoes the joining of tokens with a space: tokens
    that are non-empty and free of white space, joined by single spaces,
    are read back as they were.  So the message [command_router] builds
    from the two tokens of a cancel command, and any line built from tokens
    [parse_input] has returned, is split into those tokens again. *)
Theorem parse_input_round_trip :
  (forall tokens,
     Forall (fun t => t <> ""
                      /\ forallb (fun c => negb (isspace c))
                           (list_ascii_of_string t) = true) tokens ->
     parse_input (String.concat " " tokens) = tokens)
  /\ (forall line, parse_input (String.concat " " (parse_input line))
                   = parse_input line)
  /\ (forall line token1 token2 rest,
        parse_input line = token1 :: token2 :: rest ->
        parse_input (cancel_message token1 token2) = [token1; token2]).
Proof.
  split; [exact parse_input_concat | split].
  - intros line. apply parse_input_concat.
    by destruct (tokens_of_spec [] (list_ascii_of_string line) eq_refl).
  - intros line token1 token2 rest Hline.
    change (cancel_message token1 token2)
      with (String.concat " " [token1; token2]).
    apply parse_input_concat.
    destruct (tokens_of_spec [] (list_ascii_of_string line) eq_refl)
      as [Htokens _].
    unfold parse_input in Hline. rewrite Hline in Htokens.
    apply Forall_cons in Htokens as [H1 Htokens].
    apply Forall_cons in Htokens as [H2 _].
    apply Forall_cons_2; [exact H1 |].
    apply Forall_cons_2; [exact H2 | apply Forall_nil_2].
Qed.

(** ** [pretty_print] *)

Lemma length_append_string (s1 s2 : string) :
  String.length (s1 +:+ s2) = (String.length s1 + String.length s2)%nat.
Proof. induction s1 as [| c s1 IH]; [done |]. simpl. f_equal. exact IH. Qed.

Lemma length_white_space count : String.length (white_space count) = count.
Proof. induction count as [| count IH]; [done |]. simpl. f_equal. exact IH. Qed.

Lemma pretty_print_too_long (input : string) (width : Z) :
  - INT_MAX - 1 <= width <= INT_MAX ->
  Z.of_nat (String.length input) < 2 ^ 62 ->
  width < Z.of_nat (String.length input) ->
  pretty_print input width = None.
Proof.
  intros Hwidth Hlength Hlong. unfold pretty_print, SIZE_RANGE, INT_MAX in *.
  set (len := Z.of_nat (String.length input)) in *.
  replace ((width - len) mod 2 ^ 64) with (2 ^ 64 + (width - len)).
  - assert (2 ^ 62 <= (2 ^ 64 + (width - len)) / 2) as Hhalf
      by (apply Z.div_le_lower_bound; lia).
    destruct (Z.leb_spec ((2 ^ 64 + (width - len)) / 2) 2147483647); [lia | done].
  - apply Z.mod_unique with (q := -1); lia.
Qed.

(** X12.  [pretty_print] centres its input: when the input is not longer
    than the width, the result is the input between [(width - length) / 2]
    spaces on each side, with one more space in front when the difference is
    odd, and its length is exactly the width.  When the input is longer than
    the width, the difference wraps around as a [size_t] and the loop counter,
    an [int], would have to pass [INT_MAX]: the call has no defined result
    (the input is not truncated and not returned as it is). *)
Theorem pretty_print_width (input : string) (width : Z) :
  - INT_MAX - 1 <= width <= INT_MAX ->
  Z.of_nat (String.length input) < 2 ^ 62 ->
  (Z.of_nat (String.length input) <= width ->
     exists out,
       pretty_print input width = Some out
       /\ Z.of_nat (String.length out) = width
       /\ let extra := width - Z.of_nat (String.length input) in
          out = white_space (Z.to_nat (extra / 2 + extra mod 2)) +:+ input
                +:+ white_space (Z.to_nat (extra / 2)))
  /\ (width < Z.of_nat (String.length input) -> pretty_print input width = None).
Proof.
  intros Hwidth Hlength.
  split; [| intros Hlong; by apply pretty_print_too_long].
  unfold pretty_print, SIZE_RANGE, INT_MAX in *.
  set (len := Z.of_nat (String.length input)) in *.
  - intros Hfits. rewrite (Z.mod_small (width - len)) by lia.
    assert (0 <= (width - len) / 2 <= 2147483647) as Hhalf.
    { split; [apply Z.div_pos; lia | apply Z.div_le_upper_bound; lia]. }
    destruct (Z.leb_spec ((width - len) / 2) 2147483647) as [_ | ?]; [| lia].
    eexists. split; [reflexivity |].
    pose proof (Z.div_mod (width - len) 2 ltac:(lia)) as Hdiv.
    pose proof (Z.mod_pos_bound (width - len) 2 ltac:(lia)) as Hmod.
    split.
    + rewrite !length_append_string, !length_white_space.
      fold len. destruct (Z.eqb_spec ((width - len) mod 2) 0); cbn; lia.
    + cbv zeta. destruct (Z.eqb_spec ((width - len) mod 2) 0) as [Heven | Hodd].
      * by rewrite Heven, Z.add_0_r.
      * replace ((width - len) mod 2) with 1 by lia.
        replace (Z.to_nat ((width - len) / 2 + 1))
          with (S (Z.to_nat ((width - len) / 2))) by lia.
        reflexivity.
Qed.

Lemma pretty_print_width_witness :
  (exists out,
     pretty_print "alice" 16 = Some out
     /\ Z.of_nat (String.length out) = 16
     /\ let extra := 16 - Z.of_nat (String.length "alice") in
        out = white_space (Z.to_nat (extra / 2 + extra mod 2)) +:+ "alice"
              +:+ white_space (Z.to_nat (extra / 2)))
  /\ pretty_print "a-very-long-account-name" 16 = None.
Proof.
  split.
  - apply (pretty_print_width "alice" 16); vm_compute; [by split | done | done].
  - apply (pretty_print_width "a-very-long-account-name" 16);
      vm_compute; [by split | done | done].
Defined.

(** ** The command line *)

Lemma digit_not_space c : is_digit c = true -> isspace c = false.
Proof.
  unfold is_digit, isspace. intros Hc.
  apply andb_true_iff in Hc as [Hlow Hhigh].
  apply Nat.leb_le in Hlow. apply Nat.leb_le in Hhigh.
  apply orb_false_iff. split.
  - apply Nat.eqb_neq. lia.
  - apply andb_false_iff. right. apply Nat.leb_gt. lia.
Qed.

Lemma digits_are_a_token token :
  token <> "" -> forallb is_digit (list_ascii_of_string token) = true ->
  is_token token.
Proof.
  intros Hne Hdigits. split; [done |].
  apply forallb_forall. intros c Hc.
  rewrite forallb_forall in Hdigits.
  by rewrite (digit_not_space c (Hdigits c Hc)).
Qed.

Lemma convert_string_to_int_nonzero token k said :
  convert_string_to_int token = (k, said) -> k <> 0 ->
  said = [] /\ 1 <= k <= INT_MAX /\ token <> ""
  /\ forallb is_digit (list_ascii_of_string token) = true.
Proof.
  unfold convert_string_to_int. intros Hread Hk.
  destruct (forallb is_digit (list_ascii_of_string token)) eqn:Hdigits;
    [| by injection Hread as <- <-].
  destruct (list_ascii_of_string token) as [| c cs] eqn:Hcs;
    [by injection Hread as <- <- |].
  destruct (Z.leb_spec (digits_value 0 (c :: cs)) INT_MAX) as [Hmax | Hmax];
    [| by injection Hread as <- <-].
  injection Hread as <- <-.
  pose proof (digits_value_nonneg 0 (c :: cs) ltac:(done) Hdigits).
  split; [done |]. split; [cbn [digits_value] in *; lia |].
  split; [by intros -> | done].
Qed.

Lemma cancel_message_parsed token2 :
  token2 <> "" -> forallb is_digit (list_ascii_of_string token2) = true ->
  parse_input (cancel_message "cancel" token2) = ["cancel"; token2].
Proof.
  intros Hne Hdigits.
  change (cancel_message "cancel" token2)
    with (String.concat " " ["cancel"; token2]).
  apply parse_input_concat.
  apply Forall_cons_2; [by split |].
  apply Forall_cons_2; [by apply digits_are_a_token | apply Forall_nil_2].
Qed.

Lemma convert_string_to_int_bounds input :
  0 <= (convert_string_to_int input).1 <= INT_MAX.
Proof.
  split; [apply convert_string_to_int_nonneg |].
  unfold convert_string_to_int.
  destruct (forallb is_digit (list_ascii_of_string input)); [| done].
  destruct (list_ascii_of_string input) as [| c cs]; [done |].
  by destruct (Z.leb_spec (digits_value 0 (c :: cs)) INT_MAX).
Qed.

Lemma order_goes_on order : goes_on (inl order).
Proof.
  intros clock st. cbn [matching_engine_step].
  destruct (is_allowed_order _ _ _) as [[] accounts1]; [| eauto].
  destruct (match_order _ _ _ _ _) as [[[? ?] ?] ?]. eauto.
Qed.

Lemma cancel_goes_on token2 :
  token2 <> "" -> forallb is_digit (list_ascii_of_string token2) = true ->
  goes_on (inr (cancel_message "cancel" token2)).
Proof.
  intros Hne Hdigits clock st. cbn [matching_engine_step].
  rewrite cancel_message_parsed by done.
  rewrite bool_decide_eq_false_2, bool_decide_eq_true_2 by done.
  destruct (convert_string_to_int token2). eauto.
Qed.

Lemma command_router_pushed stod insert_double now input_tokens st st' pushed :
  command_router stod insert_double now input_tokens st = Some (st', pushed) ->
  order_book st' = order_book st
  /\ transactions st' = transactions st
  /\ (pushed = []
      \/ exists data, pushed = [data] /\ routed_message (order_book st) now data).
Proof.
  unfold command_router. intros Hrouted.
  repeat (case_match; try done); simplify_option_eq.
  all: try (split; [done |]; split; [done |]; by left).
  - split; [done |]. split; [done |]. right. eexists. split; [done |].
    match goal with
    | Hread : convert_string_to_int ?token2 = (?order_id, _),
      Hid : (?order_id =? 0) = false |- _ =>
        apply Z.eqb_neq in Hid;
        destruct (convert_string_to_int_nonzero _ _ _ Hread Hid) as (-> & ? & _);
        by exists token2, order_id
    end.
  - split; [done |]. split; [done |]. right. eexists. split; [done |].
    match goal with
    | Hread : convert_string_to_int ?token4 = (_, _) |- _ =>
        pose proof (convert_string_to_int_bounds token4) as Hunits;
        rewrite Hread in Hunits
    end.
    do 4 eexists. split; [reflexivity | exact Hunits].
Qed.

Lemma routed_message_goes_on book now data :
  routed_message book now data -> goes_on data.
Proof.
  destruct data as [order | message]; [intros _; apply order_goes_on |].
  intros (token2 & order_id & -> & Hread & Hid).
  destruct (convert_string_to_int_nonzero _ _ _ Hread ltac:(lia))
    as (_ & _ & Hne & Hdigits).
  by apply cancel_goes_on.
Qed.

(** X15.  What a call of [command_router] can do to the account table: only
    the account named by the second token can change; no coin balance
    changes (a new account starts with 0); only [create] makes an account,
    so a command for an account that does not exist leaves it absent; and
    [create] for an account that exists leaves its balances as they are. *)
Theorem command_router_accounts stod insert_double now input_tokens st st' pushed :
  command_router stod insert_double now input_tokens st = Some (st', pushed) ->
  (forall name, input_tokens !! 1%nat <> Some name ->
                accounts st' !! name = accounts st !! name)
  /\ (forall name details',
        accounts st' !! name = Some details' ->
        coin_balance details' = coin_balance (subscript name (accounts st)))
  /\ (input_tokens !! 2%nat <> Some "create" ->
      forall name, accounts st !! name = None -> accounts st' !! name = None)
  /\ (forall name details,
        input_tokens !! 1%nat = Some name -> input_tokens !! 2%nat = Some "create" ->
        accounts st !! name = Some details -> accounts st' = accounts st).
Proof.
  unfold command_router. intros Hrouted.
  repeat (case_match; try done); simplify_option_eq.
  all: cbn [accounts say complain with_accounts lookup list_lookup].
  all: try (split; [done |]; split;
            [intros name details' Hname; unfold subscript; by rewrite Hname |];
            split; [done |]; done).
  - (* create *)
    unfold touch, subscript. repeat split.
    + intros name Hname. destruct (accounts st !! _); [done |].
      rewrite lookup_insert_ne; [done | congruence].
    + intros name details'.
      destruct (accounts st !! s0) eqn:Hs0; [by intros -> |].
      destruct (decide (s0 = name)) as [<- | Hne].
      * rewrite lookup_insert_eq, Hs0. by intros [= <-].
      * rewrite lookup_insert_ne by done. by intros ->.
    + done.
    + intros name details [= <-] _ Hname. by rewrite Hname.
  - (* delete *)
    repeat split.
    + intros name Hname. rewrite lookup_delete_ne; [done | congruence].
    + intros name details'. destruct (decide (s0 = name)) as [<- | Hne].
      * by rewrite lookup_delete_eq.
      * rewrite lookup_delete_ne by done. unfold subscript. by intros ->.
    + intros _ name Hname. destruct (decide (s0 = name)) as [<- | Hne].
      * by rewrite lookup_delete_eq.
      * by rewrite lookup_delete_ne.
    + done.
  - (* fund *)
    unfold add_usd. repeat split.
    + intros name Hname. rewrite lookup_insert_ne; [done | congruence].
    + intros name details'. destruct (decide (s0 = name)) as [<- | Hne].
      * rewrite lookup_insert_eq. by intros [= <-].
      * rewrite lookup_insert_ne by done. unfold subscript. by intros ->.
    + intros _ name Hname. rewrite lookup_insert_ne; [done | congruence].
    + done.
  - (* withdraw *)
    unfold sub_usd. repeat split.
    + intros name Hname. rewrite lookup_insert_ne; [done | congruence].
    + intros name details'. destruct (decide (s0 = name)) as [<- | Hne].
      * rewrite lookup_insert_eq. by intros [= <-].
      * rewrite lookup_insert_ne by done. unfold subscript. by intros ->.
    + intros _ name Hname. rewrite lookup_insert_ne; [done | congruence].
    + done.
Qed.

(** ** The two threads *)

Lemma commander_turn_keeps stod insert_double now p p' :
  commander_turn stod insert_double now p = Some p' ->
  engine_running p' = engine_running p
  /\ order_book (shared p') = order_book (shared p)
  /\ transactions (shared p') = transactions (shared p)
  /\ exists pushed,
       message_queue p' = message_queue p ++ pushed
       /\ Forall goes_on pushed.
Proof.
  unfold commander_turn. intros Hturn.
  destruct (commander_running p); [| done].
  destruct (cin p) as [| input cin'].
  { injection Hturn as <-. cbn. repeat split. exists []. by rewrite app_nil_r. }
  destruct (parse_input input) as [| token0 tokens1].
  { injection Hturn as <-. cbn. repeat split. exists []. by rewrite app_nil_r. }
  destruct (bool_decide (token0 = "exit")).
  { injection Hturn as <-. cbn. repeat split. exists []. by rewrite app_nil_r. }
  destruct (command_router _ _ _ _ _) as [[st' pushed] |] eqn:Hrouted; [| done].
  cbn in Hturn. injection Hturn as <-. cbn.
  destruct (command_router_pushed _ _ _ _ _ _ _ Hrouted)
    as (Hbook & Hlog & Hpushed).
  repeat split; [done | done |]. exists pushed. split; [done |].
  destruct Hpushed as [-> | (data & -> & Hdata)]; [done |].
  apply Forall_cons_2; [| done]. by eapply routed_message_goes_on.
Qed.

Lemma engine_turn_possible clock p data queue' :
  engine_running p = true -> message_queue p = data :: queue' -> goes_on data ->
  exists st',
    matching_engine_step clock data (shared p) = Continue st'
    /\ engine_turn clock p
       = Some {| shared := st'; message_queue := queue'; cin := cin p;
                 commander_running := commander_running p;
                 engine_running := true |}.
Proof.
  intros Hrunning Hqueue Hdata. destruct (Hdata clock (shared p)) as [st' Hstep].
  exists st'. split; [done |].
  unfold engine_turn. by rewrite Hrunning, Hqueue, Hstep.
Qed.

Lemma take_turn_keeps stod insert_double t p p' :
  engine_running p = true -> Forall goes_on (message_queue p) ->
  take_turn stod insert_double t p = Some p' ->
  engine_running p' = true /\ Forall goes_on (message_queue p').
Proof.
  intros Hrunning Hqueue Hturn. destruct t as [now | clock]; cbn in Hturn.
  - destruct (commander_turn_keeps _ _ _ _ _ Hturn)
      as (Hsame & _ & _ & pushed & -> & Hpushed).
    split; [congruence | by apply Forall_app].
  - destruct (message_queue p) as [| data queue'] eqn:Hq.
    { unfold engine_turn in Hturn. by rewrite Hrunning, Hq in Hturn. }
    apply Forall_cons in Hqueue as [Hdata Hqueue].
    destruct (engine_turn_possible clock p data queue' Hrunning Hq Hdata)
      as (st' & _ & Hgoes).
    rewrite Hgoes in Hturn. by injection Hturn as <-.
Qed.

Lemma run_threads_keeps stod insert_double turns p p' :
  engine_running p = true -> Forall goes_on (message_queue p) ->
  run_threads stod insert_double turns p = Some p' ->
  engine_running p' = true /\ Forall goes_on (message_queue p').
Proof.
  revert p. induction turns as [| t turns IH]; intros p Hrunning Hqueue Hrun.
  - by injection Hrun as <-.
  - cbn [run_threads] in Hrun.
    destruct (take_turn _ _ t p) as [p1 |] eqn:Hturn; [| done].
    destruct (take_turn_keeps _ _ _ _ _ Hrunning Hqueue Hturn) as [H1 H2].
    by apply (IH p1).
Qed.

(** X13.  What a call of [command_router] can do to the engine's side of
    the state: it never changes the book or the log, and it pushes nothing
    or one message.  A pushed message is an order [construct_order] has
    made from the book of that moment with a quantity from 0 to [INT_MAX],
    or the text [cancel N] with N from 1 to [INT_MAX]; in both cases the
    engine takes the message and goes on with its loop, whatever its state
    is then. *)
Theorem command_router_pushes stod insert_double now input_tokens st st' pushed :
  command_router stod insert_double now input_tokens st = Some (st', pushed) ->
  order_book st' = order_book st
  /\ transactions st' = transactions st
  /\ (pushed = []
      \/ exists data,
           pushed = [data]
           /\ match data with
              | inl order =>
                  exists account side units at_price,
                    order = construct_order (order_book st) account side
                              units at_price now
                    /\ 0 <= units <= INT_MAX
              | inr message =>
                  exists token2 order_id,
                    message = cancel_message "cancel" token2
                    /\ convert_string_to_int token2 = (order_id, [])
                    /\ 1 <= order_id <= INT_MAX
              end
           /\ forall clock st1,
                exists st2, matching_engine_step clock data st1 = Continue st2).
Proof.
  intros Hrouted.
  destruct (command_router_pushed _ _ _ _ _ _ _ Hrouted)
    as (Hbook & Hlog & Hpushed).
  split; [done |]. split; [done |].
  destruct Hpushed as [-> | (data & -> & Hdata)]; [by left |].
  right. exists data. split; [done |]. split; [exact Hdata |].
  by eapply routed_message_goes_on.
Qed.

(** X14.  The engine thread never leaves its loop.  Whatever is typed and
    however the two threads take turns, [command_router] pushes no message
    that starts with [exit] (the commander stops at such a line without
    pushing anything) and no [cancel] without an id; so [matching_engine]
    is still running in every state of the process, its next message, when
    there is one, is taken without undefined behaviour, and the second
    [join] of [main] does not return. *)
Theorem engine_never_leaves_its_loop stod insert_double turns st input p :
  run_threads stod insert_double turns (main_start st input) = Some p ->
  engine_running p = true
  /\ main_returns p = false
  /\ forall clock, message_queue p <> [] -> is_Some (engine_turn clock p).
Proof.
  intros Hrun.
  destruct (run_threads_keeps stod insert_double turns (main_start st input) p)
    as [Hrunning Hqueue]; [done | apply Forall_nil_2 | done |].
  split; [done |]. split.
  - unfold main_returns. rewrite Hrunning. apply andb_false_r.
  - intros clock Hne. destruct (message_queue p) as [| data queue'] eqn:Hq; [done |].
    apply Forall_cons in Hqueue as [Hdata _].
    destruct (engine_turn_possible clock p data queue' Hrunning Hq Hdata)
      as (st' & _ & ->).
    done.
Qed.

(** ** The tables *)

Lemma transaction_rows_spec insert_double account num_transactions i log :
  transaction_rows insert_double account num_transactions i log
  = mapM (transaction_row insert_double)
      (take (Z.to_nat (num_transactions - i)) (filter (involves account) log)).
Proof.
  revert i. induction log as [| t log IH]; intros i.
  { cbn. by rewrite take_nil. }
  cbn [transaction_rows].
  destruct (Z.ltb_spec i num_transactions) as [Hi | Hi].
  - replace (Z.to_nat (num_transactions - i))
      with (S (Z.to_nat (num_transactions - (i + 1)))) by lia.
    destruct (decide (involves account t)) as [Ht | Ht].
    + rewrite filter_cons_True by done. cbn [take mapM].
      rewrite <- IH.
      destruct (decide (account = "")) as [-> | Hne].
      * rewrite bool_decide_eq_true_2 by done. done.
      * rewrite (bool_decide_eq_false_2 (account = "")) by done.
        destruct Ht as [? | Ht]; [done |]. cbn [negb andb].
        assert (bool_decide (buyer t = account)
                || bool_decide (seller t = account) = true) as ->; [| done].
        apply orb_true_iff.
        destruct Ht; [left | right]; by apply bool_decide_eq_true_2.
    + rewrite filter_cons_False by done.
      replace (S (Z.to_nat (num_transactions - (i + 1))))
        with (Z.to_nat (num_transactions - i)) by lia.
      rewrite <- IH. unfold involves in Ht.
      rewrite (bool_decide_eq_false_2 (account = "")) by tauto.
      rewrite (bool_decide_eq_false_2 (buyer t = account)) by tauto.
      by rewrite (bool_decide_eq_false_2 (seller t = account)) by tauto.
  - replace (Z.to_nat (num_transactions - i)) with 0%nat by lia. done.
Qed.

(** X16.  [print_transactions] writes its three heading lines and then the
    newest transactions first: the rows are those of the first
    [num_transactions] entries of the log read backwards and restricted to
    the transactions the account has bought or sold in (to all of them for
    the empty account name).  A count of 0 or less, which is also what a
    count that is not a number is read as, gives the heading alone. *)
Theorem print_transactions_newest_first insert_double account num_transactions log :
  exists header,
    cells ACCOUNT_TABLE_WIDTH
      ["Timestamp"; "Aggressor"; "Buyer"; "Seller"; "Quantity"; "Price"]
    = Some header
    /\ print_transactions insert_double account num_transactions log
       = (rows ← mapM (transaction_row insert_double)
                  (take (Z.to_nat num_transactions)
                     (filter (fun t => account = "" \/ buyer t = account
                                       \/ seller t = account) (rev log)));
          Some (["-------------------- TRANSACTIONS ------------------";
                 if bool_decide (account = "") then "All Transactions"
                 else "Account: " +:+ account;
                 header] ++ rows))
    /\ (num_transactions <= 0 ->
        print_transactions insert_double account num_transactions log
        = Some ["-------------------- TRANSACTIONS ------------------";
                if bool_decide (account = "") then "All Transactions"
                else "Account: " +:+ account;
                header])
    /\ forall lines,
         print_transactions insert_double account num_transactions log = Some lines ->
         (length lines <= 3 + Z.to_nat num_transactions)%nat.
Proof.
  destruct (cells ACCOUNT_TABLE_WIDTH
              ["Timestamp"; "Aggressor"; "Buyer"; "Seller"; "Quantity"; "Price"])
    as [header |] eqn:Hheader; [| by vm_compute in Hheader].
  exists header. split; [done |].
  unfold print_transactions. rewrite Hheader. cbn [mbind option_bind].
  rewrite transaction_rows_spec, Z.sub_0_r.
  split; [done |]. split.
  - intros Hnone. replace (Z.to_nat num_transactions) with 0%nat by lia. done.
  - intros lines Hlines.
    destruct (mapM _ _) as [rows |] eqn:Hrows; [| done].
    injection Hlines as <-. apply length_mapM in Hrows.
    rewrite length_take in Hrows. cbn [length app]. lia.
Qed.

(** ** The price levels of [print_order_book] *)

Lemma orders_by_price_folds buys sells buy_levels sell_levels :
  orders_by_price buys sells buy_levels sell_levels
  = (fold_left (fun levels o => level_add (price o) (quantity o) levels)
       buys buy_levels,
     fold_left (fun levels o => level_add (price o) (quantity o) levels)
       sells sell_levels).
Proof.
  revert sells buy_levels sell_levels.
  induction buys as [| buy buys IH]; intros sells buy_levels sell_levels; [done |].
  destruct sells as [| sell sells]; cbn [orders_by_price fold_left]; by rewrite IH.
Qed.

Lemma double_neither_lt x y :
  ordered x -> ordered y ->
  PrimFloat.ltb x y = false -> PrimFloat.ltb y x = false ->
  PrimFloat.eqb x y = true.
Proof.
  intros Hx Hy Hxy Hyx. destruct (double_total x y Hx Hy) as [H | [H | H]];
    [congruence | done | congruence].
Qed.

Lemma double_eq_same x y z :
  PrimFloat.eqb x y = true -> PrimFloat.eqb x z = PrimFloat.eqb y z.
Proof.
  intros Hxy. destruct (PrimFloat.eqb y z) eqn:Hyz.
  - by apply double_eq_trans with y.
  - apply not_true_iff_false. intros Hxz. apply not_true_iff_false in Hyz.
    apply Hyz. apply double_eq_trans with x; [by apply double_eq_sym | done].
Qed.

Lemma levels_quantity_add at_price units levels :
  levels_quantity (level_add at_price units levels)
  = levels_quantity levels + units.
Proof.
  unfold levels_quantity.
  induction levels as [| [p q] levels IH]; cbn [level_add]; [cbn; lia |].
  destruct (PrimFloat.ltb at_price p); [cbn; lia |].
  destruct (PrimFloat.ltb p at_price); cbn [foldr snd] in *; lia.
Qed.

Lemma level_add_keys (P : double -> Prop) at_price units levels :
  P at_price -> Forall (fun level => P level.1) levels ->
  Forall (fun level => P level.1) (level_add at_price units levels).
Proof.
  intros Hp. induction 1 as [| [p q] levels Hpq Hlevels IH]; cbn [level_add].
  - by apply Forall_cons_2.
  - destruct (PrimFloat.ltb at_price p).
    + apply Forall_cons_2; [done |]. by apply Forall_cons_2.
    + destruct (PrimFloat.ltb p at_price); by apply Forall_cons_2.
Qed.

Lemma level_add_sorted at_price units levels :
  ordered at_price -> Forall (fun level => ordered level.1) levels ->
  StronglySorted price_lt levels ->
  StronglySorted price_lt (level_add at_price units levels).
Proof.
  intros Hp Hkeys Hsorted.
  induction Hsorted as [| [p q] levels Hsorted IH Hfirst]; cbn [level_add].
  - apply SSorted_cons; [apply SSorted_nil | done].
  - apply Forall_cons in Hkeys as [Hpo Hkeys]. cbn [fst] in Hpo.
    destruct (PrimFloat.ltb at_price p) eqn:Hlt.
    + apply SSorted_cons; [by apply SSorted_cons |].
      apply Forall_cons_2; [done |].
      eapply Forall_impl; [exact Hfirst |]. intros [p' q'] Hp'.
      unfold price_lt in *. cbn [fst] in *. by apply double_lt_trans with p.
    + destruct (PrimFloat.ltb p at_price) eqn:Hgt.
      * apply SSorted_cons; [by apply IH |].
        by apply (level_add_keys (fun x => PrimFloat.ltb p x = true)).
      * apply SSorted_cons; [done |]. exact Hfirst.
Qed.

Lemma level_at_add x at_price units levels :
  ordered at_price -> Forall (fun level => ordered level.1) levels ->
  level_at x (level_add at_price units levels)
  = level_at x levels + (if PrimFloat.eqb at_price x then units else 0).
Proof.
  unfold level_at.
  intros Hp. induction 1 as [| [p q] levels Hpo Hlevels IH]; cbn [level_add].
  - cbn. destruct (PrimFloat.eqb at_price x); lia.
  - cbn [fst] in Hpo. destruct (PrimFloat.ltb at_price p) eqn:Hlt.
    + cbn [foldr fst snd]. destruct (PrimFloat.eqb at_price x); lia.
    + destruct (PrimFloat.ltb p at_price) eqn:Hgt.
      * cbn [foldr fst snd] in *. rewrite IH.
        destruct (PrimFloat.eqb p x), (PrimFloat.eqb at_price x); lia.
      * cbn [foldr fst snd].
        rewrite (double_eq_same at_price p x)
          by (by apply double_neither_lt).
        destruct (PrimFloat.eqb p x); lia.
Qed.

Lemma level_at_past x levels :
  Forall (fun level => PrimFloat.ltb x level.1 = true) levels ->
  level_at x levels = 0.
Proof.
  unfold level_at. induction 1 as [| [p q] levels Hp _ IH]; [done |].
  cbn [foldr fst snd] in *.
  destruct (double_lt_not_eq _ _ Hp) as [_ ->]. exact IH.
Qed.

Lemma level_at_sorted p q levels :
  ordered p -> StronglySorted price_lt levels -> (p, q) ∈ levels ->
  level_at p levels = q.
Proof.
  intros Hp. induction 1 as [| [p' q'] levels Hsorted IH Hfirst]; intros Hin.
  - by apply elem_of_nil in Hin.
  - pose proof (level_at_past p' levels Hfirst) as Hpast.
    unfold level_at in *. cbn [foldr fst snd].
    apply elem_of_cons in Hin as [[= <- <-] | Hin].
    + rewrite Hp, Hpast. lia.
    + rewrite IH by done.
      rewrite Forall_forall in Hfirst. specialize (Hfirst _ Hin).
      unfold price_lt in Hfirst. cbn [fst] in Hfirst.
      by destruct (double_lt_not_eq _ _ Hfirst) as [-> _].
Qed.

Lemma level_add_from p q at_price units levels :
  (p, q) ∈ level_add at_price units levels ->
  p = at_price \/ exists q', (p, q') ∈ levels.
Proof.
  induction levels as [| [p' q'] levels IH]; cbn [level_add].
  - intros Hin. apply list_elem_of_singleton in Hin as [= -> _]. by left.
  - destruct (PrimFloat.ltb at_price p').
    + intros Hin. apply elem_of_cons in Hin as [[= -> _] | Hin]; [by left |].
      right. by exists q.
    + destruct (PrimFloat.ltb p' at_price); intros Hin;
        apply elem_of_cons in Hin as [[= -> _] | Hin].
      * right. exists q'. apply list_elem_of_here.
      * destruct (IH Hin) as [-> | [q2 Hq2]]; [by left |].
        right. exists q2. by apply list_elem_of_further.
      * right. exists q'. apply list_elem_of_here.
      * right. exists q. by apply list_elem_of_further.
Qed.

Lemma level_add_has x at_price units levels :
  ordered at_price -> Forall (fun level => ordered level.1) levels ->
  PrimFloat.eqb at_price x = true
  \/ (exists p q, (p, q) ∈ levels /\ PrimFloat.eqb p x = true) ->
  exists p q,
    (p, q) ∈ level_add at_price units levels /\ PrimFloat.eqb p x = true.
Proof.
  intros Hp. induction 1 as [| [p' q'] levels Hpo Hlevels IH]; cbn [level_add].
  - intros [Hx | (p & q & Hin & _)]; [| by apply elem_of_nil in Hin].
    eexists _, _. split; [apply list_elem_of_here | done].
  - cbn [fst] in Hpo. intros Hhas.
    destruct (PrimFloat.ltb at_price p') eqn:Hlt.
    + destruct Hhas as [Hx | (p & q & Hin & Hx)].
      * eexists _, _. split; [apply list_elem_of_here | done].
      * exists p, q. split; [by apply list_elem_of_further | done].
    + destruct (PrimFloat.ltb p' at_price) eqn:Hgt.
      * destruct Hhas as [Hx | (p & q & Hin & Hx)].
        -- destruct IH as (p & q & Hin & Hpx); [by left |].
           exists p, q. split; [by apply list_elem_of_further | done].
        -- apply elem_of_cons in Hin as [[= -> ->] | Hin].
           ++ eexists _, _. split; [apply list_elem_of_here | done].
           ++ destruct IH as (p2 & q2 & Hin2 & Hpx); [right; eauto |].
              exists p2, q2. split; [by apply list_elem_of_further | done].
      * pose proof (double_neither_lt _ _ Hp Hpo Hlt Hgt) as Hsame.
        destruct Hhas as [Hx | (p & q & Hin & Hx)].
        -- eexists _, _. split; [apply list_elem_of_here |]. cbn [fst].
           apply double_eq_trans with at_price; [by apply double_eq_sym | done].
        -- apply elem_of_cons in Hin as [[= -> ->] | Hin].
           ++ eexists _, _. split; [apply list_elem_of_here | done].
           ++ exists p, q. split; [by apply list_elem_of_further | done].
Qed.

Lemma levels_of_snoc side o :
  levels_of (side ++ [o]) = level_add (price o) (quantity o) (levels_of side).
Proof. unfold levels_of. by rewrite fold_left_app. Qed.

Lemma level_quantity_snoc x side o :
  level_quantity x (side ++ [o])
  = level_quantity x side + (if PrimFloat.eqb (price o) x then quantity o else 0).
Proof.
  unfold level_quantity.
  induction side as [| o' side IH]; cbn [app foldr] in *.
  - destruct (PrimFloat.eqb (price o) x); lia.
  - destruct (PrimFloat.eqb (price o') x); lia.
Qed.

Lemma resting_quantity_snoc side o :
  resting_quantity (side ++ [o]) = resting_quantity side + quantity o.
Proof.
  induction side as [| o' side IH]; [cbn; lia |].
  cbn [app]. rewrite !resting_quantity_cons, IH. lia.
Qed.

Lemma levels_of_spec side :
  priced side ->
  Forall (fun level => ordered level.1) (levels_of side)
  /\ StronglySorted price_lt (levels_of side)
  /\ (forall x, level_at x (levels_of side) = level_quantity x side)
  /\ levels_quantity (levels_of side) = resting_quantity side
  /\ (forall p q, (p, q) ∈ levels_of side -> exists o, o ∈ side /\ price o = p)
  /\ (forall o, o ∈ side ->
        exists p q, (p, q) ∈ levels_of side /\ PrimFloat.eqb p (price o) = true).
Proof.
  induction side as [| o side IH] using rev_ind; intros Hside.
  { repeat split; try done; try apply SSorted_nil.
    - intros p q Hin. by apply elem_of_nil in Hin.
    - intros o Hin. by apply elem_of_nil in Hin. }
  apply Forall_app in Hside as [Hside Ho].
  apply Forall_cons in Ho as [Ho _].
  destruct (IH Hside) as (Hkeys & Hsorted & Hat & Htotal & Hfrom & Hto).
  rewrite levels_of_snoc.
  split; [by apply (level_add_keys ordered) |].
  split; [by apply level_add_sorted |].
  split; [intros x; by rewrite level_at_add, level_quantity_snoc, Hat |].
  split; [by rewrite levels_quantity_add, resting_quantity_snoc, Htotal |].
  split.
  - intros p q Hin. apply level_add_from in Hin as [-> | [q' Hin]].
    + exists o. split; [| done]. apply elem_of_app. right. apply list_elem_of_here.
    + destruct (Hfrom p q' Hin) as (o' & Ho' & <-).
      exists o'. split; [| done]. apply elem_of_app. by left.
  - intros o' Hin. apply level_add_has; [done | done |].
    apply elem_of_app in Hin as [Hin | Hin].
    + right. by apply Hto.
    + apply list_elem_of_singleton in Hin as ->. left. exact Ho.
Qed.

Lemma levels_of_shows side : priced side -> shows side (levels_of side).
Proof.
  intros Hside.
  destruct (levels_of_spec side Hside)
    as (Hkeys & Hsorted & Hat & Htotal & Hfrom & Hto).
  split; [done |]. split; [| by split].
  intros p q Hin. split; [| by eapply Hfrom].
  rewrite <- Hat. symmetry. apply level_at_sorted; [| done | done].
  rewrite Forall_forall in Hkeys. exact (Hkeys _ Hin).
Qed.

(** X17.  The price levels of [print_order_book].  On a book without NaN
    prices the two maps the first loop fills show their sides: one level
    for each price at which an order rests, with the sum of the quantities
    resting at that price, in strictly ascending order of price, and with
    the quantity resting on the side as their total.  The table has one row
    for each level, the sell levels first and each side from its highest
    price down. *)
Theorem print_order_book_levels insert_double book buys sells :
  priced (buy_side book) -> priced (sell_side book) ->
  orders_by_price (buy_side book) (sell_side book) [] [] = (buys, sells) ->
  shows (buy_side book) buys
  /\ shows (sell_side book) sells
  /\ forall lines,
       print_order_book insert_double book = Some lines ->
       exists header sell_rows buy_rows,
         lines = ["------------------ ORDER BOOK ----------------"; header]
                 ++ sell_rows ++ [""] ++ buy_rows
         /\ Forall2 (fun level row => level_row insert_double "⌄" level = Some row)
              (rev sells) sell_rows
         /\ Forall2 (fun level row => level_row insert_double "⌃" level = Some row)
              (rev buys) buy_rows.
Proof.
  intros Hbuys Hsells Hlevels.
  pose proof Hlevels as Hfolds. rewrite orders_by_price_folds in Hfolds.
  injection Hfolds as <- <-.
  split; [by apply levels_of_shows |]. split; [by apply levels_of_shows |].
  intros lines. unfold print_order_book. rewrite Hlevels.
  destruct (cells _ _) as [header |]; [| done]. cbn [mbind option_bind].
  destruct (mapM _ (rev (levels_of (sell_side book)))) as [sell_rows |] eqn:Hsell;
    [| done].
  cbn [mbind option_bind].
  destruct (mapM _ (rev (levels_of (buy_side book)))) as [buy_rows |] eqn:Hbuy;
    [| done].
  cbn [mbind option_bind]. intros [= <-].
  exists (" " +:+ header), sell_rows, buy_rows.
  split; [done |]. split; by apply mapM_Some_1.
Qed.

(** ** The table of accounts *)

Lemma string_leb_cases s1 s2 :
  String.leb s1 s2 = true <-> String_as_OT.lt s1 s2 \/ s1 = s2.
Proof.
  unfold String.leb. rewrite <- String_as_OT.cmp_lt. unfold String_as_OT.cmp.
  destruct (String.compare s1 s2) eqn:Hcmp.
  - apply String.compare_eq_iff in Hcmp. tauto.
  - tauto.
  - split; [done |]. intros [? | ->]; [done |].
    assert (String.compare s2 s2 = Eq) as Hrefl; [| congruence].
    pose proof (String.compare_antisym s2 s2) as Hanti.
    destruct (String.compare s2 s2); done.
Qed.

#[global] Instance name_le_total : Total name_le.
Proof. intros a b. apply String.leb_total. Qed.

#[global] Instance name_le_trans : Transitive name_le.
Proof.
  intros a b c. unfold name_le. rewrite !string_leb_cases.
  intros [Hab | ->] [Hbc | <-]; auto.
  left. by apply String_as_OT.lt_trans with b.1.
Qed.

Lemma in_key_order_spec accounts :
  in_key_order accounts ≡ₚ map_to_list accounts
  /\ StronglySorted name_le (in_key_order accounts)
  /\ NoDup (in_key_order accounts).*1.
Proof.
  unfold in_key_order. split; [apply merge_sort_Permutation |].
  split; [apply StronglySorted_merge_sort; apply _ |].
  rewrite merge_sort_Permutation. apply NoDup_fst_map_to_list.
Qed.

Lemma cells_first_undefined width text texts :
  pretty_print text width = None -> cells width (text :: texts) = None.
Proof. intros Htext. unfold cells. cbn. by rewrite Htext. Qed.

Lemma print_accounts_long_name insert_double accounts name details :
  accounts !! name = Some details ->
  ACCOUNT_TABLE_WIDTH < Z.of_nat (String.length name) < 2 ^ 62 ->
  print_accounts insert_double accounts = None.
Proof.
  intros Hname [Hlong Hlength]. unfold print_accounts.
  assert (mapM (account_row insert_double) (in_key_order accounts) = None) as ->.
  { apply mapM_None_2. apply Exists_exists. exists (name, details). split.
    - destruct (in_key_order_spec accounts) as [Hperm _].
      rewrite Hperm. by apply elem_of_map_to_list.
    - unfold account_row. apply cells_first_undefined. cbn [fst].
      by apply pretty_print_too_long. }
  by destruct (cells _ _).
Qed.

(** X18.  [print_accounts] writes its three heading lines, the second with
    the number of accounts, and one row for each account, in ascending
    order of the names read as byte strings.  Once the table holds an
    account whose name is longer than the column, 16 characters,
    [pretty_print] cannot pad the name and the call has no defined
    behaviour; [account create] with such a name, which puts the account
    into the table and then prints it, is such a call. *)
Theorem print_accounts_rows insert_double accts :
  (forall lines,
     print_accounts insert_double accts = Some lines ->
     exists header rows,
       lines = ["-------------------- ACCOUNTS ------------------";
                "Total Accounts: "
                +:+ convert_int_to_string (Z.of_nat (size accts));
                header] ++ rows
       /\ length rows = size accts
       /\ Forall2 (fun account row => account_row insert_double account = Some row)
            (in_key_order accts) rows
       /\ in_key_order accts ≡ₚ map_to_list accts
       /\ StronglySorted (fun a b => String.leb a.1 b.1 = true)
            (in_key_order accts))
  /\ (forall name details,
        accts !! name = Some details ->
        16 < Z.of_nat (String.length name) < 2 ^ 62 ->
        print_accounts insert_double accts = None)
  /\ (forall stod now name tokens3 st,
        16 < Z.of_nat (String.length name) < 2 ^ 62 ->
        command_router stod insert_double now
          ("account" :: name :: "create" :: tokens3) st = None).
Proof.
  split; [| split].
  - intros lines. unfold print_accounts.
    destruct (cells _ _) as [header |]; [| done]. cbn [mbind option_bind].
    destruct (mapM _ _) as [rows |] eqn:Hrows; [| done].
    cbn [mbind option_bind]. intros [= <-]. exists header, rows.
    destruct (in_key_order_spec accts) as (Hperm & Hsorted & _).
    split; [done |]. split; [| split; [by apply mapM_Some_1 | done]].
    apply length_mapM in Hrows. rewrite <- Hrows, Hperm.
    apply length_map_to_list.
  - intros name details. apply print_accounts_long_name.
  - intros stod now name tokens3 st Hlong. unfold command_router.
    rewrite bool_decide_eq_true_2 by done.
    rewrite bool_decide_eq_true_2 by done.
    cbn [accounts with_accounts].
    rewrite (print_accounts_long_name insert_double _ name
               (default value_initialized (accounts st !! name))); [done | | done].
    unfold touch. destruct (accounts st !! name) eqn:Hname; [done |].
    by rewrite lookup_insert_eq.
Qed.

(** ** The comparator of the book *)

Lemma ltb_keyed x y a b :
  key x = Some a -> key y = Some b -> (PrimFloat.ltb x y = true <-> key_lt a b).
Proof.
  intros Ha Hb. rewrite ltb_key. split.
  - intros (a' & b' & Ha' & Hb' & Hlt). congruence.
  - intros Hlt. by exists a, b.
Qed.

Lemma eqb_keyed x y a b :
  key x = Some a -> key y = Some b -> (PrimFloat.eqb x y = true <-> key_eq a b).
Proof.
  intros Ha Hb. rewrite eqb_key. split.
  - intros (a' & b' & Ha' & Hb' & Heq). congruence.
  - intros Heq. by exists a, b.
Qed.

Lemma comparator_keyed k x y kx ky :
  key_of (is_buy x) = k -> key (price x) = Some kx -> key (price y) = Some ky ->
  OrderComparator x y = true
  <-> match k with Buy => key_lt ky kx | Sell => key_lt kx ky end
      \/ (key_eq kx ky /\ timestamp x < timestamp y).
Proof.
  intros <- Hx Hy. unfold OrderComparator.
  destruct (is_buy x); cbn [key_of];
    rewrite orb_true_iff, andb_true_iff, Z.ltb_lt,
      (eqb_keyed _ _ _ _ Hx Hy).
  - by rewrite (ltb_keyed _ _ _ _ Hy Hx).
  - by rewrite (ltb_keyed _ _ _ _ Hx Hy).
Qed.

(** X19.  On the orders of one side whose prices are not NaN,
    [OrderComparator] is the strict weak ordering a [std::multiset] needs:
    no order comes before itself, of two orders at most one comes before
    the other, coming before is transitive, and two orders neither of which
    comes before the other are exactly those with equal price and equal
    timestamp, which is transitive as well. *)
Theorem OrderComparator_strict_weak_ordering k a b c :
  on_side k a -> on_side k b -> on_side k c ->
  OrderComparator a a = false
  /\ (OrderComparator a b = true -> OrderComparator b a = false)
  /\ (OrderComparator a b = true -> OrderComparator b c = true ->
      OrderComparator a c = true)
  /\ (OrderComparator a b = false /\ OrderComparator b a = false
      <-> PrimFloat.eqb (price a) (price b) = true /\ timestamp a = timestamp b)
  /\ (OrderComparator a b = false /\ OrderComparator b a = false ->
      OrderComparator b c = false /\ OrderComparator c b = false ->
      OrderComparator a c = false /\ OrderComparator c a = false).
Proof.
  intros [Ha Hoa] [Hb Hob] [Hc Hoc].
  apply ordered_key in Hoa as [ka Hka]. apply ordered_key in Hob as [kb Hkb].
  apply ordered_key in Hoc as [kc Hkc].
  rewrite (eqb_keyed _ _ _ _ Hka Hkb).
  rewrite <- !not_true_iff_false.
  rewrite (comparator_keyed k a a ka ka), (comparator_keyed k a b ka kb),
    (comparator_keyed k b a kb ka), (comparator_keyed k b c kb kc),
    (comparator_keyed k c b kc kb), (comparator_keyed k a c ka kc),
    (comparator_keyed k c a kc ka) by done.
  unfold key_lt, key_eq. destruct k; repeat split; try lia.
Qed.

(** ** Orders created in quick succession *)

Lemma step_own_side clock order st st' :
  matching_engine_step clock (inl order) st = Continue st' ->
  at_key (key_of (is_buy order)) (order_book st')
  = at_key (key_of (is_buy order)) (order_book st)
  \/ exists q,
       at_key (key_of (is_buy order)) (order_book st')
       = emplace (with_quantity order q)
           (at_key (key_of (is_buy order)) (order_book st)).
Proof.
  intros Hstep. cbn [matching_engine_step] in Hstep.
  destruct (is_allowed_order order (accounts st) (order_book st))
    as [allowed accounts1].
  destruct allowed; [| injection Hstep as <-; by left].
  unfold match_order in Hstep.
  pose proof (match_loop_order clock order
                (at_key (opposite_key order) (order_book st)) accounts1
                (transactions st)) as Hsame.
  destruct (match_loop _ _ _ _ _) as [[[order' side'] accounts2] transactions'].
  cbn [fst snd] in *. injection Hstep as <-. cbn [order_book].
  assert (at_key (key_of (is_buy order))
            (set_key (opposite_key order) side' (order_book st))
          = at_key (key_of (is_buy order)) (order_book st)) as Hown
    by (unfold opposite_key; by destruct (is_buy order)).
  destruct (0 <? quantity order'); [| by left].
  right. exists (quantity order').
  assert (is_buy order' = is_buy order) as Hside by (by rewrite Hsame).
  rewrite <- Hside, at_key_add_order, Hside, Hown. by rewrite <- Hsame.
Qed.

Lemma length_emplace x side : length (emplace x side) = S (length side).
Proof. by rewrite emplace_Permutation. Qed.

(** X20.  Two orders created one right after the other get the same id.
    [construct_order] reads the ids that rest in the book when the command
    is typed, not the orders that wait in the queue; so when the engine has
    not yet taken the first order, a second order for the same side is
    given the same id.  When the engine then takes them one after the other
    and both come to rest, the side holds two orders with one id. *)
Theorem orders_in_quick_succession_share_an_id
    stod insert_double now1 now2 tokens1 tokens2 st st1 st2 o1 o2 :
  command_router stod insert_double now1 tokens1 st = Some (st1, [inl o1]) ->
  command_router stod insert_double now2 tokens2 st1 = Some (st2, [inl o2]) ->
  is_buy o1 = is_buy o2 ->
  id o1 = id o2
  /\ forall clock1 clock2 e e1 e2,
       matching_engine_step clock1 (inl o1) e = Continue e1 ->
       matching_engine_step clock2 (inl o2) e1 = Continue e2 ->
       length (at_key (key_of (is_buy o1)) (order_book e2))
       = S (S (length (at_key (key_of (is_buy o1)) (order_book e)))) ->
       ~ NoDup (id <$> at_key (key_of (is_buy o1)) (order_book e2)).
Proof.
  intros Hfirst Hsecond Hside.
  destruct (command_router_pushed _ _ _ _ _ _ _ Hfirst)
    as (Hbook & _ & [? | (data1 & [= <-] & Hdata1)]); [done |].
  destruct (command_router_pushed _ _ _ _ _ _ _ Hsecond)
    as (_ & _ & [? | (data2 & [= <-] & Hdata2)]); [done |].
  destruct Hdata1 as (account1 & side1 & units1 & price1 & -> & _).
  destruct Hdata2 as (account2 & side2 & units2 & price2 & -> & _).
  cbn [construct_order is_buy id] in *.
  split; [by rewrite Hbook, Hside |].
  intros clock1 clock2 e e1 e2 Hstep1 Hstep2 Hlength.
  apply step_own_side in Hstep1. apply step_own_side in Hstep2.
  cbn [construct_order is_buy id] in *. rewrite <- Hside in Hstep2.
  set (k := key_of (bool_decide (side1 = "buy"))) in *.
  destruct Hstep1 as [Hsame1 | [q1 Hrest1]], Hstep2 as [Hsame2 | [q2 Hrest2]].
  - rewrite Hsame2, Hsame1 in Hlength. lia.
  - rewrite Hrest2, length_emplace, Hsame1 in Hlength. lia.
  - rewrite Hsame2, Hrest1, length_emplace in Hlength. lia.
  - rewrite Hrest2, Hrest1, !emplace_Permutation, !fmap_cons.
    cbn [with_quantity id construct_order]. rewrite Hbook, <- Hside.
    intros Hnodup. apply NoDup_cons in Hnodup as [Hnew _].
    apply Hnew, list_elem_of_here.
Qed.

(** ** The invariants under both threads *)

Lemma command_router_order stod insert_double now input_tokens st st' pushed order :
  command_router stod insert_double now input_tokens st = Some (st', pushed) ->
  inl order ∈ pushed ->
  exists account side token4 token5,
    order = construct_order (order_book st) account side
              (convert_string_to_int token4).1
              (convert_string_to_double stod token5).1 now.
Proof.
  unfold command_router. intros Hrouted Hin.
  repeat (case_match; try done); simplify_option_eq;
    try (by apply elem_of_nil in Hin);
    apply list_elem_of_singleton in Hin; [done |].
  injection Hin as ->.
  match goal with
  | H4 : convert_string_to_int ?token4 = _,
    H5 : convert_string_to_double _ ?token5 = _ |- _ =>
      eexists _, _, token4, token5; by rewrite H4, H5
  end.
Qed.

Lemma convert_string_to_double_ordered stod input :
  (forall text value, stod text = Some value -> ordered value) ->
  ordered (convert_string_to_double stod input).1.
Proof.
  intros Hstod. unfold convert_string_to_double.
  destruct (only_of _ _); [| done].
  destruct (stod input) as [value |] eqn:Hvalue; [| done].
  by eapply Hstod.
Qed.

Lemma state_ok_same_book st st' :
  order_book st' = order_book st -> transactions st' = transactions st ->
  state_ok st -> state_ok st'.
Proof. unfold state_ok. by intros -> ->. Qed.

Lemma state_ok_step clock data st st' :
  queued_ok data -> state_ok st ->
  matching_engine_step clock data st = Continue st' -> state_ok st'.
Proof.
  intros Hdata (Hbook & Hsigned & Hpositive & Hnumbered & Hself & Hlog) Hstep.
  destruct (positive_step clock data st st' (conj Hpositive Hlog) Hstep)
    as [Hpositive' Hlog'].
  split; [| split; [| split; [done | split; [| split; [| done]]]]].
  - eapply book_ok_step; [| exact Hstep | done].
    intros order ->. by destruct (Hdata order eq_refl).
  - eapply signed_step; [| done | exact Hstep].
    intros order ->. by destruct (Hdata order eq_refl).
  - by eapply numbered_step.
  - by eapply no_self_trade_step.
Qed.

Lemma take_turn_state_ok stod insert_double t p p' :
  (forall text value, stod text = Some value -> ordered value) ->
  state_ok (shared p) -> Forall queued_ok (message_queue p) ->
  take_turn stod insert_double t p = Some p' ->
  state_ok (shared p') /\ Forall queued_ok (message_queue p').
Proof.
  intros Hstod Hstate Hqueue Hturn. destruct t as [now | clock]; cbn in Hturn.
  - unfold commander_turn in Hturn.
    destruct (commander_running p); [| done].
    destruct (cin p) as [| input cin']; [by injection Hturn as <- |].
    destruct (parse_input input) as [| token0 tokens1];
      [by injection Hturn as <- |].
    destruct (bool_decide (token0 = "exit")); [by injection Hturn as <- |].
    destruct (command_router _ _ _ _ _) as [[st' pushed] |] eqn:Hrouted; [| done].
    cbn in Hturn. injection Hturn as <-. cbn [shared message_queue].
    destruct (command_router_pushed _ _ _ _ _ _ _ Hrouted) as (Hbook & Hlog & _).
    split; [by apply (state_ok_same_book (shared p)) |].
    apply Forall_app. split; [done |].
    apply Forall_forall. intros data Hin order ->.
    destruct (command_router_order _ _ _ _ _ _ _ _ Hrouted Hin)
      as (account & side & token4 & token5 & ->).
    split; [apply construct_order_well_signed |].
    by apply convert_string_to_double_ordered.
  - unfold engine_turn in Hturn.
    destruct (engine_running p); [| done].
    destruct (message_queue p) as [| data queue']; [done |].
    apply Forall_cons in Hqueue as [Hdata Hqueue].
    destruct (matching_engine_step clock data (shared p)) as [st' | st' |]
      eqn:Hstep; [| | done]; injection Hturn as <-; cbn [shared message_queue].
    + split; [by eapply state_ok_step | done].
    + apply step_break in Hstep as ->. by split.
Qed.

(** X21.  What the engine keeps, it keeps in the whole program.  Let the
    book be in price-time priority with positive quantities and ids of the
    sign of their side and the log be empty, as after [setup ()], and let
    [std::stod] return no NaN.  Then however the commander and the engine
    take turns and whatever is typed, the book stays in price-time
    priority, the resting quantities and the traded quantities stay
    positive, the buy ids positive and the sell ids negative, the log is
    numbered 1, 2, ... and holds no trade of an account with itself. *)
Theorem invariants_under_both_threads stod insert_double turns st input p :
  (forall text value, stod text = Some value -> ordered value) ->
  book_ok (order_book st) ->
  book_signed (order_book st) ->
  book_positive (order_book st) ->
  transactions st = [] ->
  run_threads stod insert_double turns (main_start st input) = Some p ->
  book_ok (order_book (shared p))
  /\ book_signed (order_book (shared p))
  /\ book_positive (order_book (shared p))
  /\ tx_id <$> transactions (shared p)
     = Z.of_nat <$> seq 1 (length (transactions (shared p)))
  /\ Forall (fun t => buyer t <> seller t) (transactions (shared p))
  /\ Forall (fun t => 0 < tx_quantity t) (transactions (shared p)).
Proof.
  intros Hstod Hbook Hsigned Hpositive Hlog Hrun.
  assert (state_ok (shared (main_start st input))
          /\ Forall queued_ok (message_queue (main_start st input))) as Hstart.
  { split; [| apply Forall_nil_2]. cbn [main_start shared]. unfold state_ok.
    rewrite Hlog. do 3 (split; [done |]). split; [done |].
    split; apply Forall_nil_2. }
  revert Hstart Hrun. generalize (main_start st input). clear - Hstod.
  induction turns as [| t turns IH]; intros p0 [Hstate Hqueue] Hrun.
  - injection Hrun as <-. exact Hstate.
  - cbn [run_threads] in Hrun.
    destruct (take_turn _ _ t p0) as [p1 |] eqn:Hturn; [| done].
    apply (IH p1); [| exact Hrun].
    by apply (take_turn_state_ok stod insert_double t p0).
Qed.

(** ** The asset units under both threads *)

Lemma total_coin_delete name (accts : Accounts) :
  total_coin (delete name accts)
  = total_coin accts - coin_balance (subscript name accts).
Proof.
  unfold subscript. destruct (accts !! name) as [a |] eqn:Hname; cbn [default].
  - rewrite <- (insert_delete_id accts name a Hname) at 2.
    unfold total_coin.
    rewrite (total_insert_fresh Z.add 0 coin_balance Z.add_comm Z.add_assoc)
      by apply lookup_delete_eq.
    unfold Datatypes.id. lia.
  - rewrite delete_id by done. cbn. lia.
Qed.

Lemma command_router_total_coin stod insert_double now input_tokens st st' pushed :
  command_router stod insert_double now input_tokens st = Some (st', pushed) ->
  total_coin (accounts st') = total_coin (accounts st)
  \/ exists name tokens3,
       input_tokens = "account" :: name :: "delete" :: tokens3
       /\ total_coin (accounts st')
          = total_coin (accounts st) - coin_balance (subscript name (accounts st)).
Proof.
  unfold command_router. intros Hrouted.
  repeat (case_match; try done); simplify_option_eq;
    cbn [accounts say complain with_accounts]; try (by left).
  - left. apply total_coin_touch.
  - right. eexists _, _. split; [done |]. apply total_coin_delete.
  - left. unfold add_usd. rewrite total_coin_insert. cbn [coin_balance]. lia.
  - left. unfold sub_usd. rewrite total_coin_insert. cbn [coin_balance]. lia.
Qed.

Lemma take_turn_total_coin stod insert_double t p p' :
  Forall (fun line => parse_input line !! 2%nat <> Some "delete") (cin p) ->
  take_turn stod insert_double t p = Some p' ->
  total_coin (accounts (shared p')) = total_coin (accounts (shared p))
  /\ Forall (fun line => parse_input line !! 2%nat <> Some "delete") (cin p').
Proof.
  intros Hcin Hturn. destruct t as [now | clock]; cbn in Hturn.
  - unfold commander_turn in Hturn.
    destruct (commander_running p); [| done].
    destruct (cin p) as [| input cin']; [by injection Hturn as <- |].
    apply Forall_cons in Hcin as [Hinput Hcin].
    destruct (parse_input input) as [| token0 tokens1] eqn:Htokens;
      [by injection Hturn as <- |].
    destruct (bool_decide (token0 = "exit")); [by injection Hturn as <- |].
    destruct (command_router _ _ _ _ _) as [[st' pushed] |] eqn:Hrouted; [| done].
    cbn in Hturn. injection Hturn as <-. cbn [shared cin]. split; [| done].
    destruct (command_router_total_coin _ _ _ _ _ _ _ Hrouted)
      as [Hsame | (name & tokens3 & Hdelete & _)]; [done |].
    by rewrite Hdelete in Hinput.
  - unfold engine_turn in Hturn.
    destruct (engine_running p); [| done].
    destruct (message_queue p) as [| data queue']; [done |].
    destruct (matching_engine_step clock data (shared p)) as [st' | st' |]
      eqn:Hstep; [| | done]; injection Hturn as <-; cbn [shared cin].
    + split; [by eapply total_coin_step | done].
    + apply step_break in Hstep as ->. by split.
Qed.

(** X22.  Nothing creates asset units and only [account delete] makes them
    disappear.  A call of [command_router] leaves the total of the coin
    balances as it is, except for [account NAME delete], which takes the
    balance of the deleted account out of it; the engine never changes the
    total.  So when no line typed has [delete] as its third word, the total
    is in every state of the process what it was at the start, however the
    two threads take turns. *)
Theorem asset_units_under_both_threads stod insert_double :
  (forall now input_tokens st st' pushed,
     command_router stod insert_double now input_tokens st = Some (st', pushed) ->
     total_coin (accounts st') = total_coin (accounts st)
     \/ exists name tokens3,
          input_tokens = "account" :: name :: "delete" :: tokens3
          /\ total_coin (accounts st')
             = total_coin (accounts st)
               - coin_balance (subscript name (accounts st)))
  /\ (forall turns st input p,
        Forall (fun line => parse_input line !! 2%nat <> Some "delete") input ->
        run_threads stod insert_double turns (main_start st input) = Some p ->
        total_coin (accounts (shared p)) = total_coin (accounts st)).
Proof.
  split; [apply command_router_total_coin |].
  intros turns st input p Hinput.
  change (total_coin (accounts st))
    with (total_coin (accounts (shared (main_start st input)))).
  change input with (cin (main_start st input)) in Hinput.
  revert Hinput. generalize (main_start st input).
  induction turns as [| t turns IH]; intros p0 Hcin Hrun.
  - by injection Hrun as <-.
  - cbn [run_threads] in Hrun.
    destruct (take_turn _ _ t p0) as [p1 |] eqn:Hturn; [| done].
    destruct (take_turn_total_coin _ _ _ _ _ Hcin Hturn) as [<- Hcin1].
    by apply IH.
Qed.

Lemma asset_units_under_both_threads_witness :
  total_coin (accounts (shared example_process)) = total_coin setup_accounts
  /\ total_coin setup_accounts = 46540.
Proof.
  split; [| vm_compute; reflexivity].
  destruct (asset_units_under_both_threads example_stod example_insert_double)
    as [_ Hrun].
  apply (Hrun example_turns example_state example_input example_process).
  - repeat (apply Forall_cons_2; [vm_compute; discriminate |]). apply Forall_nil_2.
  - vm_compute. reflexivity.
Defined.

(** ** The further properties on the book of [setup ()] *)

Lemma book_positive_example : book_positive example_book.
Proof. split; repeat constructor. Qed.

Lemma book_signed_example : book_signed example_book.
Proof. split; repeat constructor. Qed.

Lemma ids_distinct_example : ids_distinct example_book.
Proof. split; apply (bool_decide_unpack _); vm_compute; exact I. Qed.

Lemma example_stod_ordered text value :
  example_stod text = Some value -> ordered value.
Proof.
  unfold example_stod. repeat case_match; intros [= <-]; reflexivity.
Qed.

Lemma quantities_stay_positive_witness :
  book_positive (order_book after_alice_buys_12)
  /\ Forall (fun t => 0 < tx_quantity t) (transactions after_alice_buys_12).
Proof.
  apply (quantities_stay_positive example_clock [inl alice_buys_12]
           example_state after_alice_buys_12).
  - exact book_positive_example.
  - apply Forall_nil_2.
  - left. vm_compute. reflexivity.
Defined.

Lemma log_ids_count_from_one_witness :
  tx_id <$> transactions after_alice_buys_12
  = Z.of_nat <$> seq 1 (length (transactions after_alice_buys_12)).
Proof.
  apply (log_ids_count_from_one after_alice_buys_12).
  apply (reachable_message example_clock (inl alice_buys_12) example_state).
  - apply reachable_start.
  - vm_compute. reflexivity.
Defined.

Lemma signed_ids_and_cancel_witness :
  book_signed (order_book after_alice_buys_12)
  /\ (forall message st'',
        matching_engine_step example_clock (inr message) after_alice_buys_12
        = Continue st'' ->
        order_book st'' = order_book after_alice_buys_12)
  /\ (forall account side quantity price timestamp,
        well_signed
          (construct_order (order_book after_alice_buys_12) account side
             quantity price timestamp)).
Proof.
  apply (signed_ids_and_cancel example_clock
           [inl alice_buys_12; inr "cancel 1"] example_state after_alice_buys_12).
  - exact book_signed_example.
  - apply Forall_cons_2; [reflexivity | apply Forall_nil_2].
  - left. vm_compute. reflexivity.
Defined.

Lemma ids_stay_distinct_witness :
  ids_distinct (order_book after_alice_buys_12)
  /\ forall isBuy,
       get_last_order_id isBuy (order_book after_alice_buys_12)
       ∉ (id <$> at_key (key_of isBuy) (order_book after_alice_buys_12)).
Proof.
  apply (ids_stay_distinct example_clock example_state after_alice_buys_12).
  - exact ids_distinct_example.
  - left. exists "alice", "buy", 12, 23.5%float, 1500. vm_compute. reflexivity.
Defined.

Lemma command_router_pushes_witness :
  order_book (complain [] example_state) = order_book example_state
  /\ forall clock st1,
       exists st2,
         matching_engine_step clock (inr "cancel 1") st1 = Continue st2.
Proof.
  destruct (command_router_pushes example_stod example_insert_double 3004
              ["order"; "cancel"; "1"] example_state
              (complain [] example_state) [inr "cancel 1"])
    as (Hbook & _ & [Hnone | (data & [= <-] & _ & Hgoes)]);
    [vm_compute; reflexivity | done | by split].
Defined.

Lemma engine_never_leaves_its_loop_witness :
  engine_running example_process = true
  /\ main_returns example_process = false
  /\ forall clock,
       message_queue example_process <> [] ->
       is_Some (engine_turn clock example_process).
Proof.
  apply (engine_never_leaves_its_loop example_stod example_insert_double
           example_turns example_state example_input example_process).
  vm_compute. reflexivity.
Defined.

Lemma command_router_accounts_witness :
  accounts (say ["Account does not exist"] example_state) !! "alice"
  = accounts example_state !! "alice"
  /\ accounts (say ["Account does not exist"] example_state) !! "dave" = None.
Proof.
  destruct (command_router_accounts example_stod example_insert_double 3000
              ["account"; "dave"; "withdraw"; "24"] example_state
              (say ["Account does not exist"] example_state) [])
    as (Hothers & _ & Habsent & _); [vm_compute; reflexivity |].
  split; [apply Hothers; discriminate |].
  apply Habsent; [discriminate | vm_compute; reflexivity].
Defined.

Lemma print_order_book_levels_witness :
  shows (buy_side example_book) [(20.5%float, 1); (22.5%float, 10)]
  /\ shows (sell_side example_book) [(23.5%float, 8); (25.5%float, 8)].
Proof.
  destruct (print_order_book_levels example_insert_double example_book
              [(20.5%float, 1); (22.5%float, 10)]
              [(23.5%float, 8); (25.5%float, 8)])
    as (Hbuys & Hsells & _).
  - repeat (apply Forall_cons_2; [reflexivity |]). apply Forall_nil_2.
  - repeat (apply Forall_cons_2; [reflexivity |]). apply Forall_nil_2.
  - vm_compute. reflexivity.
  - by split.
Defined.

Lemma OrderComparator_strict_weak_ordering_witness :
  OrderComparator charlie_sells_8 charlie_sells_8 = false
  /\ OrderComparator charlie_sells_8_more charlie_sells_8 = false
  /\ OrderComparator charlie_sells_8 (alice_sells_5 3000) = true.
Proof.
  destruct (OrderComparator_strict_weak_ordering Sell charlie_sells_8
              charlie_sells_8_more (alice_sells_5 3000))
    as (Hirreflexive & Hasymmetric & Htransitive & _);
    [by split | by split | by split |].
  split; [exact Hirreflexive |].
  split; [apply Hasymmetric | apply Htransitive]; reflexivity.
Defined.

Lemma orders_in_quick_succession_share_an_id_witness :
  id (alice_sells_5 3000) = id (alice_sells_5 3001)
  /\ ~ NoDup (id <$> sell_side (order_book alice_sells_twice)).
Proof.
  destruct (orders_in_quick_succession_share_an_id example_stod
              example_insert_double 3000 3001
              ["order"; "create"; "alice"; "sell"; "5"; "26"]
              ["order"; "create"; "alice"; "sell"; "5"; "26"]
              example_state (complain [] example_state)
              (complain [] (complain [] example_state))
              (alice_sells_5 3000) (alice_sells_5 3001))
    as [Hsame Hrest];
    [vm_compute; reflexivity | vm_compute; reflexivity | reflexivity |].
  split; [exact Hsame |].
  apply (Hrest example_clock example_clock example_state alice_sells_once
           alice_sells_twice); vm_compute; reflexivity.
Defined.

Lemma invariants_under_both_threads_witness :
  book_ok (order_book (shared example_process))
  /\ book_signed (order_book (shared example_process))
  /\ book_positive (order_book (shared example_process))
  /\ tx_id <$> transactions (shared example_process)
     = Z.of_nat <$> seq 1 (length (transactions (shared example_process)))
  /\ Forall (fun t => buyer t <> seller t) (transactions (shared example_process))
  /\ Forall (fun t => 0 < tx_quantity t) (transactions (shared example_process)).
Proof.
  apply (invariants_under_both_threads example_stod example_insert_double
           example_turns example_state example_input example_process).
  - exact example_stod_ordered.
  - apply book_ok_setup.
  - exact book_signed_example.
  - exact book_positive_example.
  - reflexivity.
  - vm_compute. reflexivity.
Defined.

Lemma convert_int_round_trip_witness :
  convert_string_to_int (convert_int_to_string 120) = (120, [])
  /\ convert_string_to_int (convert_int_to_string (-120))
     = (0, ["Invalid input: non-numeric characters found"]).
Proof.
  split.
  - destruct (convert_int_round_trip 120) as [Hback _].
    apply Hback. unfold INT_MAX. lia.
  - destruct (convert_int_round_trip (-120)) as [_ Hsign].
    apply Hsign. lia.
Defined.

Lemma convert_string_to_int_range_witness :
  convert_string_to_int "" = (0, [])
  /\ convert_string_to_int "4294967296" = (0, []).
Proof.
  destruct (convert_string_to_int_range "") as (_ & _ & _ & Hempty & _).
  destruct (convert_string_to_int_range "4294967296") as (_ & _ & _ & _ & Hlarge).
  split; [by apply Hempty |].
  apply Hlarge; [reflexivity | vm_compute; reflexivity].
Defined.

Lemma parse_input_round_trip_witness :
  parse_input (cancel_message "cancel" "1") = ["cancel"; "1"].
Proof.
  destruct parse_input_round_trip as (_ & _ & Hcancel).
  by apply (Hcancel "  cancel   1 now" "cancel" "1" ["now"]).
Defined.

Lemma print_accounts_rows_witness :
  print_accounts example_insert_double
    (<["a-very-long-account-name" := value_initialized]> setup_accounts)
  = None.
Proof.
  destruct (print_accounts_rows example_insert_double
              (<["a-very-long-account-name" := value_initialized]> setup_accounts))
    as (_ & Hlong & _).
  apply (Hlong "a-very-long-account-name" value_initialized);
    [apply lookup_insert_eq | by vm_compute].
Defined.
